(** * Personalized calibration and classification engine

    A shallow embedding of the posture engine of
    [Code/Model/lightGBM/lightGBM.py] and of its copy in
    [Code/app/src/main/python/personalized_posture_detector.py]
    (class [PersonalizedPostureDetector], here [Module Detector]).

    Conventions of the embedding.
    - A parsed payload (the result of [json.load]) is a [json] tree; a
      Python dict is an association list in insertion order, read by its
      first binding of a key.
    - A Python float or int is a rational number ([Q]): arithmetic is
      exact, and the non-finite floats (nan, inf) are outside the model.
      Equality of numbers is [Qeq].
    - Joint angles computed by geometry are real numbers ([R]), because
      they go through [arccos]; angles handed to the rule classifier and
      to the score are rationals, so that these functions evaluate.
    - A function that may raise returns a [result]; [None] of Python is
      [None] of [option]. *)

From Stdlib Require Import ZArith QArith Qabs Lqa Lia Bool.
From Stdlib Require Import List String Ascii.
From Stdlib Require Import Reals Qreals Lra.
Import ListNotations.

Local Open Scope string_scope.
Local Open Scope Q_scope.
Local Set Warnings "-register-all".

(** ** Exceptions *)

Inductive exn : Set := TypeError | ValueError | KeyError | RecursionError.

Inductive result (A : Type) : Type :=
| Ok (a : A)
| Raise (e : exn).

Arguments Ok {A} a.
Arguments Raise {A} e.

Definition bind {A B : Type} (m : result A) (k : A -> result B) : result B :=
  match m with
  | Ok a => k a
  | Raise e => Raise e
  end.

Notation "'do' x <- m ; k" := (bind m (fun x => k))
  (at level 10, x name, m at level 100, k at level 200).

(** [try: ... except (TypeError, ValueError[, KeyError]): handler]. *)
Definition try_except {A : Type} (m : result A) (handler : A) : A :=
  match m with
  | Ok a => a
  | Raise _ => handler
  end.

Definition raises {A : Type} (m : result A) : bool :=
  match m with
  | Ok _ => false
  | Raise _ => true
  end.

(** ** Parsed payloads *)

Inductive json : Type :=
| JNull
| JBool (b : bool)
| JNum (q : Q)
| JStr (s : string)
| JList (xs : list json)
| JDict (kvs : list (string * json)).

Definition dict := list (string * json).

(** Truth value of a Python object ([bool(v)]). *)
Definition truthy (v : json) : bool :=
  match v with
  | JNull => false
  | JBool b => b
  | JNum q => negb (Qeq_bool q 0)
  | JStr s => negb (String.eqb s "")
  | JList xs => match xs with [] => false | _ => true end
  | JDict kvs => match kvs with [] => false | _ => true end
  end.

(** [a or b]. *)
Definition py_or (a b : json) : json := if truthy a then a else b.

(** Lookup of a key in an association list: its first binding. *)
Fixpoint dict_get {A : Type} (d : list (string * A)) (k : string) : option A :=
  match d with
  | [] => None
  | (k', v) :: rest => if String.eqb k' k then Some v else dict_get rest k
  end.

(** [d.get(k)], with [None] of Python for a missing key. *)
Definition get (d : dict) (k : string) : json :=
  match dict_get d k with
  | Some v => v
  | None => JNull
  end.

(** [d.get(k, default)]. *)
Definition get_default (d : dict) (k : string) (default : json) : json :=
  match dict_get d k with
  | Some v => v
  | None => default
  end.

(** [k in d]. *)
Definition has_key (d : dict) (k : string) : bool :=
  match dict_get d k with
  | Some _ => true
  | None => false
  end.

(** [d[k] = v]: the binding is replaced where it stands, or added last. *)
Fixpoint dict_set {A : Type} (d : list (string * A)) (k : string) (v : A)
  : list (string * A) :=
  match d with
  | [] => [(k, v)]
  | (k', v') :: rest =>
      if String.eqb k' k then (k', v) :: rest else (k', v') :: dict_set rest k v
  end.

(** ** The builtin [float] *)

Module PyFloat.

Definition is_space (c : ascii) : bool :=
  match nat_of_ascii c with
  | 9%nat | 10%nat | 11%nat | 12%nat | 13%nat | 32%nat => true
  | _ => false
  end.

Definition digit_of (c : ascii) : option Z :=
  let n := nat_of_ascii c in
  if ((48 <=? n)%nat && (n <=? 57)%nat)%bool
  then Some (Z.of_nat (n - 48))
  else None.

Definition starts_with_digit (cs : list ascii) : bool :=
  match cs with
  | c :: _ => match digit_of c with Some _ => true | None => false end
  | [] => false
  end.

Fixpoint lstrip (cs : list ascii) : list ascii :=
  match cs with
  | c :: rest => if is_space c then lstrip rest else cs
  | [] => []
  end.

Definition strip (cs : list ascii) : list ascii :=
  rev (lstrip (rev (lstrip cs))).

(** digitpart ::= digit (["_"] digit)*; the value read so far, the
    number of digits read, and what is left. *)
Fixpoint digitpart (acc : Z) (n : nat) (cs : list ascii)
  : Z * nat * list ascii :=
  match cs with
  | c :: rest =>
      match digit_of c with
      | Some d => digitpart (10 * acc + d)%Z (S n) rest
      | None =>
          if (Ascii.eqb c "_" && negb (Nat.eqb n 0) && starts_with_digit rest)%bool
          then digitpart acc n rest
          else (acc, n, cs)
      end
  | [] => (acc, n, [])
  end.

Definition pow10 (n : nat) : Q := inject_Z (10 ^ Z.of_nat n).

Definition sign_of (cs : list ascii) : bool * list ascii :=
  match cs with
  | "-"%char :: rest => (true, rest)
  | "+"%char :: rest => (false, rest)
  | _ => (false, cs)
  end.

(** exponent ::= ("e" | "E") [sign] digitpart *)
Definition exponent (cs : list ascii) : option (Q * list ascii) :=
  match cs with
  | c :: rest =>
      if (Ascii.eqb c "e" || Ascii.eqb c "E")%bool then
        let '(neg, rest1) := sign_of rest in
        let '(e, ne, rest2) := digitpart 0 0 rest1 in
        if Nat.eqb ne 0 then None
        else Some (if neg then / pow10 (Z.to_nat e) else pow10 (Z.to_nat e), rest2)
      else Some (1, cs)
  | [] => Some (1, [])
  end.

(** number ::= [digitpart] "." digitpart | digitpart ["."] *)
Definition number (cs : list ascii) : option (Q * list ascii) :=
  let '(i, ni, rest) := digitpart 0 0 cs in
  match rest with
  | "."%char :: rest1 =>
      let '(f, nf, rest2) := digitpart 0 0 rest1 in
      if Nat.eqb (ni + nf) 0 then None
      else Some (inject_Z i + inject_Z f / pow10 nf, rest2)
  | _ => if Nat.eqb ni 0 then None else Some (inject_Z i, rest)
  end.

(** [float(s)] for a string: the finite decimal literals; [None] stands
    for [ValueError]. *)
Definition of_string (s : string) : option Q :=
  let '(neg, cs) := sign_of (strip (list_ascii_of_string s)) in
  match number cs with
  | Some (m, rest) =>
      match exponent rest with
      | Some (scale, []) => Some (Qred ((if neg then - m else m) * scale))
      | _ => None
      end
  | None => None
  end.

End PyFloat.

(** [float(v)]: numbers and booleans convert, a string is parsed
    ([ValueError] when it is no number), anything else is a [TypeError]. *)
Definition py_float (v : json) : result Q :=
  match v with
  | JNum q => Ok q
  | JBool b => Ok (if b then 1 else 0)
  | JStr s =>
      match PyFloat.of_string s with
      | Some q => Ok q
      | None => Raise ValueError
      end
  | JNull | JList _ | JDict _ => Raise TypeError
  end.

(** ** Constants *)

Inductive region : Set := Neck | Back | Legs.

(** A value per region: the dicts keyed by ['neck'], ['back'], ['legs']. *)
Record by_region (A : Type) : Type :=
  mk_by_region { neck : A; back : A; legs : A }.

Arguments mk_by_region {A} neck back legs.
Arguments neck {A} b.
Arguments back {A} b.
Arguments legs {A} b.

Definition at_region {A : Type} (t : by_region A) (r : region) : A :=
  match r with
  | Neck => neck t
  | Back => back t
  | Legs => legs t
  end.

Definition tabulate {A : Type} (f : region -> A) : by_region A :=
  mk_by_region (f Neck) (f Back) (f Legs).

Definition regions : list region := [Neck; Back; Legs].

Definition CONFIDENCE_THRESHOLD : Q := 0.75.

Definition POSTURE_TOLERANCE : by_region Q := mk_by_region 10 10 10.

Definition ANGLE_WEIGHTS : by_region Q := mk_by_region 1 1.5 0.5.

Record limits : Set := mk_limits { lim_min : Q; lim_max : Q }.

Definition ANGLE_LIMITS : by_region limits :=
  mk_by_region (mk_limits 125.19 178.45)
               (mk_limits 59.70 145.25)
               (mk_limits 86.13 164.73).

Record suggestions : Set := mk_suggestions { low : string; high : string }.

Definition POSTURE_SUGGESTIONS : by_region suggestions :=
  mk_by_region
    (mk_suggestions
       "FIX: Your neck is bent too far forward. Tuck your chin in."
       "FIX: Avoid tilting your head too far back.")
    (mk_suggestions
       "FIX: You are slouching. Sit up straight and engage your core."
       "FIX: You are leaning back too far. Bring your torso upright.")
    (mk_suggestions
       "FIX: Your knees are too bent. Adjust your seating or footrest."
       "FIX: Your legs are too extended. Place your feet flat on the floor.").

(** ** Rule classifier and score *)

Definition Qltb (x y : Q) : bool := negb (Qle_bool y x).

(** [min(a, b)] and [max(a, b)] of Python: the first argument is kept
    unless the second is strictly smaller (larger). *)
Definition py_min (a b : Q) : Q := if Qltb b a then b else a.
Definition py_max (a b : Q) : Q := if Qltb a b then b else a.

Record rule : Set :=
  mk_rule { rule_min : Q; rule_max : Q;
            low_suggestion : string; high_suggestion : string }.

Definition build_manual_rules (personal_angles : by_region Q) : by_region rule :=
  tabulate (fun r =>
    let tolerance := at_region POSTURE_TOLERANCE r in
    mk_rule (at_region personal_angles r - tolerance)
            (at_region personal_angles r + tolerance)
            (low (at_region POSTURE_SUGGESTIONS r))
            (high (at_region POSTURE_SUGGESTIONS r))).

Definition compute_manual_max_deviation (personal_angles : by_region Q) : Q :=
  fold_left
    (fun threshold r =>
       let ideal := at_region personal_angles r in
       let lims := at_region ANGLE_LIMITS r in
       let worst_angle :=
         if Qltb (Qabs (lim_max lims - ideal)) (Qabs (lim_min lims - ideal))
         then lim_min lims else lim_max lims in
       let worst_diff := Qabs (worst_angle - ideal) in
       let weight := at_region ANGLE_WEIGHTS r in
       threshold + weight * (worst_diff ^ 2))
    regions 0.

Definition weighted_deviation (current_angles personal_angles : by_region Q) : Q :=
  let deviations :=
    tabulate (fun r => (at_region current_angles r - at_region personal_angles r) ^ 2) in
  fold_left (fun acc r => acc + at_region ANGLE_WEIGHTS r * at_region deviations r)
            regions 0.

Definition calculate_manual_score
    (current_angles personal_angles : by_region Q) (max_threshold : Q) : Q :=
  let wd := weighted_deviation current_angles personal_angles in
  if Qle_bool max_threshold 0 then
    if Qle_bool wd 0.000001 then 100 else 0
  else
    let score := 1 - wd / max_threshold in
    py_max 0 (py_min 100 (score * 100)).

Definition state_of (angle : Q) (r : rule) : string :=
  if (Qle_bool (rule_min r) angle && Qle_bool angle (rule_max r))%bool
  then "GOOD" else "BAD".

Definition state_eqb (s t : string * string * string) : bool :=
  let '(s1, s2, s3) := s in
  let '(t1, t2, t3) := t in
  (String.eqb s1 t1 && String.eqb s2 t2 && String.eqb s3 t3)%bool.

Definition posture_states : list ((string * string * string) * string) :=
  [ (("GOOD", "GOOD", "GOOD"), "Aligned Posture");
    (("GOOD", "GOOD", "BAD"), "Legs Misalignment");
    (("GOOD", "BAD", "GOOD"), "Back Misalignment");
    (("GOOD", "BAD", "BAD"), "Back & Legs Misalignment");
    (("BAD", "GOOD", "GOOD"), "Neck Misalignment");
    (("BAD", "GOOD", "BAD"), "Neck & Legs Misalignment");
    (("BAD", "BAD", "GOOD"), "Neck & Back Misalignment");
    (("BAD", "BAD", "BAD"), "Full Body Misalignment") ].

Fixpoint table_get (table : list ((string * string * string) * string))
    (state : string * string * string) (default : string) : string :=
  match table with
  | [] => default
  | (k, v) :: rest => if state_eqb k state then v else table_get rest state default
  end.

Definition posture_state (angles : by_region Q) (rules : by_region rule)
  : string * string * string :=
  (state_of (neck angles) (neck rules),
   state_of (back angles) (back rules),
   state_of (legs angles) (legs rules)).

Definition classify_posture_state (angles : by_region Q) (rules : by_region rule)
  : string :=
  table_get posture_states (posture_state angles rules) "Unknown".

Record analysis_row : Set :=
  mk_row { row_region : region; row_angle : Q;
           row_status : string; row_suggestion : string }.

Record manual_summary : Set :=
  mk_summary { label : string; score : Q; details : list analysis_row }.

Definition analyse_region (current_angles : by_region Q)
    (manual_rules : by_region rule) (r : region) : analysis_row :=
  let angle := at_region current_angles r in
  let rl := at_region manual_rules r in
  if Qltb angle (rule_min rl) then
    mk_row r angle "INCORRECT (Too Bent/Forward)" (low_suggestion rl)
  else if Qltb (rule_max rl) angle then
    mk_row r angle "INCORRECT (Too Reclined/Extended)" (high_suggestion rl)
  else
    mk_row r angle "GOOD" "No correction needed.".

Definition run_manual_posture_check
    (current_angles personal_angles : by_region Q) : manual_summary :=
  let manual_rules := build_manual_rules personal_angles in
  let max_threshold := compute_manual_max_deviation personal_angles in
  let analysis_rows := map (analyse_region current_angles manual_rules) regions in
  let manual_label := classify_posture_state current_angles manual_rules in
  let manual_score := calculate_manual_score current_angles personal_angles max_threshold in
  mk_summary manual_label manual_score analysis_rows.

(** ** Keypoint normaliser *)

(** Keys of the dicts the engine builds itself.  A part name read from a
    payload is any hashable object: [None], a number (a boolean is the
    number 0 or 1) or a string; a list or a dict is not hashable. *)
Inductive key : Type :=
| KNone
| KNum (q : Q)
| KStr (s : string).

Definition key_of (v : json) : result key :=
  match v with
  | JNull => Ok KNone
  | JBool b => Ok (KNum (if b then 1 else 0))
  | JNum q => Ok (KNum q)
  | JStr s => Ok (KStr s)
  | JList _ | JDict _ => Raise TypeError
  end.

Definition key_eqb (a b : key) : bool :=
  match a, b with
  | KNone, KNone => true
  | KNum p, KNum q => Qeq_bool p q
  | KStr s, KStr t => String.eqb s t
  | _, _ => false
  end.

Section Lookup.

Context {A : Type}.

Fixpoint lookup_get (l : list (key * A)) (k : key) : option A :=
  match l with
  | [] => None
  | (k', v) :: rest => if key_eqb k' k then Some v else lookup_get rest k
  end.

Fixpoint lookup_set (l : list (key * A)) (k : key) (v : A) : list (key * A) :=
  match l with
  | [] => [(k, v)]
  | (k', v') :: rest =>
      if key_eqb k' k then (k', v) :: rest else (k', v') :: lookup_set rest k v
  end.

End Lookup.

(** The canonical keypoint map: part name to keypoint dict. *)
Definition keypoints := list (key * dict).

Definition is_empty {A : Type} (l : list A) : bool :=
  match l with [] => true | _ => false end.

Definition is_None (v : json) : bool :=
  match v with JNull => true | _ => false end.

(** One item of a dict-shaped keypoint container. *)
Definition normalise_item (lookup : keypoints) (item : string * json) : keypoints :=
  let '(label, payload) := item in
  match payload with
  | JDict d => lookup_set lookup (KStr label) d
  | JList (x_val :: y_val :: conf :: _) =>
      lookup_set lookup (KStr label)
                 [("x", x_val); ("y", y_val); ("confidence", conf)]
  | _ => lookup
  end.

Definition entry_name_normaliser (entry : dict) : json :=
  py_or (py_or (py_or (get entry "part_name") (get entry "name"))
               (get entry "part"))
        (get entry "id").

(** One entry of a list-shaped keypoint container. *)
Definition normalise_entry (lookup : keypoints) (entry : json) : result keypoints :=
  match entry with
  | JDict e =>
      let name := entry_name_normaliser e in
      if negb (truthy name) then Ok lookup
      else
        let position := match get e "position" with JDict p => p | _ => [] end in
        let x_val := get_default e "x" (get position "x") in
        let y_val := get_default e "y" (get position "y") in
        let conf :=
          get_default e "confidence" (get_default e "score" (get e "probability")) in
        let visible :=
          get_default e "visible" (get_default e "is_visible" (JBool true)) in
        do k <- key_of name;
        Ok (lookup_set lookup k
              [("x", x_val); ("y", y_val); ("confidence", conf); ("visible", visible)])
  | _ => Ok lookup
  end.

Fixpoint normalise_entries (lookup : keypoints) (entries : list json)
  : result keypoints :=
  match entries with
  | [] => Ok lookup
  | entry :: rest =>
      do lookup' <- normalise_entry lookup entry;
      normalise_entries lookup' rest
  end.

Definition _normalise_keypoints (raw_keypoints : json) : result keypoints :=
  match raw_keypoints with
  | JDict items => Ok (fold_left normalise_item items [])
  | JList entries => normalise_entries [] entries
  | _ => Ok []
  end.

(** [None] stands for a point that is not a dict (the [None] that
    [keypoints_lookup.get] returns for a missing part). *)
Definition stated_confidence (point : dict) : json :=
  let conf := get point "confidence" in
  let conf := if is_None conf then get point "score" else conf in
  let conf := if is_None conf then get point "probability" else conf in
  conf.

Definition _confidence (point : option dict) : Q :=
  match point with
  | None => 0
  | Some d =>
      match get d "visible" with
      | JBool false => 0
      | _ => try_except (py_float (stated_confidence d)) 0
      end
  end.

Definition candidate_keys : list string :=
  ["keypoints"; "pose_keypoints"; "pose_keypoints_2d"].

(** The loop over the three field names: the first one whose value
    normalises to a non-empty map wins. *)
Fixpoint scan_candidates (holder : dict) (names : list string)
    (keypoints_lookup : keypoints) : result keypoints :=
  match names with
  | [] => Ok keypoints_lookup
  | candidate_key :: rest =>
      match dict_get holder candidate_key with
      | Some raw =>
          do found <- _normalise_keypoints raw;
          if is_empty found then scan_candidates holder rest found else Ok found
      | None => scan_candidates holder rest keypoints_lookup
      end
  end.

(** The keypoint map of [persons[0]], when [persons] is a non-empty
    list whose first element is a dict. *)
Definition first_person_keypoints (persons : json) : result keypoints :=
  match persons with
  | JList (JDict person_entry :: _) =>
      scan_candidates person_entry candidate_keys []
  | _ => Ok []
  end.

Definition _build_keypoints_lookup (payload : json) : result keypoints :=
  match payload with
  | JDict p =>
      let persons := py_or (get p "persons") (get p "people") in
      do keypoints_lookup <- first_person_keypoints persons;
      if is_empty keypoints_lookup
      then scan_candidates p candidate_keys keypoints_lookup
      else Ok keypoints_lookup
  | _ => Ok []
  end.

(** ** Keypoint coordinates and their offsets *)

Record coord : Set := mk_coord { cx : Q; cy : Q }.

Definition coordinates := list (key * coord).

Definition float_xy (point : dict) : result coord :=
  do x_val <- py_float (get point "x");
  do y_val <- py_float (get point "y");
  Ok (mk_coord x_val y_val).

Definition extract_keypoint_coordinates (lookup : keypoints) : coordinates :=
  fold_left
    (fun coords item =>
       match float_xy (snd item) with
       | Ok c => lookup_set coords (fst item) c
       | Raise _ => coords
       end)
    lookup [].

Definition extract_keypoint_coordinates_from_payload (payload : json)
  : result coordinates :=
  do lookup <- _build_keypoints_lookup payload;
  Ok (extract_keypoint_coordinates lookup).

(** An offset dict: the shift under ['x'] and under ['y'], each of which
    may be missing. *)
Record delta : Set := mk_delta { dx : option Q; dy : option Q }.

Definition offsets := list (key * delta).

Definition compute_keypoint_coordinate_offsets (base_map personal_map : coordinates)
  : offsets :=
  if (is_empty base_map || is_empty personal_map)%bool then []
  else
    fold_left
      (fun offs item =>
         let '(name, base_point) := item in
         match lookup_get personal_map name with
         | None => offs
         | Some personal_point =>
             let delta_x := cx personal_point - cx base_point in
             let delta_y := cy personal_point - cy base_point in
             lookup_set offs name (mk_delta (Some delta_x) (Some delta_y))
         end)
      base_map [].

(** ** Coordinate re-projector, on trees

    [apply_keypoint_offsets_to_payload] as a function from the payload to
    the adjusted payload.  The version that works on a store, with the
    deep copy and the writes in place, is [Store.apply_keypoint_offsets_to_payload]
    below. *)

(** [delta.get(axis, 0.0)] *)
Definition delta_get (d : delta) (axis : string) : Q :=
  match (if String.eqb axis "x" then dx d else dy d) with
  | Some q => q
  | None => 0
  end.

(** [not delta], for the dict found under a part name. *)
Definition no_delta (d : option delta) : bool :=
  match d with
  | None => true
  | Some (mk_delta None None) => true
  | Some _ => false
  end.

Definition shift_axis (d : delta) (holder : dict) (axis : string) : dict :=
  match dict_get holder axis with
  | Some v =>
      if is_None v then holder
      else
        match py_float v with
        | Ok q => dict_set holder axis (JNum (q + delta_get d axis))
        | Raise _ => holder
        end
  | None => holder
  end.

Definition shift_xy (d : delta) (holder : dict) : dict :=
  shift_axis d (shift_axis d holder "x") "y".

Definition _apply_delta (keypoint_offsets : offsets) (entry : dict) (name : key)
  : dict :=
  match lookup_get keypoint_offsets name with
  | Some d =>
      if no_delta (Some d) then entry
      else
        let entry := shift_xy d entry in
        match get entry "position" with
        | JDict position =>
            if is_empty position then entry
            else dict_set entry "position" (JDict (shift_xy d position))
        | _ => entry
        end
  | None => entry
  end.

Definition entry_name_reprojector (entry : dict) : json :=
  py_or (py_or (py_or (get entry "name") (get entry "part_name"))
               (get entry "part"))
        (get entry "id").

Definition process_entry (keypoint_offsets : offsets) (entry : json) : result json :=
  match entry with
  | JDict e =>
      let name := entry_name_reprojector e in
      if truthy name then
        do k <- key_of name;
        Ok (JDict (_apply_delta keypoint_offsets e k))
      else Ok entry
  | _ => Ok entry
  end.

Definition process_item (keypoint_offsets : offsets) (item : string * json)
  : string * json :=
  let '(name, entry) := item in
  match entry with
  | JDict e => (name, JDict (_apply_delta keypoint_offsets e (KStr name)))
  | JList (e0 :: e1 :: rest) =>
      match lookup_get keypoint_offsets (KStr name) with
      | Some d =>
          if no_delta (Some d) then item
          else
            match (do a <- py_float e0; do b <- py_float e1; Ok (a, b)) with
            | Ok (a, b) =>
                (name, JList (JNum (a + delta_get d "x")
                              :: JNum (b + delta_get d "y") :: rest))
            | Raise _ => item
            end
      | None => item
      end
  | _ => item
  end.

Fixpoint mapM {A B : Type} (f : A -> result B) (l : list A) : result (list B) :=
  match l with
  | [] => Ok []
  | a :: rest =>
      do b <- f a;
      do bs <- mapM f rest;
      Ok (b :: bs)
  end.

Definition _process_keypoints (keypoint_offsets : offsets) (container : json)
  : result json :=
  match container with
  | JList entries =>
      do entries' <- mapM (process_entry keypoint_offsets) entries;
      Ok (JList entries')
  | JDict items => Ok (JDict (map (process_item keypoint_offsets) items))
  | _ => Ok container
  end.

Fixpoint process_candidates (keypoint_offsets : offsets) (names : list string)
    (holder : dict) : result dict :=
  match names with
  | [] => Ok holder
  | candidate_key :: rest =>
      match dict_get holder candidate_key with
      | Some container =>
          do container' <- _process_keypoints keypoint_offsets container;
          process_candidates keypoint_offsets rest
                             (dict_set holder candidate_key container')
      | None => process_candidates keypoint_offsets rest holder
      end
  end.

Definition process_person (keypoint_offsets : offsets) (person : json) : result json :=
  match person with
  | JDict p =>
      do p' <- process_candidates keypoint_offsets candidate_keys p;
      Ok (JDict p')
  | _ => Ok person
  end.

Definition apply_keypoint_offsets_to_payload (payload : json)
    (keypoint_offsets : offsets) : result json :=
  match payload with
  | JDict p =>
      if is_empty keypoint_offsets then Ok payload
      else
        let persons_key := if truthy (get p "persons") then "persons" else "people" in
        do adjusted <-
          match py_or (get p "persons") (get p "people") with
          | JList persons =>
              do persons' <- mapM (process_person keypoint_offsets) persons;
              Ok (dict_set p persons_key (JList persons'))
          | _ => Ok p
          end;
        do adjusted <- process_candidates keypoint_offsets candidate_keys adjusted;
        Ok (JDict adjusted)
  | _ => Ok payload
  end.

(** ** Angle extractor *)

Local Open Scope R_scope.

(** [np.clip(x, lo, hi)] *)
Definition clip (x lo hi : R) : R := Rmin (Rmax x lo) hi.

Definition norm (v : R * R) : R := sqrt (fst v * fst v + snd v * snd v).

Definition dot (u v : R * R) : R := fst u * fst v + snd u * snd v.

Definition vec (p q : coord) : R * R :=
  (Q2R (cx p) - Q2R (cx q), Q2R (cy p) - Q2R (cy q)).

Definition degrees (x : R) : R := x * (180 / PI).

Definition calculate_angle (a b c : coord) : R :=
  let ba := vec a b in
  let bc := vec c b in
  let dot_product := dot ba bc in
  let magnitude_ba := norm ba in
  let magnitude_bc := norm bc in
  let cosine_angle :=
    clip (dot_product / (magnitude_ba * magnitude_bc + / 1000000)) (-1) 1 in
  degrees (acos cosine_angle).

Local Close Scope R_scope.

Definition angle_keys : list string := ["neck"; "back"; "legs"].

Definition float_angles (candidate : dict) : result (by_region Q) :=
  do n <- py_float (get candidate "neck");
  do b <- py_float (get candidate "back");
  do l <- py_float (get candidate "legs");
  Ok (mk_by_region n b l).

(** [_extract_angles] of lightGBM.py: [float] is not guarded. *)
Definition _extract_angles (candidate : json) : result (option (by_region Q)) :=
  match candidate with
  | JDict c =>
      if forallb (has_key c) angle_keys
      then do a <- float_angles c; Ok (Some a)
      else Ok None
  | _ => Ok None
  end.

Fixpoint scan_angle_fields
    (extract : json -> result (option (by_region Q)))
    (data : dict) (names : list string) : result (option (by_region Q)) :=
  match names with
  | [] => Ok None
  | k :: rest =>
      do angles <- extract (get data k);
      match angles with
      | Some a => Ok (Some a)
      | None => scan_angle_fields extract data rest
      end
  end.

(** The point of a required part, when it is confident enough and its
    coordinates convert. *)
Definition required_point (keypoints_lookup : keypoints) (part_key : string)
  : option coord :=
  let point := lookup_get keypoints_lookup (KStr part_key) in
  if Qltb (_confidence point) CONFIDENCE_THRESHOLD then None
  else
    match point with
    | Some d => match float_xy d with Ok c => Some c | Raise _ => None end
    | None => None
    end.

Definition choose_side (keypoints_lookup : keypoints) : string :=
  let left_ear_conf := _confidence (lookup_get keypoints_lookup (KStr "left_ear")) in
  let right_ear_conf := _confidence (lookup_get keypoints_lookup (KStr "right_ear")) in
  if Qle_bool right_ear_conf left_ear_conf then "left" else "right".

Definition required_parts (side : string) : list string :=
  [side ++ "_ear"; side ++ "_shoulder"; side ++ "_hip"; side ++ "_knee";
   side ++ "_ankle"].

Definition geometric_angles (keypoints_lookup : keypoints) : option (by_region R) :=
  let side := choose_side keypoints_lookup in
  match required_point keypoints_lookup (side ++ "_ear") with
  | Some ear =>
  match required_point keypoints_lookup (side ++ "_shoulder") with
  | Some shoulder =>
  match required_point keypoints_lookup (side ++ "_hip") with
  | Some hip =>
  match required_point keypoints_lookup (side ++ "_knee") with
  | Some knee =>
  match required_point keypoints_lookup (side ++ "_ankle") with
  | Some ankle =>
      Some (mk_by_region (calculate_angle hip shoulder ear)
                         (calculate_angle knee hip shoulder)
                         (calculate_angle ankle knee hip))
  | None => None end
  | None => None end
  | None => None end
  | None => None end
  | None => None end.

Definition map_region {A B : Type} (f : A -> B) (t : by_region A) : by_region B :=
  mk_by_region (f (neck t)) (f (back t)) (f (legs t)).

Definition get_angles_with
    (extract : json -> result (option (by_region Q)))
    (fields : list string) (data : json) : result (option (by_region R)) :=
  do direct <-
    match data with
    | JDict d =>
        do angles <- scan_angle_fields extract d fields;
        match angles with
        | Some a => Ok (Some a)
        | None => extract data
        end
    | _ => Ok None
    end;
  match direct with
  | Some a => Ok (Some (map_region Q2R a))
  | None =>
      do keypoints_lookup <- _build_keypoints_lookup data;
      if is_empty keypoints_lookup then Ok None
      else Ok (geometric_angles keypoints_lookup)
  end.

Definition get_angles_from_payload : json -> result (option (by_region R)) :=
  get_angles_with _extract_angles ["adjusted_angles"; "personalized_angles"; "angles"].

(** ** Files *)

(** What [open] and [json.load] make of a path. *)
Inductive file : Type :=
| Absent
| Corrupt
| Parsed (payload : json).

Definition filesystem := string -> file.

(** [with open(path) as f: json.load(f)], with [None] for any exception. *)
Definition load_json (fs : filesystem) (filepath : string) : option json :=
  match fs filepath with
  | Parsed payload => Some payload
  | _ => None
  end.

Definition path_exists (fs : filesystem) (filepath : string) : bool :=
  match fs filepath with
  | Absent => false
  | _ => true
  end.

Definition get_angles_from_keypoint_file (fs : filesystem) (filepath : string)
  : result (option (by_region R)) :=
  match load_json fs filepath with
  | Some data => get_angles_from_payload data
  | None => Ok None
  end.

Definition load_keypoint_coordinates (fs : filesystem) (filepath : string)
  : result coordinates :=
  match load_json fs filepath with
  | Some payload => extract_keypoint_coordinates_from_payload payload
  | None => Ok []
  end.

(** ** Reference resolver *)

Record resolution : Type :=
  mk_resolution { base_angles : by_region R;
                  personal_angles : by_region R;
                  angle_offsets : by_region R;
                  resolved_personal_path : string }.

Definition angle_difference (personal base : by_region R) : by_region R :=
  tabulate (fun r => (at_region personal r - at_region base r)%R).

Definition resolve_reference_angles (fs : filesystem)
    (base_reference_path : string) (personal_reference_path : option string)
  : result (option resolution) :=
  let personal_reference_path :=
    match personal_reference_path with
    | Some p => if String.eqb p "" then base_reference_path else p
    | None => base_reference_path
    end in
  do base <- get_angles_from_keypoint_file fs base_reference_path;
  match base with
  | None => Ok None
  | Some base_angles =>
      do personal <- get_angles_from_keypoint_file fs personal_reference_path;
      let '(personal_angles, personal_reference_path) :=
        match personal with
        | None => (base_angles, base_reference_path)
        | Some p => (p, personal_reference_path)
        end in
      Ok (Some (mk_resolution base_angles personal_angles
                  (angle_difference personal_angles base_angles)
                  personal_reference_path))
  end.

(** ** Training corpus preparer: the adjusted angles of one capture *)

Definition add_offsets (current offs : by_region R) : by_region R :=
  tabulate (fun r => (at_region current r + at_region offs r)%R).

(** Lines 584-596 of [prepare_adjusted_training_data]: [None] when the
    capture is skipped. *)
Definition adjusted_angles_of_capture (raw_payload : json)
    (offs : by_region R) (keypoint_coordinate_offsets : offsets)
  : result (option (by_region R)) :=
  do current <- get_angles_from_payload raw_payload;
  match current with
  | None => Ok None
  | Some current_angles =>
      do adjusted_payload <-
        apply_keypoint_offsets_to_payload raw_payload keypoint_coordinate_offsets;
      do adjusted_payload_angles <- get_angles_from_payload adjusted_payload;
      match adjusted_payload_angles with
      | Some a => Ok (Some a)
      | None => Ok (Some (add_offsets current_angles offs))
      end
  end.

(** ** The copy of the engine in the Android detector *)

Module Detector.

(** [_extract_angles] of [get_angles_from_payload]: [float] is guarded. *)
Definition _extract_angles (candidate : json) : result (option (by_region Q)) :=
  match candidate with
  | JDict c =>
      if forallb (has_key c) angle_keys
      then Ok (try_except (do a <- float_angles c; Ok (Some a)) None)
      else Ok None
  | _ => Ok None
  end.

Definition get_angles_from_payload : json -> result (option (by_region R)) :=
  get_angles_with _extract_angles
    ["adjusted_angles"; "personalized_angles"; "angles"; "reference_angles"].

Definition load_reference_angles (fs : filesystem) (reference_path : string)
  : result (option (by_region R)) :=
  match load_json fs reference_path with
  | Some data => get_angles_from_payload data
  | None => Ok None
  end.

(** [self.base_reference_file] is the first path. *)
Definition resolve_reference_angles (fs : filesystem)
    (base_reference_file : string) (user_reference_path : string)
  : result (option resolution) :=
  do base <- load_reference_angles fs base_reference_file;
  match base with
  | None => Ok None
  | Some base_angles =>
      let personal_path :=
        if path_exists fs user_reference_path then Some user_reference_path
        else None in
      do personal <-
        match personal_path with
        | Some p => if String.eqb p "" then Ok None else load_reference_angles fs p
        | None => Ok None
        end;
      let '(personal_angles, personal_path) :=
        match personal with
        | None => (base_angles, base_reference_file)
        | Some p => (p, user_reference_path)
        end in
      Ok (Some (mk_resolution base_angles personal_angles
                  (angle_difference personal_angles base_angles)
                  personal_path))
  end.

End Detector.

(** * Specification vocabulary, sample data and the store model *)

(** The closed tolerance band of the specification. *)
Definition within_tolerance (angle personal : Q) : Prop :=
  personal - 10 <= angle /\ angle <= personal + 10.

Definition within_toleranceb (angle personal : Q) : bool :=
  (Qle_bool (personal - 10) angle && Qle_bool angle (personal + 10))%bool.

(** The table of the specification, a row per GOOD/BAD combination
    ([true] is GOOD), in the order neck, back, legs. *)
Definition label_of_spec (neck_good back_good legs_good : bool) : string :=
  match neck_good, back_good, legs_good with
  | true, true, true => "Aligned Posture"
  | true, true, false => "Legs Misalignment"
  | true, false, true => "Back Misalignment"
  | true, false, false => "Back & Legs Misalignment"
  | false, true, true => "Neck Misalignment"
  | false, true, false => "Neck & Legs Misalignment"
  | false, false, true => "Neck & Back Misalignment"
  | false, false, false => "Full Body Misalignment"
  end.

(** ** Reference resolver *)

Definition zero_offsets : by_region R := mk_by_region 0%R 0%R 0%R.

(** What the resolver owes, given what the baseline yields, the condition
    under which the personal reference is unavailable, and its result. *)
Definition resolver_contract
    (base : result (option (by_region R)))
    (personal_unavailable : Prop)
    (out : result (option resolution)) : Prop :=
  (out = Ok None <-> base = Ok None)
  /\ (forall res, out = Ok (Some res) ->
        base = Ok (Some (base_angles res))
        /\ forall r, at_region (angle_offsets res) r
                     = (at_region (personal_angles res) r
                        - at_region (base_angles res) r)%R)
  /\ (forall res, out = Ok (Some res) -> personal_unavailable ->
        personal_angles res = base_angles res
        /\ angle_offsets res = zero_offsets).

(** The three angle fields of a sub-object hold numbers. *)
Definition numeric_angles (candidate : dict) (a : by_region Q) : Prop :=
  dict_get candidate "neck" = Some (JNum (neck a))
  /\ dict_get candidate "back" = Some (JNum (back a))
  /\ dict_get candidate "legs" = Some (JNum (legs a)).

Definition angles_150_100_120 : dict :=
  [("neck", JNum 150); ("back", JNum 100); ("legs", JNum 120)].

Definition payload_reference_angles : json :=
  JDict [("reference_angles", JDict angles_150_100_120)].

Definition payload_text_angle : json :=
  JDict [("neck", JStr "abc"); ("back", JNum 100); ("legs", JNum 120)].

Definition payload_list_name : json :=
  JDict [("keypoints",
          JList [JDict [("name", JList [JNum 1]); ("x", JNum 1); ("y", JNum 2)]])].

(** Both components of the shift are zero (a missing one counts as 0). *)
Definition null_delta (d : delta) : Prop :=
  delta_get d "x" == 0 /\ delta_get d "y" == 0.

Definition null_offsets (offs : offsets) : Prop :=
  Forall (fun item => null_delta (snd item)) offs.

(** [w] is [v], or [v] converted to the same number. *)
Definition same_number (v w : json) : Prop :=
  v = w \/ exists a b, py_float v = Ok a /\ w = JNum b /\ b == a.

Definition same_field (o o' : option json) : Prop :=
  match o, o' with
  | None, None => True
  | Some v, Some w => same_number v w
  | _, _ => False
  end.

Definition same_xy (h h' : dict) : Prop :=
  same_field (dict_get h "x") (dict_get h' "x")
  /\ same_field (dict_get h "y") (dict_get h' "y").

Definition same_position (o o' : option json) : Prop :=
  o = o'
  \/ exists p p', o = Some (JDict p) /\ o' = Some (JDict p') /\ same_xy p p'.

(** Two keypoint entries that differ by a null shift. *)
Definition same_entry (e e' : dict) : Prop :=
  (forall k, String.eqb "x" k = false -> String.eqb "y" k = false ->
             String.eqb "position" k = false -> dict_get e' k = dict_get e k)
  /\ same_xy e e'
  /\ same_position (dict_get e "position") (dict_get e' "position").

(** Two points of a keypoint map with the same confidence and the same
    coordinates. *)
Definition same_point (d d' : dict) : Prop :=
  get d "visible" = get d' "visible"
  /\ stated_confidence d = stated_confidence d'
  /\ same_number (get d "x") (get d' "x")
  /\ same_number (get d "y") (get d' "y").

Definition same_lookup (l l' : keypoints) : Prop :=
  Forall2 (fun item item' => fst item = fst item' /\ same_point (snd item) (snd item'))
          l l'.

Definition same_result {A : Type} (R : A -> A -> Prop) (r r' : result A) : Prop :=
  match r, r' with
  | Ok a, Ok a' => R a a'
  | Raise e, Raise e' => e = e'
  | _, _ => False
  end.

Definition same_coord (c c' : coord) : Prop :=
  cx c == cx c' /\ cy c == cy c'.

(** *** Holders of keypoint containers *)

Definition same_container (o o' : option json) : Prop :=
  match o, o' with
  | None, None => True
  | Some c, Some c' =>
      same_result same_lookup (_normalise_keypoints c) (_normalise_keypoints c')
  | _, _ => False
  end.

(** *** The whole payload *)

Definition touched_keys : list string := "persons" :: "people" :: candidate_keys.

(** No two bindings of the list have equal keys. *)
Fixpoint distinct_keys {A : Type} (l : list (key * A)) : Prop :=
  match l with
  | [] => True
  | (k, _) :: rest => lookup_get rest k = None /\ distinct_keys rest
  end.

(** Two coordinate maps with the same parts at the same places. *)
Definition same_coordinates (m m' : coordinates) : Prop :=
  forall k,
    match lookup_get m k, lookup_get m' k with
    | Some c, Some c' => same_coord c c'
    | None, None => True
    | _, _ => False
    end.

(** Both shifts are present and zero. *)
Definition zero_delta (d : delta) : Prop :=
  exists a b, d = mk_delta (Some a) (Some b) /\ a == 0 /\ b == 0.

(** ** Sample data *)

Definition keypoint (x y conf : Q) : json :=
  JDict [("x", JNum x); ("y", JNum y); ("confidence", JNum conf)].

Definition reference_payload : json :=
  JDict [("keypoints",
          JDict [("left_ear", keypoint 0 10 0.9);
                 ("left_shoulder", keypoint 0 8 0.9);
                 ("left_hip", keypoint 0 4 0.9);
                 ("left_knee", keypoint 3 4 0.9);
                 ("left_ankle", keypoint 3 0 0.9)])].

Definition named_keypoint (name : string) (x y : json) (conf : Q) : json :=
  JDict [("name", JStr name); ("position", JDict [("x", x); ("y", y)]);
         ("score", JNum conf)].

Definition capture_payload : json :=
  JDict [("people",
          JList [JDict [("pose_keypoints_2d",
                         JList [named_keypoint "left_ear" (JNum 1) (JStr "10") 0.2;
                                named_keypoint "right_ear" (JNum 1) (JStr "10") 0.9;
                                named_keypoint "right_shoulder" (JNum 0) (JNum 8) 0.9;
                                named_keypoint "right_hip" (JNum 0) (JNum 4) 0.8;
                                named_keypoint "right_knee" (JNum 3) (JNum 4) 0.9;
                                named_keypoint "right_ankle" (JNum 3) (JNum 0) 1])]])].

Definition sample_files : filesystem :=
  fun filepath =>
    if String.eqb filepath "trainGBM/reference_posture.json" then Parsed reference_payload
    else if String.eqb filepath "user_profiles/u1/reference_posture.json"
         then Parsed reference_payload
    else if String.eqb filepath "user_profiles/u2/reference_posture.json" then Corrupt
    else Absent.

Definition reference_coordinates : coordinates :=
  [(KStr "left_ear", mk_coord 0 10); (KStr "left_shoulder", mk_coord 0 8);
   (KStr "left_hip", mk_coord 0 4); (KStr "left_knee", mk_coord 3 4);
   (KStr "left_ankle", mk_coord 3 0)].

Definition reference_angles : by_region R :=
  mk_by_region
    (calculate_angle (mk_coord 0 4) (mk_coord 0 8) (mk_coord 0 10))
    (calculate_angle (mk_coord 3 4) (mk_coord 0 4) (mk_coord 0 8))
    (calculate_angle (mk_coord 3 0) (mk_coord 3 4) (mk_coord 0 4)).

Definition sample_resolution : resolution :=
  mk_resolution reference_angles reference_angles
                (angle_difference reference_angles reference_angles)
                "user_profiles/u1/reference_posture.json".

Definition capture_lookup : keypoints :=
  Eval cbv in
    match _build_keypoints_lookup capture_payload with
    | Ok lookup => lookup
    | Raise _ => []
    end.

(** The capture with the right hip seen at confidence 0.5. *)
Definition low_hip_lookup : keypoints :=
  lookup_set capture_lookup (KStr "right_hip")
             [("x", JNum 0); ("y", JNum 4); ("confidence", JNum 0.5);
              ("visible", JBool true)].

Definition fallback_resolution : resolution :=
  mk_resolution reference_angles reference_angles
                (angle_difference reference_angles reference_angles)
                "trainGBM/reference_posture.json".

(** * The re-projector on a store

    Python objects live in a store: a list or a dict is a cell, and a
    value is a scalar or a reference to a cell.  The re-projector copies
    the payload with [copy.deepcopy] and then writes into the cells of the
    copy. *)

Module Store.

Inductive val : Type :=
| VNull
| VBool (b : bool)
| VNum (q : Q)
| VStr (s : string)
| VRef (l : nat).

Inductive obj : Type :=
| OList (items : list val)
| ODict (items : list (string * val)).

(** The cell of reference [l] is the [l]-th of the list. *)
Definition heap := list obj.

(** Computations that read and write the store and may raise. *)
Definition M (A : Type) : Type := heap -> result (A * heap).

Definition ret {A : Type} (a : A) : M A := fun h => Ok (a, h).

Definition bindM {A B : Type} (m : M A) (k : A -> M B) : M B :=
  fun h =>
    match m h with
    | Ok (a, h') => k a h'
    | Raise e => Raise e
    end.

Notation "'run' x <- m ; k" := (bindM m (fun x => k))
  (at level 10, x name, m at level 100, k at level 200).

Definition raiseM {A : Type} (e : exn) : M A := fun _ => Raise e.

Definition get_heap : M heap := fun h => Ok (h, h).

Definition read (l : nat) : M (option obj) := fun h => Ok (nth_error h l, h).

Fixpoint update (h : heap) (l : nat) (o : obj) : heap :=
  match h, l with
  | [], _ => []
  | _ :: rest, O => o :: rest
  | x :: rest, S l' => x :: update rest l' o
  end.

Definition write (l : nat) (o : obj) : M unit := fun h => Ok (tt, update h l o).

Definition alloc (o : obj) : M nat := fun h => Ok (List.length h, (h ++ [o])%list).

Fixpoint for_each {A : Type} (f : A -> M unit) (xs : list A) : M unit :=
  match xs with
  | [] => ret tt
  | x :: rest => run _ <- f x; for_each f rest
  end.

Fixpoint map_each {A B : Type} (f : A -> M B) (xs : list A) : M (list B) :=
  match xs with
  | [] => ret []
  | x :: rest =>
      run y <- f x;
      run ys <- map_each f rest;
      ret (y :: ys)
  end.

(** ** Python operations on values *)

Definition get (kvs : list (string * val)) (k : string) : val :=
  match dict_get kvs k with
  | Some v => v
  | None => VNull
  end.

Definition is_None (v : val) : bool :=
  match v with VNull => true | _ => false end.

Definition py_float (v : val) : result Q :=
  match v with
  | VNum q => Ok q
  | VBool b => Ok (if b then 1 else 0)
  | VStr s =>
      match PyFloat.of_string s with
      | Some q => Ok q
      | None => Raise ValueError
      end
  | VNull | VRef _ => Raise TypeError
  end.

Definition key_of (v : val) : result key :=
  match v with
  | VNull => Ok KNone
  | VBool b => Ok (KNum (if b then 1 else 0))
  | VNum q => Ok (KNum q)
  | VStr s => Ok (KStr s)
  | VRef _ => Raise TypeError
  end.

Definition truthy (h : heap) (v : val) : bool :=
  match v with
  | VNull => false
  | VBool b => b
  | VNum q => negb (Qeq_bool q 0)
  | VStr s => negb (String.eqb s "")
  | VRef l =>
      match nth_error h l with
      | Some (OList []) | Some (ODict []) => false
      | _ => true
      end
  end.

Definition py_or (h : heap) (a b : val) : val := if truthy h a then a else b.

(** [isinstance(v, dict)], with the cell and its items. *)
Definition as_dict (v : val) : M (option (nat * list (string * val))) :=
  fun h =>
    match v with
    | VRef l =>
        match nth_error h l with
        | Some (ODict kvs) => Ok (Some (l, kvs), h)
        | _ => Ok (None, h)
        end
    | _ => Ok (None, h)
    end.

(** [isinstance(v, list)], with the cell and its items. *)
Definition as_list (v : val) : M (option (nat * list val)) :=
  fun h =>
    match v with
    | VRef l =>
        match nth_error h l with
        | Some (OList items) => Ok (Some (l, items), h)
        | _ => Ok (None, h)
        end
    | _ => Ok (None, h)
    end.

(** ** [copy.deepcopy]

    The copy of a value whose cells form a tree, as [json.load] builds
    them; [fuel] bounds the nesting, as the recursion limit of the
    interpreter does. *)
Fixpoint deepcopy (fuel : nat) (v : val) : M val :=
  match v with
  | VRef l =>
      match fuel with
      | O => raiseM RecursionError
      | S fuel' =>
          run o <- read l;
          match o with
          | Some (OList items) =>
              run items' <- map_each (deepcopy fuel') items;
              run l' <- alloc (OList items');
              ret (VRef l')
          | Some (ODict items) =>
              run items' <-
                map_each (fun item =>
                            run v' <- deepcopy fuel' (snd item);
                            ret (fst item, v'))
                         items;
              run l' <- alloc (ODict items');
              ret (VRef l')
          | None => ret v
          end
      end
  | _ => ret v
  end.

(** ** The re-projector *)

Definition shift_axis (d : delta) (holder : nat) (axis : string) : M unit :=
  run o <- read holder;
  match o with
  | Some (ODict kvs) =>
      match dict_get kvs axis with
      | Some v =>
          if is_None v then ret tt
          else
            match py_float v with
            | Ok q =>
                write holder
                      (ODict (dict_set kvs axis (VNum (q + delta_get d axis))))
            | Raise _ => ret tt
            end
      | None => ret tt
      end
  | _ => ret tt
  end.

Definition shift_xy (d : delta) (holder : nat) : M unit :=
  run _ <- shift_axis d holder "x";
  shift_axis d holder "y".

Definition _apply_delta (keypoint_offsets : offsets) (entry : val) (name : key)
  : M unit :=
  match lookup_get keypoint_offsets name with
  | Some d =>
      if no_delta (Some d) then ret tt
      else
        run e <- as_dict entry;
        match e with
        | Some (l, _) =>
            run _ <- shift_xy d l;
            run e' <- as_dict entry;
            match e' with
            | Some (_, kvs) =>
                run position <- as_dict (get kvs "position");
                match position with
                | Some (lp, pkvs) =>
                    if is_empty pkvs then ret tt else shift_xy d lp
                | None => ret tt
                end
            | None => ret tt
            end
        | None => ret tt
        end
  | None => ret tt
  end.

Definition entry_name (h : heap) (kvs : list (string * val)) : val :=
  py_or h (py_or h (py_or h (get kvs "name") (get kvs "part_name"))
                 (get kvs "part"))
        (get kvs "id").

Definition process_entry (keypoint_offsets : offsets) (entry : val) : M unit :=
  run e <- as_dict entry;
  match e with
  | Some (_, kvs) =>
      run h <- get_heap;
      let name := entry_name h kvs in
      if truthy h name then
        match key_of name with
        | Ok k => _apply_delta keypoint_offsets entry k
        | Raise exc => raiseM exc
        end
      else ret tt
  | None => ret tt
  end.

Definition process_item (keypoint_offsets : offsets) (container : nat)
    (item : string * val) : M unit :=
  let '(name, entry) := item in
  run e <- as_dict entry;
  match e with
  | Some _ => _apply_delta keypoint_offsets entry (KStr name)
  | None =>
      run xs <- as_list entry;
      match xs with
      | Some (_, e0 :: e1 :: rest) =>
          match lookup_get keypoint_offsets (KStr name) with
          | Some d =>
              if no_delta (Some d) then ret tt
              else
                run new_entry <- alloc (OList (e0 :: e1 :: rest));
                match py_float e0 with
                | Ok a =>
                    let x' := VNum (a + delta_get d "x") in
                    run _ <- write new_entry (OList (x' :: e1 :: rest));
                    match py_float e1 with
                    | Ok b =>
                        let y' := VNum (b + delta_get d "y") in
                        run _ <- write new_entry (OList (x' :: y' :: rest));
                        run c <- read container;
                        match c with
                        | Some (ODict kvs) =>
                            write container
                                  (ODict (dict_set kvs name (VRef new_entry)))
                        | _ => ret tt
                        end
                    | Raise _ => ret tt
                    end
                | Raise _ => ret tt
                end
          | None => ret tt
          end
      | _ => ret tt
      end
  end.

Definition _process_keypoints (keypoint_offsets : offsets) (container : val)
  : M unit :=
  run xs <- as_list container;
  match xs with
  | Some (_, entries) => for_each (process_entry keypoint_offsets) entries
  | None =>
      run d <- as_dict container;
      match d with
      | Some (l, items) => for_each (process_item keypoint_offsets l) items
      | None => ret tt
      end
  end.

Definition process_candidate (keypoint_offsets : offsets) (holder : nat)
    (candidate_key : string) : M unit :=
  run o <- read holder;
  match o with
  | Some (ODict kvs) =>
      match dict_get kvs candidate_key with
      | Some container => _process_keypoints keypoint_offsets container
      | None => ret tt
      end
  | _ => ret tt
  end.

Definition process_candidates (keypoint_offsets : offsets) (holder : nat)
  : M unit :=
  for_each (process_candidate keypoint_offsets holder) candidate_keys.

Definition process_person (keypoint_offsets : offsets) (person : val) : M unit :=
  run p <- as_dict person;
  match p with
  | Some (l, _) => process_candidates keypoint_offsets l
  | None => ret tt
  end.

Definition apply_keypoint_offsets_to_payload (fuel : nat) (payload : val)
    (keypoint_offsets : offsets) : M val :=
  run p <- as_dict payload;
  match p with
  | None => ret payload
  | Some _ =>
      run adjusted <- deepcopy fuel payload;
      if is_empty keypoint_offsets then ret adjusted
      else
        run a <- as_dict adjusted;
        match a with
        | Some (la, kvs) =>
            run h <- get_heap;
            let persons := py_or h (get kvs "persons") (get kvs "people") in
            run ps <- as_list persons;
            run _ <-
              match ps with
              | Some (_, items) => for_each (process_person keypoint_offsets) items
              | None => ret tt
              end;
            run _ <- process_candidates keypoint_offsets la;
            ret adjusted
        | None => ret adjusted
        end
  end.

(** ** Payloads in the store *)

(** A tree of cells: a payload together with the places of its lists and
    dicts. *)
Inductive node : Type :=
| NAtom (v : val)
| NList (l : nat) (items : list node)
| NDict (l : nat) (items : list (string * node)).

Definition val_of (n : node) : val :=
  match n with
  | NAtom v => v
  | NList l _ | NDict l _ => VRef l
  end.

Definition map_values {A B : Type} (f : A -> B) (items : list (string * A))
  : list (string * B) :=
  map (fun item => (fst item, f (snd item))) items.

Definition json_of_val (v : val) : json :=
  match v with
  | VNull | VRef _ => JNull
  | VBool b => JBool b
  | VNum q => JNum q
  | VStr s => JStr s
  end.

Definition val_of_json (j : json) : val :=
  match j with
  | JBool b => VBool b
  | JNum q => VNum q
  | JStr s => VStr s
  | _ => VNull
  end.

Fixpoint erase (n : node) : json :=
  match n with
  | NAtom v => json_of_val v
  | NList _ items => JList (map erase items)
  | NDict _ items => JDict (map_values erase items)
  end.

Fixpoint locs (n : node) : list nat :=
  match n with
  | NAtom _ => []
  | NList l items => l :: flat_map locs items
  | NDict l items => l :: flat_map (fun item => locs (snd item)) items
  end.

Definition is_ref (v : val) : bool :=
  match v with VRef _ => true | _ => false end.

(** The cells of the store hold the tree. *)
Fixpoint in_heap (h : heap) (n : node) : Prop :=
  match n with
  | NAtom v => is_ref v = false
  | NList l items =>
      nth_error h l = Some (OList (map val_of items))
      /\ (fix all (ns : list node) : Prop :=
            match ns with
            | [] => True
            | n' :: rest => in_heap h n' /\ all rest
            end) items
  | NDict l items =>
      nth_error h l = Some (ODict (map_values val_of items))
      /\ (fix all (ns : list (string * node)) : Prop :=
            match ns with
            | [] => True
            | item :: rest => in_heap h (snd item) /\ all rest
            end) items
  end.

Fixpoint depth (n : node) : nat :=
  match n with
  | NAtom _ => O
  | NList _ items => S (fold_right (fun n' d => Nat.max (depth n') d) O items)
  | NDict _ items =>
      S (fold_right (fun item d => Nat.max (depth (snd item)) d) O items)
  end.

(** Value [v] of store [h] is payload [j], held in cells of its own. *)
Definition represents (h : heap) (v : val) (j : json) : Prop :=
  exists n, in_heap h n /\ NoDup (locs n) /\ val_of n = v /\ erase n = j.

(** What [json.load] builds: the cells of the children, then the cell of
    the list or dict. *)
Fixpoint load (j : json) (h : heap) : val * heap :=
  match j with
  | JList xs =>
      let '(vs, h') :=
        (fix load_all (xs : list json) (h : heap) : list val * heap :=
           match xs with
           | [] => ([], h)
           | x :: rest =>
               let '(v, h1) := load x h in
               let '(vs, h2) := load_all rest h1 in
               (v :: vs, h2)
           end) xs h in
      (VRef (List.length h'), (h' ++ [OList vs])%list)
  | JDict kvs =>
      let '(vs, h') :=
        (fix load_all (kvs : list (string * json)) (h : heap)
           : list (string * val) * heap :=
           match kvs with
           | [] => ([], h)
           | (k, x) :: rest =>
               let '(v, h1) := load x h in
               let '(vs, h2) := load_all rest h1 in
               ((k, v) :: vs, h2)
           end) kvs h in
      (VRef (List.length h'), (h' ++ [ODict vs])%list)
  | _ => (val_of_json j, h)
  end.

(** Reading a payload back from the store. *)
Fixpoint reify (fuel : nat) (h : heap) (v : val) : option json :=
  match v with
  | VRef l =>
      match fuel with
      | O => None
      | S fuel' =>
          match nth_error h l with
          | Some (OList items) =>
              option_map JList
                ((fix all (vs : list val) : option (list json) :=
                    match vs with
                    | [] => Some []
                    | v' :: rest =>
                        match reify fuel' h v', all rest with
                        | Some j, Some js => Some (j :: js)
                        | _, _ => None
                        end
                    end) items)
          | Some (ODict items) =>
              option_map JDict
                ((fix all (kvs : list (string * val)) : option dict :=
                    match kvs with
                    | [] => Some []
                    | (k, v') :: rest =>
                        match reify fuel' h v', all rest with
                        | Some j, Some js => Some ((k, j) :: js)
                        | _, _ => None
                        end
                    end) items)
          | None => None
          end
      end
  | _ => Some (json_of_val v)
  end.

End Store.

(** ** Cells *)

Abbreviation heap := Store.heap (only parsing).
Abbreviation node := Store.node (only parsing).
Abbreviation val := Store.val (only parsing).
Abbreviation obj := Store.obj (only parsing).
Abbreviation NAtom := Store.NAtom (only parsing).
Abbreviation NList := Store.NList (only parsing).
Abbreviation NDict := Store.NDict (only parsing).
Abbreviation VNull := Store.VNull (only parsing).
Abbreviation VBool := Store.VBool (only parsing).
Abbreviation VNum := Store.VNum (only parsing).
Abbreviation VStr := Store.VStr (only parsing).
Abbreviation VRef := Store.VRef (only parsing).
Abbreviation OList := Store.OList (only parsing).
Abbreviation ODict := Store.ODict (only parsing).
Abbreviation val_of := Store.val_of (only parsing).
Abbreviation erase := Store.erase (only parsing).
Abbreviation locs := Store.locs (only parsing).
Abbreviation in_heap := Store.in_heap (only parsing).
Abbreviation update := Store.update (only parsing).
Abbreviation map_values := Store.map_values (only parsing).

(** The child under a key, [None] of Python when there is none. *)
Definition child (items : list (string * node)) (k : string) : node :=
  match dict_get items k with
  | Some c => c
  | None => NAtom VNull
  end.

(** Store [h'] holds [n'] where [h] held [n]: the tree keeps its root, its
    cells are cells of [n] or new ones, and the cells of [h] outside [n]
    are as they were. *)
Definition updates (h : heap) (n : node) (h' : heap) (n' : node) : Prop :=
  in_heap h' n'
  /\ NoDup (locs n')
  /\ val_of n' = val_of n
  /\ (forall l, In l (locs n') -> In l (locs n) \/ (List.length h <= l)%nat)
  /\ (forall l, (l < List.length h)%nat -> ~ In l (locs n) ->
                nth_error h' l = nth_error h l)
  /\ (List.length h <= List.length h')%nat.

(** What an operation on the cells of [n] owes to a function on payloads. *)
Definition refines (op : Store.M unit) (h : heap) (n : node) (r : result json)
  : Prop :=
  match r with
  | Ok j' => exists h' n', op h = Ok (tt, h') /\ updates h n h' n' /\ erase n' = j'
  | Raise e => op h = Raise e
  end.

Definition or_node (a b : node) : node := if truthy (erase a) then a else b.

Definition name_node (items : list (string * node)) : node :=
  or_node (or_node (or_node (child items "name") (child items "part_name"))
                   (child items "part"))
          (child items "id").

(** Every dict of the payload has distinct keys, as [json.load] builds
    them. *)
Fixpoint distinct_json_keys (j : json) : Prop :=
  match j with
  | JList xs =>
      (fix all (xs : list json) : Prop :=
         match xs with
         | [] => True
         | x :: rest => distinct_json_keys x /\ all rest
         end) xs
  | JDict kvs =>
      NoDup (map fst kvs)
      /\ (fix all (kvs : list (string * json)) : Prop :=
            match kvs with
            | [] => True
            | item :: rest => distinct_json_keys (snd item) /\ all rest
            end) kvs
  | _ => True
  end.

(** Store [h'] extends [h] with a copy [c'] of [c] in cells of its own. *)
Definition copied (h h' : heap) (c c' : node) : Prop :=
  in_heap h' c'
  /\ NoDup (locs c')
  /\ erase c' = erase c
  /\ (forall l, In l (locs c') -> (List.length h <= l)%nat)
  /\ (forall x, (x < List.length h)%nat -> nth_error h' x = nth_error h x)
  /\ (List.length h <= List.length h')%nat.

(** ** The whole re-projection *)

Definition persons_node (items : list (string * node)) : node :=
  or_node (child items "persons") (child items "people").

Definition persons_key_of (items : list (string * node)) : string :=
  if truthy (erase (child items "persons")) then "persons" else "people".

(** The persons stage on the store. *)
Definition persons_stage (offs : offsets) (items : list (string * node))
  : Store.M unit :=
  Store.bindM (Store.as_list (val_of (persons_node items)))
    (fun ps => match ps with
               | Some (_, vs) => Store.for_each (Store.process_person offs) vs
               | None => Store.ret tt
               end).

Definition half_sequence_payload : json :=
  JDict [("keypoints", JDict [("nose", JList [JNum 1; JStr "abc"; JNum 0.9])])].

Definition nose_offsets : offsets := [(KStr "nose", mk_delta (Some 5) (Some 5))].

(** A payload in three cells of a store. *)
Definition sequence_payload : json :=
  JDict [("keypoints", JDict [("nose", JList [JNum 1; JStr "2"; JNum 0.9])])].

Definition sequence_node : node :=
  NDict 2 [("keypoints",
            NDict 1 [("nose", NList 0 [NAtom (VNum 1); NAtom (VStr "2");
                                       NAtom (VNum 0.9)])])].

Definition sequence_store : heap :=
  Eval cbv in snd (Store.load sequence_payload []).

(** * The rest of the engine

    The functions of the two files around the calibration core: the
    paths of a user profile, the saving of a reference posture, the
    prediction of the detector, and the samples that the preparer and the
    watcher write. *)

(** ** Paths *)

Definition starts_with_slash (s : string) : bool :=
  match s with
  | String c _ => Ascii.eqb c "/"
  | EmptyString => false
  end.

Fixpoint ends_with_slash (s : string) : bool :=
  match s with
  | EmptyString => false
  | String c EmptyString => Ascii.eqb c "/"
  | String _ rest => ends_with_slash rest
  end.

(** [os.path.join(a, b)] of posixpath. *)
Definition path_join (a b : string) : string :=
  if starts_with_slash b then b
  else if (String.eqb a "" || ends_with_slash a)%bool then a ++ b
  else a ++ "/" ++ b.

Definition RAW_TRAIN_FOLDER : string := "trainGBM".
Definition USER_PROFILES_ROOT : string := "user_profiles".
Definition BASE_REFERENCE_FILE : string :=
  path_join RAW_TRAIN_FOLDER "reference_posture.json".
Definition MODEL_FILENAME : string := "lgbm_personalized_model.pkl".
Definition ENCODER_FILENAME : string := "label_encoder_personalized.pkl".
Definition PROFILE_MANIFEST : string := "profile.json".
Definition USER_REFERENCE_FILENAME : string := "reference_posture.json".
Definition USER_ADJUSTED_SUBDIR : string := "train_adjusted".
Definition USER_PREDICT_SUBDIR : string := "predictBGM".

Record UserProfile : Set :=
  mk_UserProfile { user_id : string;
                   root : string;
                   reference_path : string;
                   adjusted_folder : string;
                   model_path : string;
                   encoder_path : string;
                   predict_folder : string;
                   metadata_path : string }.

Definition build_user_profile (user_id : string) : UserProfile :=
  let user_root := path_join USER_PROFILES_ROOT user_id in
  mk_UserProfile user_id
                 user_root
                 (path_join user_root USER_REFERENCE_FILENAME)
                 (path_join user_root USER_ADJUSTED_SUBDIR)
                 (path_join user_root MODEL_FILENAME)
                 (path_join user_root ENCODER_FILENAME)
                 (path_join user_root USER_PREDICT_SUBDIR)
                 (path_join user_root PROFILE_MANIFEST).

(** ** Files that are written *)

(** [with open(path, 'w') as f: json.dump(payload, f)], read back by
    [json.load] as the same tree. *)
Definition write_json (fs : filesystem) (filepath : string) (payload : json)
  : filesystem :=
  fun p => if String.eqb p filepath then Parsed payload else fs p.

(** The dict [{'neck': .., 'back': .., 'legs': ..}] of three floats. *)
Definition angles_object (a : by_region Q) : json :=
  JDict [("neck", JNum (neck a)); ("back", JNum (back a)); ("legs", JNum (legs a))].

(** [offsets.get(axis, 0.0)], for a dict of offsets that may lack an axis. *)
Definition offsets_get (offs : by_region (option Q)) (r : region) : Q :=
  match at_region offs r with
  | Some q => q
  | None => 0
  end.

(** The three readings of the clock in [append_adjusted_sample_to_training]. *)
Record clock : Set :=
  mk_clock { captured_at : string; written_at : string; file_stamp : string }.

(** [append_adjusted_sample_to_training]: the capture re-projected into
    the space of the baseline, written to the raw training folder.
    [writable] tells whether [open(destination, 'w')] succeeds, and
    [abspath] is [os.path.abspath]. *)
Definition append_adjusted_sample_to_training
    (writable : string -> bool) (abspath : string -> string) (now : clock)
    (fs : filesystem) (user_profile : UserProfile) (source_file : string)
    (current_angles : by_region Q) (offs : by_region (option Q))
    (original_angles : option (by_region Q)) : string * filesystem :=
  let base_aligned_angles :=
    tabulate (fun r => at_region current_angles r - offsets_get offs r) in
  let source_details :=
    ([("user_id", JStr (user_id user_profile));
      ("source_file", JStr (abspath source_file));
      ("captured_at", JStr (captured_at now));
      ("offsets_applied", angles_object (tabulate (offsets_get offs)))]
     ++ match original_angles with
        | Some o => [("user_space_angles", angles_object o)]
        | None => []
        end
     ++ [("base_space_angles", angles_object base_aligned_angles)])%list in
  let data :=
    JDict [("timestamp", JStr (written_at now));
           ("angles", angles_object base_aligned_angles);
           ("metadata", JDict source_details)] in
  let filename := "aug_" ++ user_id user_profile ++ "_" ++ file_stamp now ++ ".json" in
  let destination := path_join RAW_TRAIN_FOLDER filename in
  if writable destination then (destination, write_json fs destination data)
  else ("", fs).

(** Lines 633-640 of [prepare_adjusted_training_data]: the payload that
    is written to the adjusted folder. *)
Definition augmented_payload (adjusted_payload personalization_block : json) : json :=
  match adjusted_payload with
  | JDict a => JDict (dict_set a "personalization_adjustment" personalization_block)
  | _ => JDict [("personalization_adjustment", personalization_block);
                ("raw_payload", adjusted_payload)]
  end.

(** ** The manifest of a user profile *)

Definition load_user_metadata (fs : filesystem) (user_profile : UserProfile)
  : option json :=
  if negb (path_exists fs (metadata_path user_profile)) then None
  else load_json fs (metadata_path user_profile).

Definition save_user_metadata (fs : filesystem) (user_profile : UserProfile)
    (metadata : json) : filesystem :=
  write_json fs (metadata_path user_profile) metadata.

(** ** The detector of the Android application *)

Module PersonalizedPostureDetector.

(** [model.predict] of the classifier and [inverse_transform] of the
    label encoder are functions that may raise. *)
Definition classifier := by_region Q -> result Z.
Definition label_encoder := Z -> result string.

(** The attributes of [self]; [personal_angles] is a dict that may lack
    an axis when it was read from a profile manifest. *)
Record detector : Type :=
  mk_detector { assets_dir : string;
                internal_dir : string;
                model : option classifier;
                encoder : option label_encoder;
                personal_angles : option (by_region (option Q)) }.

Definition base_reference_file (self : detector) : string :=
  path_join (path_join (assets_dir self) "lightGBM") "reference_posture.json".

Definition user_profiles_root (self : detector) : string :=
  path_join (internal_dir self) "user_profiles".

Definition get_user_profile_path (self : detector) (user_id : string) : string :=
  path_join (user_profiles_root self) user_id.

Definition reference_path_of (self : detector) (user_id : string) : string :=
  path_join (get_user_profile_path self user_id) "reference_posture.json".

(** [save_reference_posture]: [True] and the file written, or [False]
    when the file cannot be opened for writing. *)
Definition save_reference_posture (writable : string -> bool) (now : string)
    (self : detector) (fs : filesystem) (user_id : string) (angles_dict : json)
  : bool * filesystem :=
  let user_path := get_user_profile_path self user_id in
  let reference_path := path_join user_path "reference_posture.json" in
  let reference_data :=
    JDict [("angles", angles_dict); ("timestamp", JStr now);
           ("user_id", JStr user_id)] in
  if writable reference_path
  then (true, write_json fs reference_path reference_data)
  else (false, fs).

(** [d[k]] *)
Definition subscript {A : Type} (d : list (string * A)) (k : string) : result A :=
  match dict_get d k with
  | Some v => Ok v
  | None => Raise KeyError
  end.

(** [self.personal_angles[axis]] *)
Definition personal_axis (personal : by_region (option Q)) (r : region) : result Q :=
  match at_region personal r with
  | Some q => Ok q
  | None => Raise KeyError
  end.

(** [int(x)] of a float: truncation towards zero. *)
Definition py_int (x : Q) : Z := Z.quot (Qnum x) (Zpos (Qden x)).

Record prediction : Set :=
  mk_prediction { ml_prediction : string;
                  manual_label : string;
                  score : Z;
                  suggestions : list string;
                  angles : by_region Q;
                  details : list analysis_row }.

Definition predict (self : detector) (angles_dict : dict) : option prediction :=
  try_except
    (match model self, encoder self, personal_angles self with
     | Some model, Some encoder, Some personal =>
         do n <- (do v <- subscript angles_dict "neck"; py_float v);
         do b <- (do v <- subscript angles_dict "back"; py_float v);
         do l <- (do v <- subscript angles_dict "legs"; py_float v);
         let current_angles := mk_by_region n b l in
         do pn <- personal_axis personal Neck;
         do pb <- personal_axis personal Back;
         do pl <- personal_axis personal Legs;
         let feature_vector := mk_by_region (n - pn) (b - pb) (l - pl) in
         do prediction_encoded <- model feature_vector;
         do prediction_label <- encoder prediction_encoded;
         let '(mk_summary manual_label manual_score rows) :=
           run_manual_posture_check current_angles (mk_by_region pn pb pl) in
         let suggestions :=
           map row_suggestion
               (filter (fun detail => negb (String.eqb (row_status detail) "GOOD"))
                       rows) in
         Ok (Some (mk_prediction prediction_label manual_label (py_int manual_score)
                                 suggestions current_angles rows))
     | _, _, _ => Ok None
     end)
    None.

End PersonalizedPostureDetector.

(** ** Standalone functions of the Chaquopy interface

    [_detector] is the detector of the module, or [None] before
    [initialize]. *)

Definition save_reference_posture (writable : string -> bool) (now : string)
    (_detector : option PersonalizedPostureDetector.detector) (fs : filesystem)
    (user_id : string) (neck_angle back_angle legs_angle : json)
  : bool * filesystem :=
  match _detector with
  | None => (false, fs)
  | Some detector =>
      let angles :=
        JDict [("neck", neck_angle); ("back", back_angle); ("legs", legs_angle)] in
      PersonalizedPostureDetector.save_reference_posture
        writable now detector fs user_id angles
  end.

(** ** Vocabulary of the further properties *)

(** A user identifier that [os.path.join] appends as it stands. *)
Definition plain_id (u : string) : bool :=
  (negb (String.eqb u "") && negb (starts_with_slash u)
   && negb (ends_with_slash u))%bool.

(** What the normaliser makes of the value found under a label of a
    dict-shaped keypoint container. *)
Definition normalised_value (payload : json) : option dict :=
  match payload with
  | JDict d => Some d
  | JList (x_val :: y_val :: conf :: _) =>
      Some [("x", x_val); ("y", y_val); ("confidence", conf)]
  | _ => None
  end.

(** A part name that passes the test [if not name: continue]. *)
Definition named (k : key) : Prop :=
  match k with
  | KNone => False
  | KNum q => ~ q == 0
  | KStr s => s <> ""
  end.

Definition translate (t c : coord) : coord :=
  mk_coord (cx c + cx t) (cy c + cy t).

(** ** Sample data of the further properties *)

(** A list-shaped container with two entries for the nose and an entry
    that is no dict. *)
Definition nose_twice : json :=
  JList [JDict [("name", JStr "nose"); ("x", JNum 1); ("y", JNum 2);
                ("score", JNum 0.9)];
         JNum 3;
         JDict [("part", JStr "nose"); ("position", JDict [("x", JNum 5)])]].

(** A dict-shaped container: a keypoint dict, a triple, a pair and a
    scalar. *)
Definition mixed_container : dict :=
  [("nose", JDict [("x", JNum 1); ("y", JNum 2)]);
   ("left_ear", JList [JNum 3; JNum 4; JNum 0.5; JNum 7]);
   ("left_eye", JList [JNum 3; JNum 4]);
   ("count", JNum 17)].

(** Two keypoint maps of a baseline and of a user, and an entry at the
    place of the baseline's nose. *)
Definition base_points : keypoints :=
  [(KStr "nose", [("x", JNum 10); ("y", JStr "20")]);
   (KStr "left_ear", [("x", JStr "left"); ("y", JNum 4)]);
   (KStr "left_hip", [("x", JNum 1); ("y", JNum 2)])].

Definition base_coordinates : coordinates :=
  [(KStr "nose", mk_coord 10 20); (KStr "left_hip", mk_coord 1 2)].

Definition personal_coordinates : coordinates :=
  [(KStr "nose", mk_coord 13 18); (KStr "right_hip", mk_coord 5 5)].

Definition nose_entry : dict :=
  [("name", JStr "nose"); ("x", JNum 10); ("y", JStr "20"); ("score", JNum 0.9)].

(** A reference posture as the Android application saves it: angles and
    no keypoints. *)
Definition angles_only_reference : json :=
  JDict [("angles", angles_object (mk_by_region 150 100 120));
         ("timestamp", JStr "2025-01-01T00:00:00");
         ("user_id", JStr "u3")].

Definition angles_only_files : filesystem :=
  fun filepath =>
    if String.eqb filepath "user_profiles/u3/reference_posture.json"
    then Parsed angles_only_reference
    else sample_files filepath.

(** The fields of a payload that the angle extractors read. *)
Definition read_keys : list string :=
  ["adjusted_angles"; "personalized_angles"; "angles"; "reference_angles";
   "neck"; "back"; "legs";
   "persons"; "people"; "keypoints"; "pose_keypoints"; "pose_keypoints_2d"].

Definition sample_clock : clock :=
  mk_clock "2025-01-01T10:00:00+00:00" "2025-01-01T10:00:01+00:00" "20250101T100001Z".

(** A disk on which every file can be written. *)
Definition any_path (filepath : string) : bool := true.

Definition sample_detector : PersonalizedPostureDetector.detector :=
  PersonalizedPostureDetector.mk_detector
    "/assets" "/data/app"
    (Some (fun features => Ok 0%Z))
    (Some (fun code => Ok "Aligned Posture"))
    (Some (mk_by_region (Some 150) (Some 100) (Some 120))).

Definition sample_angles : dict :=
  [("neck", JNum 135); ("back", JStr "100"); ("legs", JNum 120)].

(** A detector whose personal angles, read from a manifest, lack the
    legs. *)
Definition partial_detector : PersonalizedPostureDetector.detector :=
  PersonalizedPostureDetector.mk_detector
    "/assets" "/data/app"
    (Some (fun features => Ok 0%Z))
    (Some (fun code => Ok "Aligned Posture"))
    (Some (mk_by_region (Some 150) (Some 100) None)).

(** * Properties *)

(** Linear arithmetic on rationals and on reals. *)
Ltac qlra := Lqa.lra.
Ltac rlra := Lra.lra.

(** ** Rule classifier *)

Lemma Qltb_lt (x y : Q) : Qltb x y = true <-> x < y.
Proof.
  unfold Qltb. rewrite negb_true_iff.
  split; intro H.
  - apply Qnot_le_lt. intro Hle. apply Qle_bool_iff in Hle. congruence.
  - destruct (Qle_bool y x) eqn:E; [|reflexivity].
    apply Qle_bool_iff in E. exfalso. apply (Qlt_not_le _ _ H E).
Qed.

Lemma Qltb_ge (x y : Q) : Qltb x y = false <-> y <= x.
Proof.
  unfold Qltb. rewrite negb_false_iff. apply Qle_bool_iff.
Qed.

Lemma within_toleranceb_iff (angle personal : Q) :
  within_toleranceb angle personal = true <-> within_tolerance angle personal.
Proof.
  unfold within_toleranceb, within_tolerance.
  rewrite andb_true_iff, !Qle_bool_iff. reflexivity.
Qed.

Lemma state_of_manual_rule (current personal : by_region Q) (r : region) :
  state_of (at_region current r) (at_region (build_manual_rules personal) r)
  = if within_toleranceb (at_region current r) (at_region personal r)
    then "GOOD" else "BAD".
Proof. destruct r; reflexivity. Qed.

Lemma classify_by_states (angles : by_region Q) (rules : by_region rule) :
  classify_posture_state angles rules
  = label_of_spec (String.eqb (state_of (neck angles) (neck rules)) "GOOD")
                  (String.eqb (state_of (back angles) (back rules)) "GOOD")
                  (String.eqb (state_of (legs angles) (legs rules)) "GOOD").
Proof.
  unfold classify_posture_state, posture_state, state_of.
  destruct (Qle_bool (rule_min (neck rules)) (neck angles)
            && Qle_bool (neck angles) (rule_max (neck rules)))%bool;
  destruct (Qle_bool (rule_min (back rules)) (back angles)
            && Qle_bool (back angles) (rule_max (back rules)))%bool;
  destruct (Qle_bool (rule_min (legs rules)) (legs angles)
            && Qle_bool (legs angles) (rule_max (legs rules)))%bool;
  reflexivity.
Qed.

(** C1. With the rules built from the personal angles, an axis is GOOD
    exactly when its angle lies in the closed band of ten degrees around
    the personal angle and BAD otherwise, the label is the row of the
    eight-entry table for the three axis states, and the summary of the
    manual check carries that label; with personal angles 150, 100, 120
    and observed angles 135, 100, 120 the label is "Neck Misalignment"
    and the neck row has status "INCORRECT (Too Bent/Forward)". *)
Theorem rule_classifier_tolerance_band :
  (forall (current personal : by_region Q),
      let rules := build_manual_rules personal in
      (forall r,
          (state_of (at_region current r) (at_region rules r) = "GOOD"
           <-> within_tolerance (at_region current r) (at_region personal r))
          /\ (state_of (at_region current r) (at_region rules r) = "BAD"
              <-> ~ within_tolerance (at_region current r) (at_region personal r)))
      /\ classify_posture_state current rules
         = label_of_spec (within_toleranceb (neck current) (neck personal))
                         (within_toleranceb (back current) (back personal))
                         (within_toleranceb (legs current) (legs personal))
      /\ label (run_manual_posture_check current personal)
         = classify_posture_state current rules)
  /\ (let summary := run_manual_posture_check (mk_by_region 135 100 120)
                                              (mk_by_region 150 100 120) in
      label summary = "Neck Misalignment"
      /\ map row_status (filter (fun row => match row_region row with
                                            | Neck => true | _ => false end)
                                (details summary))
         = ["INCORRECT (Too Bent/Forward)"]).
Proof.
  split.
  - intros current personal rules. split; [|split].
    + intro r. subst rules. rewrite state_of_manual_rule.
      rewrite <- within_toleranceb_iff.
      destruct (within_toleranceb (at_region current r) (at_region personal r));
        split; split; intro H; try reflexivity; try discriminate; try congruence.
    + subst rules. rewrite classify_by_states.
      pose proof (state_of_manual_rule current personal Neck) as Hn.
      pose proof (state_of_manual_rule current personal Back) as Hb.
      pose proof (state_of_manual_rule current personal Legs) as Hl.
      cbn [at_region] in Hn, Hb, Hl. rewrite Hn, Hb, Hl.
      destruct (within_toleranceb (neck current) (neck personal)),
               (within_toleranceb (back current) (back personal)),
               (within_toleranceb (legs current) (legs personal)); reflexivity.
    + reflexivity.
  - split; reflexivity.
Qed.

(** C10. Whatever the angles and the rules, the state tuple is a key of
    the table, so the label is one of the eight named ones and never the
    default "Unknown". *)
Theorem classify_posture_state_never_unknown :
  forall (angles : by_region Q) (rules : by_region rule),
    In (posture_state angles rules) (map fst posture_states)
    /\ In (classify_posture_state angles rules) (map snd posture_states)
    /\ classify_posture_state angles rules <> "Unknown".
Proof.
  intros angles rules.
  unfold classify_posture_state, posture_state, state_of.
  destruct (Qle_bool (rule_min (neck rules)) (neck angles)
            && Qle_bool (neck angles) (rule_max (neck rules)))%bool;
  destruct (Qle_bool (rule_min (back rules)) (back angles)
            && Qle_bool (back angles) (rule_max (back rules)))%bool;
  destruct (Qle_bool (rule_min (legs rules)) (legs angles)
            && Qle_bool (legs angles) (rule_max (legs rules)))%bool;
  (split; [|split]); cbn; try discriminate; tauto.
Qed.

(** ** Score *)

Lemma py_min_spec (a b : Q) :
  (b < a /\ py_min a b = b) \/ (a <= b /\ py_min a b = a).
Proof.
  unfold py_min. destruct (Qltb b a) eqn:E.
  - left. apply Qltb_lt in E. auto.
  - right. apply Qltb_ge in E. auto.
Qed.

Lemma py_max_spec (a b : Q) :
  (a < b /\ py_max a b = b) \/ (b <= a /\ py_max a b = a).
Proof.
  unfold py_max. destruct (Qltb a b) eqn:E.
  - left. apply Qltb_lt in E. auto.
  - right. apply Qltb_ge in E. auto.
Qed.

Lemma clamp_bounds (x : Q) : 0 <= py_max 0 (py_min 100 x) /\ py_max 0 (py_min 100 x) <= 100.
Proof.
  destruct (py_max_spec 0 (py_min 100 x)) as [[H1 ->]|[H1 ->]];
    destruct (py_min_spec 100 x) as [[H2 E]|[H2 E]]; rewrite ?E in *; clear E; split; qlra.
Qed.

Lemma score_bounds (current personal : by_region Q) (max_threshold : Q) :
  0 <= calculate_manual_score current personal max_threshold
  /\ calculate_manual_score current personal max_threshold <= 100.
Proof.
  unfold calculate_manual_score.
  destruct (Qle_bool max_threshold 0).
  - destruct (Qle_bool _ _); split; qlra.
  - apply clamp_bounds.
Qed.

Lemma weighted_deviation_self (personal : by_region Q) :
  weighted_deviation personal personal == 0.
Proof.
  unfold weighted_deviation. cbn. ring.
Qed.

Lemma score_at_reference (personal : by_region Q) (max_threshold : Q) :
  calculate_manual_score personal personal max_threshold = 100.
Proof.
  unfold calculate_manual_score.
  pose proof (weighted_deviation_self personal) as Hwd.
  destruct (Qle_bool max_threshold 0) eqn:Emt.
  - assert (Hle : Qle_bool (weighted_deviation personal personal) 0.000001 = true).
    { apply Qle_bool_iff. rewrite Hwd. qlra. }
    now rewrite Hle.
  - assert (Hs : (1 - weighted_deviation personal personal / max_threshold) * 100 == 100).
    { rewrite Hwd. unfold Qdiv. ring. }
    destruct (py_min_spec 100
                ((1 - weighted_deviation personal personal / max_threshold) * 100))
      as [[H _]|[_ ->]].
    + rewrite Hs in H. qlra.
    + reflexivity.
Qed.

Lemma score_binary (current personal : by_region Q) (max_threshold : Q) :
  max_threshold == 0 ->
  calculate_manual_score current personal max_threshold
  = if Qle_bool (weighted_deviation current personal) 0.000001 then 100 else 0.
Proof.
  intro H. unfold calculate_manual_score.
  assert (E : Qle_bool max_threshold 0 = true).
  { apply Qle_bool_iff. rewrite H. qlra. }
  now rewrite E.
Qed.

(** The weighted squared deviation of the source, written out. *)
Lemma weighted_deviation_sum (current personal : by_region Q) :
  weighted_deviation current personal
  == 1 * (neck current - neck personal) ^ 2
     + 1.5 * (back current - back personal) ^ 2
     + 0.5 * (legs current - legs personal) ^ 2.
Proof. unfold weighted_deviation. cbn. ring. Qed.



Lemma worst_diff_positive (lo hi ideal : Q) :
  lo < hi ->
  0 < Qabs ((if Qltb (Qabs (hi - ideal)) (Qabs (lo - ideal)) then lo else hi) - ideal).
Proof.
  intro Hlt.
  destruct (Qltb (Qabs (hi - ideal)) (Qabs (lo - ideal))) eqn:E.
  - apply Qltb_lt in E.
    pose proof (Qabs_nonneg (hi - ideal)). qlra.
  - apply Qltb_ge in E.
    destruct (Qlt_le_dec 0 (Qabs (hi - ideal))) as [Hpos|Hle]; [exact Hpos|].
    exfalso.
    pose proof (Qabs_nonneg (lo - ideal)) as Hn.
    assert (Hz : Qabs (lo - ideal) <= 0) by qlra.
    assert (H1 : Qabs (lo - ideal) == 0) by qlra.
    assert (H2 : Qabs (hi - ideal) == 0)
      by (pose proof (Qabs_nonneg (hi - ideal)); qlra).
    revert H1 H2. apply Qabs_case; apply Qabs_case; intros; qlra.
Qed.

(** The threshold computed from personal angles is never zero: the
    farther anatomical limit of each axis is at a positive distance. *)
Lemma compute_manual_max_deviation_positive (personal : by_region Q) :
  0 < compute_manual_max_deviation personal.
Proof.
  unfold compute_manual_max_deviation. cbn [fold_left regions at_region].
  cbn [ANGLE_LIMITS ANGLE_WEIGHTS neck back legs lim_min lim_max].
  assert (Hn := worst_diff_positive 125.19 178.45 (neck personal) ltac:(reflexivity)).
  assert (Hb := worst_diff_positive 59.70 145.25 (back personal) ltac:(reflexivity)).
  assert (Hl := worst_diff_positive 86.13 164.73 (legs personal) ltac:(reflexivity)).
  set (wn := Qabs _) in Hn |- *.
  set (wb := Qabs _) in Hb |- *.
  set (wl := Qabs _) in Hl |- *.
  assert (0 < wn ^ 2) by (simpl; Lqa.nra).
  assert (0 < wb ^ 2) by (simpl; Lqa.nra).
  assert (0 < wl ^ 2) by (simpl; Lqa.nra).
  qlra.
Qed.

(** ** Angle of three points *)

Lemma degrees_acos_bounds (x : R) :
  (0 <= degrees (acos x) <= 180)%R.
Proof.
  unfold degrees.
  pose proof (acos_bound x) as [Hlo Hhi].
  pose proof PI_RGT_0 as Hpi.
  assert (Hq : (0 < 180 / PI)%R).
  { apply Rdiv_lt_0_compat; rlra. }
  split.
  - apply Rmult_le_pos; rlra.
  - replace 180%R with (PI * (180 / PI))%R at 2 by (field; rlra).
    apply Rmult_le_compat_r; rlra.
Qed.

Lemma dot_comm (u v : R * R) : dot u v = dot v u.
Proof. unfold dot. ring. Qed.

(** C7. The angle at vertex B computed by the formula
    degrees(arccos(clip(dot(BA,BC) / (|BA|*|BC| + 1e-6), -1, 1))) lies
    between 0 and 180 degrees, and exchanging the outer points A and C
    leaves it unchanged. *)
Theorem calculate_angle_range_and_symmetry :
  forall a b c : coord,
    (0 <= calculate_angle a b c <= 180)%R
    /\ calculate_angle a b c = calculate_angle c b a.
Proof.
  intros a b c. split.
  - unfold calculate_angle. apply degrees_acos_bounds.
  - unfold calculate_angle.
    rewrite (dot_comm (vec a b) (vec c b)).
    rewrite (Rmult_comm (norm (vec a b)) (norm (vec c b))).
    reflexivity.
Qed.

(** A right angle, as a check of the formula's orientation: the clipped
    cosine of perpendicular arms is 0. *)
Example calculate_angle_right :
  calculate_angle (mk_coord 1 0) (mk_coord 0 0) (mk_coord 0 1) = 90%R.
Proof.
  unfold calculate_angle, vec, dot, norm, clip, degrees. cbn [cx cy fst snd].
  replace (Q2R 1) with 1%R by (unfold Q2R; cbn; field).
  replace (Q2R 0) with 0%R by (unfold Q2R; cbn; field).
  replace ((1 - 0) * (0 - 0) + (0 - 0) * (1 - 0))%R with 0%R by ring.
  unfold Rdiv at 1. rewrite Rmult_0_l.
  rewrite Rmax_left by rlra. rewrite Rmin_left by rlra.
  rewrite acos_0. pose proof PI_RGT_0. field. rlra.
Qed.

Lemma angle_difference_self (a : by_region R) :
  angle_difference a a = zero_offsets.
Proof.
  unfold angle_difference, tabulate, zero_offsets. cbn [at_region].
  f_equal; ring.
Qed.

Lemma angle_difference_at (p b : by_region R) (r : region) :
  at_region (angle_difference p b) r = (at_region p r - at_region b r)%R.
Proof. destruct r; reflexivity. Qed.

Lemma resolve_reference_angles_contract
    (fs : filesystem) (base_path : string) (personal_path : option string) :
  resolver_contract
    (get_angles_from_keypoint_file fs base_path)
    (match personal_path with
     | None => True
     | Some p => p = "" \/ get_angles_from_keypoint_file fs p = Ok None
     end)
    (resolve_reference_angles fs base_path personal_path).
Proof.
  unfold resolver_contract, resolve_reference_angles.
  set (path := match personal_path with
               | Some p => if String.eqb p "" then base_path else p
               | None => base_path
               end).
  destruct (get_angles_from_keypoint_file fs base_path) as [[b|]|e] eqn:Eb;
    cbn [bind].
  2: { repeat split; intros; try discriminate; auto. }
  2: { repeat split; intros; try discriminate; auto. }
  destruct (get_angles_from_keypoint_file fs path) as [[p|]|e] eqn:Ep;
    cbn [bind].
  - split; [split; discriminate|]. split.
    + intros res [= <-]. cbn. split; [reflexivity|]. apply angle_difference_at.
    + intros res [= <-] Hun. cbn.
      assert (Hp : get_angles_from_keypoint_file fs path = Ok None
                   \/ path = base_path).
      { subst path. destruct personal_path as [q|]; [|now right].
        destruct Hun as [-> | Hq]; [now right|].
        destruct (String.eqb q ""); [now right|now left]. }
      destruct Hp as [Hp|Hp].
      * rewrite Hp in Ep. discriminate.
      * rewrite Hp, Eb in Ep. injection Ep as <-.
        split; [reflexivity|]. apply angle_difference_self.
  - split; [split; discriminate|]. split.
    + intros res [= <-]. cbn. split; [reflexivity|]. apply angle_difference_at.
    + intros res [= <-] _. cbn. split; [reflexivity|]. apply angle_difference_self.
  - repeat split; intros; discriminate.
Qed.

Lemma detector_resolve_reference_angles_contract
    (fs : filesystem) (base_file user_path : string) :
  resolver_contract
    (Detector.load_reference_angles fs base_file)
    (path_exists fs user_path = false
     \/ Detector.load_reference_angles fs user_path = Ok None)
    (Detector.resolve_reference_angles fs base_file user_path).
Proof.
  unfold resolver_contract, Detector.resolve_reference_angles.
  destruct (Detector.load_reference_angles fs base_file) as [[b|]|e] eqn:Eb;
    cbn [bind].
  2: { repeat split; intros; try discriminate; auto. }
  2: { repeat split; intros; try discriminate; auto. }
  destruct (path_exists fs user_path) eqn:Eex.
  - destruct (String.eqb user_path "") eqn:Eempty; cbn [bind].
    + split; [split; discriminate|]. split.
      * intros res [= <-]. cbn. split; [reflexivity|]. apply angle_difference_at.
      * intros res [= <-] _. cbn. split; [reflexivity|]. apply angle_difference_self.
    + destruct (Detector.load_reference_angles fs user_path) as [[p|]|e] eqn:Ep;
        cbn [bind].
      * split; [split; discriminate|]. split.
        -- intros res [= <-]. cbn. split; [reflexivity|]. apply angle_difference_at.
        -- intros res [= <-] [Hun|Hun]; discriminate.
      * split; [split; discriminate|]. split.
        -- intros res [= <-]. cbn. split; [reflexivity|]. apply angle_difference_at.
        -- intros res [= <-] _. cbn. split; [reflexivity|]. apply angle_difference_self.
      * repeat split; intros; discriminate.
  - cbn [bind]. split; [split; discriminate|]. split.
    + intros res [= <-]. cbn. split; [reflexivity|]. apply angle_difference_at.
    + intros res [= <-] _. cbn. split; [reflexivity|]. apply angle_difference_self.
Qed.

(** C3. The resolver returns the failure sentinel exactly when the
    baseline reference yields no angles; when the personal reference is
    absent or yields no angles the personal angles are the baseline's and
    the offsets are all zero; and in every successful result the offset of
    each axis is the personal angle minus the baseline angle.  This holds
    of the resolver of lightGBM.py and of the detector's. *)
Theorem resolver_meets_contract :
  forall (fs : filesystem) (base_path : string),
    (forall personal_path : option string,
        resolver_contract
          (get_angles_from_keypoint_file fs base_path)
          (match personal_path with
           | None => True
           | Some p => p = "" \/ get_angles_from_keypoint_file fs p = Ok None
           end)
          (resolve_reference_angles fs base_path personal_path))
    /\ (forall user_path : string,
           resolver_contract
             (Detector.load_reference_angles fs base_path)
             (path_exists fs user_path = false
              \/ Detector.load_reference_angles fs user_path = Ok None)
             (Detector.resolve_reference_angles fs base_path user_path)).
Proof.
  intros fs base_path. split.
  - intro p. apply resolve_reference_angles_contract.
  - intro u. apply detector_resolve_reference_angles_contract.
Qed.

(** ** Geometric path: side and confidence threshold *)

Lemma required_point_confident (lookup : keypoints) (part : string) (c : coord) :
  required_point lookup part = Some c ->
  CONFIDENCE_THRESHOLD <= _confidence (lookup_get lookup (KStr part)).
Proof.
  unfold required_point.
  destruct (Qltb _ _) eqn:E; [discriminate|].
  intros _. now apply Qltb_ge in E.
Qed.

Lemma required_point_low (lookup : keypoints) (part : string) :
  _confidence (lookup_get lookup (KStr part)) < CONFIDENCE_THRESHOLD ->
  required_point lookup part = None.
Proof.
  intro H. unfold required_point.
  apply Qltb_lt in H. now rewrite H.
Qed.

Lemma geometric_angles_low (lookup : keypoints) (part : string) :
  In part (required_parts (choose_side lookup)) ->
  _confidence (lookup_get lookup (KStr part)) < CONFIDENCE_THRESHOLD ->
  geometric_angles lookup = None.
Proof.
  intros Hin Hlow. apply required_point_low in Hlow.
  unfold geometric_angles.
  cbn [required_parts In] in Hin.
  destruct Hin as [<-|[<-|[<-|[<-|[<-|[]]]]]]; rewrite Hlow;
    repeat (destruct (required_point lookup _); try reflexivity).
Qed.

Lemma choose_side_left (lookup : keypoints) :
  _confidence (lookup_get lookup (KStr "right_ear"))
  <= _confidence (lookup_get lookup (KStr "left_ear")) ->
  choose_side lookup = "left".
Proof.
  intro H. unfold choose_side. apply Qle_bool_iff in H. now rewrite H.
Qed.

Lemma choose_side_right (lookup : keypoints) :
  _confidence (lookup_get lookup (KStr "left_ear"))
  < _confidence (lookup_get lookup (KStr "right_ear")) ->
  choose_side lookup = "right".
Proof.
  intro H. unfold choose_side.
  destruct (Qle_bool _ _) eqn:E; [|reflexivity].
  apply Qle_bool_iff in E. exfalso. apply (Qlt_not_le _ _ H E).
Qed.

Lemma confidence_invisible (point : dict) :
  get point "visible" = JBool false -> _confidence (Some point) = 0.
Proof. intro H. unfold _confidence. now rewrite H. Qed.

Lemma confidence_unparseable (point : dict) :
  raises (py_float (stated_confidence point)) = true ->
  _confidence (Some point) = 0.
Proof.
  intro H. unfold _confidence.
  destruct (get point "visible") as [| [|] | | | |];
    try reflexivity;
    destruct (py_float (stated_confidence point)); try discriminate; reflexivity.
Qed.

Lemma confidence_absent (point : dict) :
  dict_get point "confidence" = None ->
  dict_get point "score" = None ->
  dict_get point "probability" = None ->
  _confidence (Some point) = 0.
Proof.
  intros Hc Hs Hp. apply confidence_unparseable.
  unfold stated_confidence, get. now rewrite Hc, Hs, Hp.
Qed.


(** ** Direct path of the angle extractor *)

Lemma extract_numeric (candidate : dict) (a : by_region Q) :
  numeric_angles candidate a ->
  _extract_angles (JDict candidate) = Ok (Some a)
  /\ Detector._extract_angles (JDict candidate) = Ok (Some a).
Proof.
  intros (Hn & Hb & Hl).
  unfold _extract_angles, Detector._extract_angles, float_angles, angle_keys.
  cbn [forallb]. unfold has_key, get. rewrite Hn, Hb, Hl. cbn.
  destruct a; split; reflexivity.
Qed.

Lemma scan_angle_fields_first
    (extract : json -> result (option (by_region Q)))
    (data : dict) (before : list string) (k : string) (after : list string)
    (a : by_region Q) :
  (forall k', In k' before -> extract (get data k') = Ok None) ->
  extract (get data k) = Ok (Some a) ->
  scan_angle_fields extract data (before ++ k :: after)%list = Ok (Some a).
Proof.
  intros Hbefore Hk. induction before as [|k0 before IH]; cbn.
  - now rewrite Hk.
  - rewrite (Hbefore k0) by now left. cbn.
    apply IH. intros k' Hin. apply Hbefore. now right.
Qed.

Lemma get_angles_with_direct
    (extract : json -> result (option (by_region Q)))
    (data : dict) (before : list string) (k : string) (after : list string)
    (a : by_region Q) :
  (forall k', In k' before -> extract (get data k') = Ok None) ->
  extract (get data k) = Ok (Some a) ->
  get_angles_with extract (before ++ k :: after)%list (JDict data)
  = Ok (Some (map_region Q2R a)).
Proof.
  intros Hbefore Hk. unfold get_angles_with.
  rewrite (scan_angle_fields_first extract data before k after a Hbefore Hk).
  reflexivity.
Qed.

(** The detector returns the numbers of the first of its four sub-objects
    that has the three fields, without looking at keypoints. *)
Lemma detector_direct_path
    (data : dict) (before : list string) (k : string) (after : list string)
    (candidate : dict) (a : by_region Q) :
  (before ++ k :: after)%list
  = ["adjusted_angles"; "personalized_angles"; "angles"; "reference_angles"] ->
  (forall k', In k' before -> Detector._extract_angles (get data k') = Ok None) ->
  get data k = JDict candidate ->
  numeric_angles candidate a ->
  Detector.get_angles_from_payload (JDict data) = Ok (Some (map_region Q2R a)).
Proof.
  intros Hfields Hbefore Hget Hnum.
  unfold Detector.get_angles_from_payload. rewrite <- Hfields.
  apply get_angles_with_direct; [exact Hbefore|].
  rewrite Hget. apply (extract_numeric candidate a Hnum).
Qed.

(** lightGBM.py does the same for its three sub-objects. *)
Lemma lightgbm_direct_path
    (data : dict) (before : list string) (k : string) (after : list string)
    (candidate : dict) (a : by_region Q) :
  (before ++ k :: after)%list = ["adjusted_angles"; "personalized_angles"; "angles"] ->
  (forall k', In k' before -> _extract_angles (get data k') = Ok None) ->
  get data k = JDict candidate ->
  numeric_angles candidate a ->
  get_angles_from_payload (JDict data) = Ok (Some (map_region Q2R a)).
Proof.
  intros Hfields Hbefore Hget Hnum.
  unfold get_angles_from_payload. rewrite <- Hfields.
  apply get_angles_with_direct; [exact Hbefore|].
  rewrite Hget. apply (extract_numeric candidate a Hnum).
Qed.

(** C4. On a payload whose only angle source is a numeric
    [reference_angles] sub-object, the detector returns that sub-object's
    angles, and the extractor of lightGBM.py, which does not read that
    field, returns nothing. *)
Theorem reference_angles_read_by_detector_only :
  numeric_angles angles_150_100_120 (mk_by_region 150 100 120)
  /\ Detector.get_angles_from_payload payload_reference_angles
     = Ok (Some (map_region Q2R (mk_by_region 150 100 120)))
  /\ get_angles_from_payload payload_reference_angles = Ok None.
Proof.
  split; [repeat split|]. split; reflexivity.
Qed.

(** ** Exceptions of the angle extractor *)

Lemma key_of_raises (v : json) (e : exn) : key_of v = Raise e -> e = TypeError.
Proof. destruct v; cbn; congruence. Qed.

Lemma normalise_entries_raises (entries : list json) (lookup : keypoints) (e : exn) :
  normalise_entries lookup entries = Raise e -> e = TypeError.
Proof.
  revert lookup. induction entries as [|entry rest IH]; intros lookup; cbn.
  - discriminate.
  - destruct (normalise_entry lookup entry) as [lookup'|e'] eqn:E; cbn.
    + apply IH.
    + intros [= <-]. unfold normalise_entry in E.
      destruct entry; try discriminate.
      destruct (negb (truthy (entry_name_normaliser kvs))); [discriminate|].
      destruct (key_of (entry_name_normaliser kvs)) eqn:Ek; cbn in E;
        [discriminate|].
      injection E as <-. now apply key_of_raises in Ek.
Qed.

Lemma normalise_keypoints_raises (raw : json) (e : exn) :
  _normalise_keypoints raw = Raise e -> e = TypeError.
Proof.
  destruct raw; cbn; try discriminate. apply normalise_entries_raises.
Qed.

Lemma scan_candidates_raises (holder : dict) (names : list string)
    (acc : keypoints) (e : exn) :
  scan_candidates holder names acc = Raise e -> e = TypeError.
Proof.
  revert acc. induction names as [|k rest IH]; intros acc; cbn.
  - discriminate.
  - destruct (dict_get holder k) as [raw|]; [|apply IH].
    destruct (_normalise_keypoints raw) as [found|e'] eqn:E; cbn.
    + destruct (is_empty found); [apply IH|discriminate].
    + intros [= <-]. now apply normalise_keypoints_raises in E.
Qed.

Lemma build_keypoints_lookup_raises (payload : json) (e : exn) :
  _build_keypoints_lookup payload = Raise e -> e = TypeError.
Proof.
  destruct payload as [| | | | |p]; unfold _build_keypoints_lookup;
    try discriminate.
  destruct (first_person_keypoints (py_or (get p "persons") (get p "people")))
    as [kl|e'] eqn:E; cbn [bind].
  - destruct (is_empty kl); [apply scan_candidates_raises|discriminate].
  - intros [= <-]. unfold first_person_keypoints in E.
    destruct (py_or (get p "persons") (get p "people")) as [| | | |xs|];
      try discriminate.
    destruct xs as [|[| | | | |pe] ?]; try discriminate.
    now apply scan_candidates_raises in E.
Qed.

Lemma detector_extract_total (candidate : json) :
  exists r, Detector._extract_angles candidate = Ok r.
Proof.
  destruct candidate as [| | | | |c]; cbn [Detector._extract_angles]; eauto.
  destruct (forallb (has_key c) angle_keys); eauto.
Qed.

Lemma scan_angle_fields_total
    (extract : json -> result (option (by_region Q))) (data : dict)
    (names : list string) :
  (forall v, exists r, extract v = Ok r) ->
  exists r, scan_angle_fields extract data names = Ok r.
Proof.
  intro Htotal. induction names as [|k rest IH]; cbn; eauto.
  destruct (Htotal (get data k)) as [[a|] ->]; cbn; eauto.
Qed.

(** The detector's extractor lets one exception through: the [TypeError]
    of a part name that is a list or a dict, raised by the normaliser. *)
Lemma detector_get_angles_raises (data : json) (e : exn) :
  Detector.get_angles_from_payload data = Raise e ->
  e = TypeError /\ _build_keypoints_lookup data = Raise TypeError.
Proof.
  unfold Detector.get_angles_from_payload, get_angles_with.
  assert (Hdirect : exists r,
             match data with
             | JDict d =>
                 do angles <- scan_angle_fields Detector._extract_angles d
                     ["adjusted_angles"; "personalized_angles"; "angles";
                      "reference_angles"];
                 match angles with
                 | Some a => Ok (Some a)
                 | None => Detector._extract_angles data
                 end
             | _ => Ok None
             end = Ok r).
  { destruct data as [| | | | |d]; eauto.
    destruct (scan_angle_fields_total Detector._extract_angles d
                ["adjusted_angles"; "personalized_angles"; "angles";
                 "reference_angles"] detector_extract_total) as [[a|] ->];
      cbn [bind]; [eauto|apply detector_extract_total]. }
  destruct Hdirect as [[a|] ->]; cbn; [discriminate|].
  destruct (_build_keypoints_lookup data) as [kl|e'] eqn:E; cbn.
  - destruct (is_empty kl); discriminate.
  - intros [= <-]. pose proof (build_keypoints_lookup_raises _ _ E) as ->. auto.
Qed.

(** C5. The extractor of lightGBM.py raises [ValueError] on a payload
    whose neck angle is the string "abc", where the detector returns
    nothing; and both raise [TypeError] on a keypoint whose name is a
    list. *)
Theorem get_angles_from_payload_raises :
  get_angles_from_payload payload_text_angle = Raise ValueError
  /\ Detector.get_angles_from_payload payload_text_angle = Ok None
  /\ get_angles_from_payload payload_list_name = Raise TypeError
  /\ Detector.get_angles_from_payload payload_list_name = Raise TypeError.
Proof. repeat split. Qed.

(** ** Dicts *)

Lemma dict_get_set {A : Type} (d : list (string * A)) (k k' : string) (v : A) :
  dict_get (dict_set d k v) k'
  = if String.eqb k k' then Some v else dict_get d k'.
Proof.
  induction d as [|[k0 v0] rest IH]; cbn.
  - reflexivity.
  - destruct (String.eqb k0 k) eqn:E0; cbn.
    + apply String.eqb_eq in E0. subst k0.
      destruct (String.eqb k k'); reflexivity.
    + rewrite IH. destruct (String.eqb k0 k') eqn:E1; [|reflexivity].
      apply String.eqb_eq in E1. subst k'.
      now rewrite String.eqb_sym, E0.
Qed.

Lemma get_set_other (d : dict) (k k' : string) (v : json) :
  String.eqb k k' = false -> get (dict_set d k v) k' = get d k'.
Proof. intro H. unfold get. now rewrite dict_get_set, H. Qed.

Lemma get_set_same (d : dict) (k : string) (v : json) :
  get (dict_set d k v) k = v.
Proof. unfold get. now rewrite dict_get_set, String.eqb_refl. Qed.

Lemma dict_set_not_empty (d : dict) (k : string) (v : json) :
  is_empty (dict_set d k v) = false.
Proof. destruct d as [|[k0 v0] rest]; cbn; [|destruct (String.eqb k0 k)]; reflexivity. Qed.

(** ** Shifting by null offsets *)

Lemma same_number_refl (v : json) : same_number v v.
Proof. now left. Qed.

Lemma same_field_refl (o : option json) : same_field o o.
Proof. destruct o; cbn; auto using same_number_refl. Qed.

Lemma same_xy_refl (h : dict) : same_xy h h.
Proof. split; apply same_field_refl. Qed.

Lemma same_entry_refl (e : dict) : same_entry e e.
Proof. split; [reflexivity|]. split; [apply same_xy_refl|now left]. Qed.

Lemma same_point_refl (d : dict) : same_point d d.
Proof. repeat split; apply same_number_refl. Qed.

Lemma same_lookup_refl (l : keypoints) : same_lookup l l.
Proof.
  induction l as [|item rest IH]; constructor; auto using same_point_refl.
Qed.

Lemma same_field_get (h h' : dict) (k : string) :
  same_field (dict_get h k) (dict_get h' k) -> same_number (get h k) (get h' k).
Proof.
  unfold get. destruct (dict_get h k), (dict_get h' k); cbn; try tauto.
  intros _. apply same_number_refl.
Qed.

Lemma same_number_trans (u v w : json) :
  same_number u v -> same_number v w -> same_number u w.
Proof.
  intros [->|(a & b & Ha & -> & Hab)] H; [exact H|].
  destruct H as [<-|(a' & b' & Ha' & -> & Hab')].
  - right. exists a, b. auto.
  - right. exists a, b'. cbn in Ha'. injection Ha' as <-.
    repeat split; auto. now rewrite Hab'.
Qed.

Lemma same_field_trans (o1 o2 o3 : option json) :
  same_field o1 o2 -> same_field o2 o3 -> same_field o1 o3.
Proof.
  destruct o1, o2, o3; cbn; try tauto. apply same_number_trans.
Qed.

(** *** One axis *)

Lemma shift_axis_other (d : delta) (h : dict) (axis k : string) :
  String.eqb axis k = false ->
  dict_get (shift_axis d h axis) k = dict_get h k.
Proof.
  intro Hk. unfold shift_axis.
  destruct (dict_get h axis) as [v|]; [|reflexivity].
  destruct (is_None v); [reflexivity|].
  destruct (py_float v); [|reflexivity].
  now rewrite dict_get_set, Hk.
Qed.

Lemma shift_axis_same (d : delta) (h : dict) (axis : string) :
  delta_get d axis == 0 ->
  same_field (dict_get h axis) (dict_get (shift_axis d h axis) axis).
Proof.
  intro Hnull. unfold shift_axis.
  destruct (dict_get h axis) as [v|] eqn:E; [|now rewrite E].
  destruct (is_None v); [rewrite E; apply same_field_refl|].
  destruct (py_float v) as [q|] eqn:Ef; [|rewrite E; apply same_field_refl].
  rewrite dict_get_set, String.eqb_refl. cbn.
  right. exists q, (q + delta_get d axis). repeat split; auto.
  rewrite Hnull. ring.
Qed.

Lemma shift_xy_other (d : delta) (h : dict) (k : string) :
  String.eqb "x" k = false -> String.eqb "y" k = false ->
  dict_get (shift_xy d h) k = dict_get h k.
Proof.
  intros Hx Hy. unfold shift_xy. now rewrite !shift_axis_other.
Qed.

Lemma shift_xy_same (d : delta) (h : dict) :
  null_delta d -> same_xy h (shift_xy d h).
Proof.
  intros [Hx Hy]. unfold shift_xy, same_xy. split.
  - rewrite shift_axis_other by reflexivity. now apply shift_axis_same.
  - eapply same_field_trans; [|apply shift_axis_same; exact Hy].
    rewrite shift_axis_other by reflexivity. apply same_field_refl.
Qed.

Lemma null_offsets_get (offs : offsets) (k : key) (d : delta) :
  null_offsets offs -> lookup_get offs k = Some d -> null_delta d.
Proof.
  intros Hnull. induction Hnull as [|[k0 d0] rest Hd _ IH]; cbn.
  - discriminate.
  - destruct (key_eqb k0 k); [|exact IH]. now intros [= <-].
Qed.

Lemma apply_delta_same (offs : offsets) (e : dict) (name : key) :
  null_offsets offs -> same_entry e (_apply_delta offs e name).
Proof.
  intro Hnull. unfold _apply_delta.
  destruct (lookup_get offs name) as [d|] eqn:Ed; [|apply same_entry_refl].
  destruct (no_delta (Some d)); [apply same_entry_refl|].
  pose proof (null_offsets_get offs name d Hnull Ed) as Hd.
  pose proof (shift_xy_same d e Hd) as Hxy.
  assert (Hpos : dict_get (shift_xy d e) "position" = dict_get e "position")
    by (now apply shift_xy_other).
  unfold get. rewrite Hpos.
  destruct (dict_get e "position") as [[| | | | |position]|] eqn:Ep;
    try (split; [intros; now apply shift_xy_other|];
         split; [exact Hxy|]; rewrite Hpos, Ep; now left).
  destruct (is_empty position).
  - split; [intros; now apply shift_xy_other|].
    split; [exact Hxy|]. rewrite Hpos, Ep. now left.
  - split; [|split].
    + intros k Hx Hy Hp. rewrite dict_get_set, Hp. now apply shift_xy_other.
    + destruct Hxy as [H1 H2]. split; rewrite dict_get_set; cbn; assumption.
    + rewrite dict_get_set, String.eqb_refl. right.
      exists position, (shift_xy d position). repeat split; auto.
      * apply (shift_xy_same d position Hd).
      * apply (shift_xy_same d position Hd).
Qed.

(** *** From entries to points *)

Lemma same_number_is_None (v w : json) :
  same_number v w -> is_None v = is_None w.
Proof.
  intros [->|(a & b & Ha & -> & _)]; [reflexivity|].
  destruct v; cbn in *; try discriminate; reflexivity.
Qed.

Lemma same_number_float (v w : json) :
  same_number v w -> same_result Qeq (py_float v) (py_float w).
Proof.
  intros [->|(a & b & Ha & -> & Hab)].
  - destruct (py_float w); cbn; reflexivity.
  - rewrite Ha. cbn. now symmetry.
Qed.

Lemma same_entry_get (e e' : dict) (k : string) :
  same_entry e e' ->
  String.eqb "x" k = false -> String.eqb "y" k = false ->
  String.eqb "position" k = false -> get e' k = get e k.
Proof. intros (H & _) Hx Hy Hp. unfold get. now rewrite H. Qed.

Lemma same_entry_get_default (e e' : dict) (k : string) (v : json) :
  same_entry e e' ->
  String.eqb "x" k = false -> String.eqb "y" k = false ->
  String.eqb "position" k = false -> get_default e' k v = get_default e k v.
Proof. intros (H & _) Hx Hy Hp. unfold get_default. now rewrite H. Qed.

Lemma same_entry_name (e e' : dict) :
  same_entry e e' -> entry_name_normaliser e' = entry_name_normaliser e.
Proof.
  intro H. unfold entry_name_normaliser.
  now rewrite !(same_entry_get e e') by (assumption || reflexivity).
Qed.

Lemma same_entry_coordinate (e e' : dict) (axis : string) :
  same_entry e e' ->
  (axis = "x" \/ axis = "y") ->
  same_number
    (get_default e axis
       (get (match get e "position" with JDict p => p | _ => [] end) axis))
    (get_default e' axis
       (get (match get e' "position" with JDict p => p | _ => [] end) axis)).
Proof.
  intros (_ & [Hx Hy] & Hpos) Haxis.
  assert (Hfield : same_field (dict_get e axis) (dict_get e' axis))
    by (destruct Haxis as [->| ->]; assumption).
  unfold get_default.
  destruct (dict_get e axis) as [v|], (dict_get e' axis) as [w|];
    cbn in Hfield; try tauto.
  unfold get at 2 4.
  destruct Hpos as [<-|(p & p' & -> & -> & [Hpx Hpy])].
  - apply same_number_refl.
  - apply same_field_get. destruct Haxis as [->| ->]; assumption.
Qed.

Lemma same_point_confidence (d d' : dict) :
  same_point d d' -> _confidence (Some d) = _confidence (Some d').
Proof.
  intros (Hv & Hc & _). unfold _confidence. now rewrite Hv, Hc.
Qed.

Lemma same_point_float_xy (d d' : dict) :
  same_point d d' ->
  match float_xy d, float_xy d' with
  | Ok c, Ok c' => same_coord c c'
  | Raise _, Raise _ => True
  | _, _ => False
  end.
Proof.
  intros (_ & _ & Hx & Hy). unfold float_xy.
  apply same_number_float in Hx. apply same_number_float in Hy.
  destruct (py_float (get d "x")), (py_float (get d' "x")); cbn in *; try tauto.
  destruct (py_float (get d "y")), (py_float (get d' "y")); cbn in *; try tauto.
  split; assumption.
Qed.

(** *** Keypoint maps *)

Lemma same_lookup_get (l l' : keypoints) (k : key) :
  same_lookup l l' ->
  match lookup_get l k, lookup_get l' k with
  | Some d, Some d' => same_point d d'
  | None, None => True
  | _, _ => False
  end.
Proof.
  intro H. induction H as [|[k0 d0] [k0' d0'] rest rest' [Hk Hd] _ IH]; cbn.
  - exact I.
  - cbn in Hk, Hd. subst k0'. destruct (key_eqb k0 k); [exact Hd|exact IH].
Qed.

Lemma same_lookup_set (l l' : keypoints) (k : key) (d d' : dict) :
  same_lookup l l' -> same_point d d' ->
  same_lookup (lookup_set l k d) (lookup_set l' k d').
Proof.
  intros H Hd. induction H as [|[k0 d0] [k0' d0'] rest rest' [Hk Hd0] Hrest IH]; cbn.
  - constructor; [split; [reflexivity|exact Hd]|constructor].
  - cbn in Hk, Hd0. subst k0'. destruct (key_eqb k0 k).
    + constructor; [split; [reflexivity|exact Hd]|exact Hrest].
    + constructor; [split; [reflexivity|exact Hd0]|exact IH].
Qed.

Lemma same_lookup_empty (l l' : keypoints) :
  same_lookup l l' -> is_empty l = is_empty l'.
Proof. intro H. destruct H; reflexivity. Qed.

Lemma same_lookup_confidence (l l' : keypoints) (k : key) :
  same_lookup l l' -> _confidence (lookup_get l k) = _confidence (lookup_get l' k).
Proof.
  intro H. pose proof (same_lookup_get l l' k H) as Hget.
  destruct (lookup_get l k), (lookup_get l' k); try tauto.
  now apply same_point_confidence.
Qed.

Lemma same_lookup_required_point (l l' : keypoints) (part : string) :
  same_lookup l l' ->
  match required_point l part, required_point l' part with
  | Some c, Some c' => same_coord c c'
  | None, None => True
  | _, _ => False
  end.
Proof.
  intro H. unfold required_point.
  rewrite <- (same_lookup_confidence l l' (KStr part) H).
  destruct (Qltb _ _); [exact I|].
  pose proof (same_lookup_get l l' (KStr part) H) as Hget.
  destruct (lookup_get l (KStr part)) as [d|],
           (lookup_get l' (KStr part)) as [d'|]; try tauto.
  apply same_point_float_xy in Hget.
  destruct (float_xy d), (float_xy d'); tauto.
Qed.

Lemma calculate_angle_same (a a' b b' c c' : coord) :
  same_coord a a' -> same_coord b b' -> same_coord c c' ->
  calculate_angle a b c = calculate_angle a' b' c'.
Proof.
  intros [Hax Hay] [Hbx Hby] [Hcx Hcy].
  unfold calculate_angle, vec.
  now rewrite (Qeq_eqR _ _ Hax), (Qeq_eqR _ _ Hay), (Qeq_eqR _ _ Hbx),
              (Qeq_eqR _ _ Hby), (Qeq_eqR _ _ Hcx), (Qeq_eqR _ _ Hcy).
Qed.

Lemma same_lookup_geometric_angles (l l' : keypoints) :
  same_lookup l l' -> geometric_angles l = geometric_angles l'.
Proof.
  intro H. unfold geometric_angles.
  assert (Hside : choose_side l = choose_side l').
  { unfold choose_side. now rewrite !(same_lookup_confidence l l' _ H). }
  rewrite <- Hside.
  pose proof (same_lookup_required_point l l' (choose_side l ++ "_ear") H) as H1.
  pose proof (same_lookup_required_point l l' (choose_side l ++ "_shoulder") H) as H2.
  pose proof (same_lookup_required_point l l' (choose_side l ++ "_hip") H) as H3.
  pose proof (same_lookup_required_point l l' (choose_side l ++ "_knee") H) as H4.
  pose proof (same_lookup_required_point l l' (choose_side l ++ "_ankle") H) as H5.
  destruct (required_point l (choose_side l ++ "_ear")),
           (required_point l' (choose_side l ++ "_ear")); try tauto.
  destruct (required_point l (choose_side l ++ "_shoulder")),
           (required_point l' (choose_side l ++ "_shoulder")); try tauto.
  destruct (required_point l (choose_side l ++ "_hip")),
           (required_point l' (choose_side l ++ "_hip")); try tauto.
  destruct (required_point l (choose_side l ++ "_knee")),
           (required_point l' (choose_side l ++ "_knee")); try tauto.
  destruct (required_point l (choose_side l ++ "_ankle")),
           (required_point l' (choose_side l ++ "_ankle")); try tauto.
  f_equal. f_equal; apply calculate_angle_same; assumption.
Qed.

(** *** Containers *)

Lemma same_point_trans (d1 d2 d3 : dict) :
  same_point d1 d2 -> same_point d2 d3 -> same_point d1 d3.
Proof.
  intros (Hv & Hc & Hx & Hy) (Hv' & Hc' & Hx' & Hy').
  repeat split; try congruence; eapply same_number_trans; eassumption.
Qed.

Lemma same_lookup_trans (l1 l2 l3 : keypoints) :
  same_lookup l1 l2 -> same_lookup l2 l3 -> same_lookup l1 l3.
Proof.
  intro H. revert l3.
  induction H as [|i1 i2 r1 r2 [Hk Hd] _ IH]; intros l3 H'; inversion H'; subst.
  - constructor.
  - constructor; [|now apply IH].
    destruct H1 as [Hk' Hd']. split; [congruence|].
    eapply same_point_trans; eassumption.
Qed.

Lemma same_result_refl {A : Type} (R : A -> A -> Prop) (r : result A) :
  (forall a, R a a) -> same_result R r r.
Proof. intro H. destruct r; cbn; auto. Qed.

Lemma same_result_trans {A : Type} (R : A -> A -> Prop) (r1 r2 r3 : result A) :
  (forall a b c, R a b -> R b c -> R a c) ->
  same_result R r1 r2 -> same_result R r2 r3 -> same_result R r1 r3.
Proof.
  intro H. destruct r1, r2, r3; cbn; try tauto; try congruence. apply H.
Qed.

Lemma same_entry_point (e e' : dict) : same_entry e e' -> same_point e e'.
Proof.
  intro H. pose proof H as (Hother & [Hx Hy] & _).
  split; [|split; [|split]].
  - symmetry. now apply (same_entry_get e e').
  - unfold stated_confidence.
    now rewrite !(same_entry_get e e') by (assumption || reflexivity).
  - now apply same_field_get.
  - now apply same_field_get.
Qed.

Lemma process_item_normalise (offs : offsets) (l l' : keypoints)
    (item : string * json) :
  null_offsets offs -> same_lookup l l' ->
  same_lookup (normalise_item l item) (normalise_item l' (process_item offs item)).
Proof.
  intros Hnull Hl. destruct item as [label payload]. unfold process_item.
  destruct payload as [| | | |xs|e]; try exact Hl.
  - destruct xs as [|e0 [|e1 rest]]; try exact Hl.
    assert (Hrefl : same_lookup (normalise_item l (label, JList (e0 :: e1 :: rest)))
                                (normalise_item l' (label, JList (e0 :: e1 :: rest)))).
    { cbn. destruct rest; [exact Hl|].
      apply same_lookup_set; [exact Hl|apply same_point_refl]. }
    destruct (lookup_get offs (KStr label)) as [d|] eqn:Ed; [|exact Hrefl].
    destruct (no_delta (Some d)); [exact Hrefl|].
    destruct (py_float e0) as [a|] eqn:Ea; cbn [bind]; [|exact Hrefl].
    destruct (py_float e1) as [b|] eqn:Eb; cbn [bind]; [|exact Hrefl].
    destruct (null_offsets_get offs _ d Hnull Ed) as [Hdx Hdy].
    cbn. destruct rest as [|conf rest]; [exact Hl|].
    apply same_lookup_set; [exact Hl|].
    split; [reflexivity|]. split; [reflexivity|]. split; cbn.
    + right. exists a, (a + delta_get d "x"). repeat split; auto.
      rewrite Hdx. ring.
    + right. exists b, (b + delta_get d "y"). repeat split; auto.
      rewrite Hdy. ring.
  - cbn. apply same_lookup_set; [exact Hl|].
    apply same_entry_point. now apply apply_delta_same.
Qed.

Lemma process_items_normalise (offs : offsets) (items : dict) (l l' : keypoints) :
  null_offsets offs -> same_lookup l l' ->
  same_lookup (fold_left normalise_item items l)
              (fold_left normalise_item (map (process_item offs) items) l').
Proof.
  intro Hnull. revert l l'.
  induction items as [|item rest IH]; intros l l' Hl; cbn; [exact Hl|].
  apply IH. now apply process_item_normalise.
Qed.

Lemma normalise_entry_same (l l' : keypoints) (e e' : dict) :
  same_lookup l l' -> same_entry e e' ->
  same_result same_lookup (normalise_entry l (JDict e)) (normalise_entry l' (JDict e')).
Proof.
  intros Hl He. unfold normalise_entry.
  rewrite (same_entry_name e e' He).
  destruct (negb (truthy (entry_name_normaliser e))); [exact Hl|].
  destruct (key_of (entry_name_normaliser e)) as [k|exc]; cbn [bind same_result];
    [|reflexivity].
  apply same_lookup_set; [exact Hl|].
  rewrite (same_entry_get e e' "probability" He),
          (same_entry_get_default e e' "score" _ He),
          (same_entry_get_default e e' "confidence" _ He),
          (same_entry_get_default e e' "is_visible" _ He),
          (same_entry_get_default e e' "visible" _ He) by reflexivity.
  split; [reflexivity|]. split; [reflexivity|]. split.
  - apply (same_entry_coordinate e e' "x" He). now left.
  - apply (same_entry_coordinate e e' "y" He). now right.
Qed.

Lemma process_entry_normalise (offs : offsets) (l l' : keypoints)
    (entry entry' : json) :
  null_offsets offs -> same_lookup l l' ->
  process_entry offs entry = Ok entry' ->
  same_result same_lookup (normalise_entry l entry) (normalise_entry l' entry').
Proof.
  intros Hnull Hl. unfold process_entry.
  destruct entry as [| | | | |e]; try (intros [= <-]; exact Hl).
  destruct (truthy (entry_name_reprojector e)).
  - destruct (key_of (entry_name_reprojector e)) as [k|exc]; cbn [bind];
      [|discriminate].
    intros [= <-]. apply normalise_entry_same; [exact Hl|].
    now apply apply_delta_same.
  - intros [= <-]. apply normalise_entry_same; [exact Hl|apply same_entry_refl].
Qed.

Lemma process_entries_normalise (offs : offsets) (entries entries' : list json)
    (l l' : keypoints) :
  null_offsets offs -> same_lookup l l' ->
  mapM (process_entry offs) entries = Ok entries' ->
  same_result same_lookup (normalise_entries l entries) (normalise_entries l' entries').
Proof.
  intro Hnull. revert entries' l l'.
  induction entries as [|entry rest IH]; intros entries' l l' Hl; cbn.
  - intros [= <-]. exact Hl.
  - destruct (process_entry offs entry) as [entry'|] eqn:Ee; cbn [bind];
      [|discriminate].
    destruct (mapM (process_entry offs) rest) as [rest'|] eqn:Er; cbn [bind];
      [|discriminate].
    intros [= <-]. cbn.
    pose proof (process_entry_normalise offs l l' entry entry' Hnull Hl Ee) as H1.
    destruct (normalise_entry l entry) as [l1|], (normalise_entry l' entry') as [l1'|];
      cbn in H1 |- *; try tauto.
    now apply IH.
Qed.

Lemma process_keypoints_normalise (offs : offsets) (container container' : json) :
  null_offsets offs ->
  _process_keypoints offs container = Ok container' ->
  same_result same_lookup (_normalise_keypoints container)
                          (_normalise_keypoints container').
Proof.
  intros Hnull. unfold _process_keypoints.
  destruct container as [| | | |entries|items];
    try (intros [= <-]; apply same_result_refl, same_lookup_refl).
  - destruct (mapM (process_entry offs) entries) as [entries'|] eqn:E; cbn [bind];
      [|discriminate].
    intros [= <-]. cbn.
    apply (process_entries_normalise offs entries entries'); auto. constructor.
  - intros [= <-]. cbn. apply process_items_normalise; auto. constructor.
Qed.

Lemma same_container_refl (o : option json) : same_container o o.
Proof.
  destruct o; cbn; [|exact I]. apply same_result_refl, same_lookup_refl.
Qed.

Lemma same_container_trans (o1 o2 o3 : option json) :
  same_container o1 o2 -> same_container o2 o3 -> same_container o1 o3.
Proof.
  destruct o1, o2, o3; cbn; try tauto.
  apply same_result_trans, same_lookup_trans.
Qed.

Lemma process_candidates_spec (offs : offsets) (names : list string)
    (holder holder' : dict) :
  null_offsets offs ->
  process_candidates offs names holder = Ok holder' ->
  (forall k, same_container (dict_get holder k) (dict_get holder' k))
  /\ (forall k, existsb (String.eqb k) names = false ->
                dict_get holder' k = dict_get holder k).
Proof.
  intro Hnull. revert holder.
  induction names as [|name rest IH]; intros holder; cbn [process_candidates].
  - intros [= <-]. split; [intro; apply same_container_refl|reflexivity].
  - destruct (dict_get holder name) as [container|] eqn:Ec.
    + destruct (_process_keypoints offs container) as [container'|] eqn:Ep;
        cbn [bind]; [|discriminate].
      intro H. destruct (IH _ H) as [IH1 IH2]. split.
      * intro k. eapply same_container_trans; [|apply IH1].
        rewrite dict_get_set. destruct (String.eqb name k) eqn:Ek.
        -- apply String.eqb_eq in Ek. subst k. rewrite Ec. cbn.
           now apply (process_keypoints_normalise offs).
        -- apply same_container_refl.
      * intros k Hk. cbn in Hk. apply orb_false_iff in Hk as [Hk1 Hk2].
        rewrite IH2 by exact Hk2. rewrite dict_get_set.
        now rewrite String.eqb_sym, Hk1.
    + intro H. destruct (IH _ H) as [IH1 IH2]. split; [exact IH1|].
      intros k Hk. cbn in Hk. apply orb_false_iff in Hk as [_ Hk2]. now apply IH2.
Qed.

Lemma scan_candidates_same (holder holder' : dict) (names : list string)
    (acc acc' : keypoints) :
  (forall k, In k names -> same_container (dict_get holder k) (dict_get holder' k)) ->
  same_lookup acc acc' ->
  same_result same_lookup (scan_candidates holder names acc)
                          (scan_candidates holder' names acc').
Proof.
  revert acc acc'.
  induction names as [|name rest IH]; intros acc acc' Hh Hacc; cbn; [exact Hacc|].
  pose proof (Hh name (or_introl eq_refl)) as Hc.
  assert (Hrest : forall k, In k rest ->
                    same_container (dict_get holder k) (dict_get holder' k))
    by (intros k Hk; apply Hh; now right).
  destruct (dict_get holder name) as [c|], (dict_get holder' name) as [c'|];
    cbn in Hc; try tauto; [|now apply IH].
  destruct (_normalise_keypoints c) as [l|], (_normalise_keypoints c') as [l'|];
    cbn in Hc |- *; try tauto.
  rewrite <- (same_lookup_empty l l' Hc).
  destruct (is_empty l); [now apply IH|exact Hc].
Qed.

Lemma mapM_head {A B : Type} (f : A -> result B) (a : A) (rest : list A)
    (bs : list B) :
  mapM f (a :: rest) = Ok bs ->
  exists b rest', bs = b :: rest' /\ f a = Ok b /\ mapM f rest = Ok rest'.
Proof.
  cbn. destruct (f a) as [b|]; cbn; [|discriminate].
  destruct (mapM f rest) as [rest'|]; cbn; [|discriminate].
  intros [= <-]. eauto.
Qed.

(** The keypoint map of the first person, before and after re-projection. *)
Lemma first_person_same (offs : offsets) (persons persons' : list json) :
  null_offsets offs ->
  mapM (process_person offs) persons = Ok persons' ->
  same_result same_lookup (first_person_keypoints (JList persons))
                          (first_person_keypoints (JList persons'))
  /\ is_empty persons' = is_empty persons.
Proof.
  intros Hnull H. destruct persons as [|person rest].
  - cbn in H. injection H as <-. split; [constructor|reflexivity].
  - apply mapM_head in H as (person' & rest' & -> & Hp & _).
    split; [|reflexivity].
    unfold process_person in Hp. destruct person as [| | | | |pe];
      try (injection Hp as <-; constructor).
    destruct (process_candidates offs candidate_keys pe) as [pe'|] eqn:E;
      cbn in Hp; [|discriminate].
    injection Hp as <-.
    apply scan_candidates_same; [|constructor].
    intros k _.
    apply (process_candidates_spec offs candidate_keys pe pe' Hnull E).
Qed.

Lemma first_person_not_list (v : json) :
  (forall xs, v <> JList xs) -> first_person_keypoints v = Ok [].
Proof. destruct v; intro H; try reflexivity. now destruct (H xs). Qed.

Lemma apply_null_offsets (offs : offsets) (p : dict) (adjusted : json) :
  null_offsets offs ->
  apply_keypoint_offsets_to_payload (JDict p) offs = Ok adjusted ->
  exists a,
    adjusted = JDict a
    /\ (forall k, existsb (String.eqb k) touched_keys = false ->
                  dict_get a k = dict_get p k)
    /\ same_result same_lookup (_build_keypoints_lookup (JDict p))
                               (_build_keypoints_lookup (JDict a)).
Proof.
  intros Hnull. unfold apply_keypoint_offsets_to_payload.
  destruct (is_empty offs).
  { intros [= <-]. exists p. split; [reflexivity|]. split; [reflexivity|].
    apply same_result_refl, same_lookup_refl. }
  cbv zeta.
  set (persons_key := if truthy (get p "persons") then "persons" else "people").
  set (P := py_or (get p "persons") (get p "people")).
  match goal with
  | |- bind ?m _ = _ -> _ => destruct m as [adjusted0|] eqn:E0
  end; cbn [bind]; [|discriminate].
  destruct (process_candidates offs candidate_keys adjusted0) as [a|] eqn:E1;
    cbn [bind]; [|discriminate].
  intros [= <-]. exists a. split; [reflexivity|].
  destruct (process_candidates_spec offs candidate_keys adjusted0 a Hnull E1)
    as [Hsame Huntouched].
  (* what the persons stage did *)
  assert (Hstage :
    (forall k, String.eqb persons_key k = false ->
               dict_get adjusted0 k = dict_get p k)
    /\ same_result same_lookup
         (first_person_keypoints P)
         (first_person_keypoints
            (py_or (get adjusted0 "persons") (get adjusted0 "people")))
    /\ (forall k, In k candidate_keys -> dict_get adjusted0 k = dict_get p k)).
  { destruct P as [| | | |persons|] eqn:EP;
      try (injection E0 as <-; split; [reflexivity|]; split; [|reflexivity];
           fold P; rewrite EP; apply same_result_refl, same_lookup_refl).
    destruct (mapM (process_person offs) persons) as [persons'|] eqn:Em;
      cbn [bind] in E0; [|discriminate].
    injection E0 as <-.
    destruct (first_person_same offs persons persons' Hnull Em) as [Hfirst Hempty].
    split; [intros k Hk; now rewrite dict_get_set, Hk|]. split.
    - assert (HP' : py_or (get (dict_set p persons_key (JList persons')) "persons")
                          (get (dict_set p persons_key (JList persons')) "people")
                    = JList persons').
      { subst persons_key P. unfold py_or in EP |- *.
        destruct (truthy (get p "persons")) eqn:Et.
        - rewrite get_set_same.
          rewrite EP in Et. cbn in Et |- *.
          destruct persons; [discriminate|].
          destruct persons'; [discriminate|reflexivity].
        - rewrite (get_set_other p "people" "persons") by reflexivity.
          rewrite Et. apply get_set_same. }
      rewrite HP'. exact Hfirst.
    - intros k Hk. rewrite dict_get_set.
      assert (Hne : String.eqb persons_key k = false).
      { subst persons_key. cbn in Hk.
        destruct Hk as [<-|[<-|[<-|[]]]];
          destruct (truthy (get p "persons")); reflexivity. }
      now rewrite Hne. }
  destruct Hstage as (Hother & Hfirst & Hcand).
  split.
  - intros k Hk. rewrite Huntouched.
    + apply Hother. subst persons_key. cbn in Hk.
      apply orb_false_iff in Hk as [Hk1 Hk].
      apply orb_false_iff in Hk as [Hk2 _].
      rewrite String.eqb_sym.
      destruct (truthy (get p "persons")); assumption.
    + cbn in Hk |- *. apply orb_false_iff in Hk as [_ Hk].
      apply orb_false_iff in Hk as [_ Hk]. exact Hk.
  - unfold _build_keypoints_lookup. fold P.
    assert (Hpa : py_or (get a "persons") (get a "people")
                  = py_or (get adjusted0 "persons") (get adjusted0 "people")).
    { unfold get. now rewrite !Huntouched by reflexivity. }
    rewrite Hpa.
    destruct (first_person_keypoints P) as [kl|],
             (first_person_keypoints
                (py_or (get adjusted0 "persons") (get adjusted0 "people")))
               as [kl'|];
      cbn [bind same_result] in Hfirst |- *; try tauto.
    rewrite <- (same_lookup_empty kl kl' Hfirst).
    destruct (is_empty kl); [|exact Hfirst].
    apply scan_candidates_same; [|exact Hfirst].
    intros k Hk. rewrite <- (Hcand k Hk). apply Hsame.
Qed.

Lemma extract_angles_local (c c' : dict) :
  (forall k, In k angle_keys -> dict_get c' k = dict_get c k) ->
  _extract_angles (JDict c') = _extract_angles (JDict c).
Proof.
  intro H. unfold _extract_angles, float_angles, angle_keys, has_key, get.
  cbn [forallb].
  rewrite (H "neck"), (H "back"), (H "legs") by (cbn; tauto).
  reflexivity.
Qed.

Lemma scan_angle_fields_local
    (extract : json -> result (option (by_region Q)))
    (p a : dict) (names : list string) :
  (forall k, In k names -> dict_get a k = dict_get p k) ->
  scan_angle_fields extract a names = scan_angle_fields extract p names.
Proof.
  induction names as [|k rest IH]; intro H; cbn; [reflexivity|].
  unfold get. rewrite (H k) by now left.
  destruct (extract _) as [[angles|]|]; cbn; try reflexivity.
  apply IH. intros k' Hk'. apply H. now right.
Qed.

(** Re-projection by null offsets does not change the angles read from a
    payload. *)
Lemma get_angles_after_null_offsets (offs : offsets) (raw adjusted : json) :
  null_offsets offs ->
  apply_keypoint_offsets_to_payload raw offs = Ok adjusted ->
  get_angles_from_payload adjusted = get_angles_from_payload raw.
Proof.
  intros Hnull Happly.
  destruct raw as [| | | | |p]; try (cbn in Happly; now injection Happly as <-).
  destruct (apply_null_offsets offs p adjusted Hnull Happly)
    as (a & -> & Huntouched & Hlookup).
  unfold get_angles_from_payload, get_angles_with.
  rewrite (scan_angle_fields_local _ p a) by
    (intros k Hk; apply Huntouched; cbn in Hk;
     destruct Hk as [<-|[<-|[<-|[]]]]; reflexivity).
  rewrite (extract_angles_local p a) by
    (intros k Hk; apply Huntouched; cbn in Hk;
     destruct Hk as [<-|[<-|[<-|[]]]]; reflexivity).
  match goal with
  | |- bind ?m _ = _ => destruct m as [[direct|]|]
  end; cbn [bind]; try reflexivity.
  destruct (_build_keypoints_lookup (JDict p)) as [l|],
           (_build_keypoints_lookup (JDict a)) as [l'|];
    cbn [bind same_result] in Hlookup |- *; try tauto; [|congruence].
  rewrite <- (same_lookup_empty l l' Hlookup).
  now rewrite (same_lookup_geometric_angles l l' Hlookup).
Qed.

(** ** Coordinate offsets of a reference against itself *)

Lemma key_eqb_refl (k : key) : key_eqb k k = true.
Proof.
  destruct k; cbn; [reflexivity| |apply String.eqb_refl].
  apply Qeq_bool_iff. reflexivity.
Qed.

Lemma key_eqb_sym (k k' : key) : key_eqb k k' = key_eqb k' k.
Proof.
  destruct k, k'; cbn; try reflexivity; [|apply String.eqb_sym].
  destruct (Qeq_bool q q0) eqn:E, (Qeq_bool q0 q) eqn:E'; try reflexivity.
  - apply Qeq_bool_iff in E. symmetry in E. apply Qeq_bool_iff in E. congruence.
  - apply Qeq_bool_iff in E'. symmetry in E'. apply Qeq_bool_iff in E'. congruence.
Qed.

Lemma key_eqb_trans (k1 k2 k3 : key) :
  key_eqb k1 k2 = true -> key_eqb k2 k3 = true -> key_eqb k1 k3 = true.
Proof.
  destruct k1, k2, k3; cbn; try congruence.
  - rewrite !Qeq_bool_iff. intros H1 H2. now rewrite H1.
  - rewrite !String.eqb_eq. congruence.
Qed.

Section LookupFacts.

Context {A : Type}.

Lemma lookup_get_set (l : list (key * A)) (k k' : key) (v : A) :
  lookup_get (lookup_set l k v) k'
  = if key_eqb k k' then Some v else lookup_get l k'.
Proof.
  induction l as [|[k0 v0] rest IH]; cbn.
  - reflexivity.
  - destruct (key_eqb k0 k) eqn:E0; cbn.
    + destruct (key_eqb k0 k') eqn:E1.
      * rewrite key_eqb_sym in E0.
        now rewrite (key_eqb_trans _ _ _ E0 E1).
      * destruct (key_eqb k k') eqn:E2; [|reflexivity].
        now rewrite (key_eqb_trans _ _ _ E0 E2) in E1.
    + rewrite IH. destruct (key_eqb k0 k') eqn:E1; [|reflexivity].
      destruct (key_eqb k k') eqn:E2; [|reflexivity].
      rewrite key_eqb_sym in E2.
      now rewrite (key_eqb_trans _ _ _ E1 E2) in E0.
Qed.

Lemma lookup_set_distinct (l : list (key * A)) (k : key) (v : A) :
  distinct_keys l -> distinct_keys (lookup_set l k v).
Proof.
  induction l as [|[k0 v0] rest IH]; cbn.
  - auto.
  - intros [Hk0 Hrest]. destruct (key_eqb k0 k) eqn:E; cbn.
    + auto.
    + split; [|now apply IH].
      rewrite lookup_get_set. rewrite key_eqb_sym in E. now rewrite E.
Qed.

Lemma lookup_get_in (l : list (key * A)) (k : key) (v : A) :
  distinct_keys l -> In (k, v) l -> lookup_get l k = Some v.
Proof.
  induction l as [|[k0 v0] rest IH]; cbn; [tauto|].
  intros [Hk0 Hrest] [[= -> ->]|Hin].
  - now rewrite key_eqb_refl.
  - destruct (key_eqb k0 k) eqn:E; [|now apply IH].
    exfalso. specialize (IH Hrest Hin).
    clear Hin Hrest. induction rest as [|[k1 v1] rest IHr]; cbn in *;
      [discriminate|].
    destruct (key_eqb k1 k0) eqn:E0; [discriminate|].
    destruct (key_eqb k1 k) eqn:E1; [|now apply IHr].
    rewrite key_eqb_sym in E.
    now rewrite (key_eqb_trans _ _ _ E1 E) in E0.
Qed.

Lemma lookup_set_Forall (P : A -> Prop) (l : list (key * A)) (k : key) (v : A) :
  Forall (fun item => P (snd item)) l -> P v ->
  Forall (fun item => P (snd item)) (lookup_set l k v).
Proof.
  intros Hl Hv. induction Hl as [|[k0 v0] rest H0 Hrest IH]; cbn.
  - constructor; [exact Hv|constructor].
  - destruct (key_eqb k0 k); constructor; auto.
Qed.

End LookupFacts.

Lemma zero_delta_null (d : delta) : zero_delta d -> null_delta d.
Proof. intros (a & b & -> & Ha & Hb). split; assumption. Qed.

Lemma extract_keypoint_coordinates_distinct (lookup : keypoints) :
  distinct_keys (extract_keypoint_coordinates lookup).
Proof.
  unfold extract_keypoint_coordinates.
  assert (H : distinct_keys (@nil (key * coord))) by exact I.
  revert H. generalize (@nil (key * coord)).
  induction lookup as [|item rest IH]; intros coords H; cbn; [exact H|].
  apply IH. destruct (float_xy (snd item)); [now apply lookup_set_distinct|exact H].
Qed.

Lemma load_keypoint_coordinates_distinct (fs : filesystem) (filepath : string)
    (m : coordinates) :
  load_keypoint_coordinates fs filepath = Ok m -> distinct_keys m.
Proof.
  unfold load_keypoint_coordinates, extract_keypoint_coordinates_from_payload.
  destruct (load_json fs filepath) as [payload|]; [|intros [= <-]; exact I].
  destruct (_build_keypoints_lookup payload) as [lookup|]; cbn; [|discriminate].
  intros [= <-]. apply extract_keypoint_coordinates_distinct.
Qed.

Lemma fold_offsets_zero (personal_map items : coordinates) (offs : offsets) :
  (forall name bp pp, In (name, bp) items ->
                      lookup_get personal_map name = Some pp -> same_coord pp bp) ->
  Forall (fun item => zero_delta (snd item)) offs ->
  Forall (fun item => zero_delta (snd item))
    (fold_left
       (fun offs item =>
          let '(name, base_point) := item in
          match lookup_get personal_map name with
          | None => offs
          | Some personal_point =>
              let delta_x := cx personal_point - cx base_point in
              let delta_y := cy personal_point - cy base_point in
              lookup_set offs name (mk_delta (Some delta_x) (Some delta_y))
          end)
       items offs).
Proof.
  revert offs. induction items as [|[name bp] rest IH]; intros offs Hin Hacc; cbn;
    [exact Hacc|].
  apply IH; [intros n b q Hn; apply Hin; now right|].
  destruct (lookup_get personal_map name) as [pp|] eqn:Ep; [|exact Hacc].
  destruct (Hin name bp pp (or_introl eq_refl) Ep) as [Hx Hy].
  apply lookup_set_Forall; [exact Hacc|].
  exists (cx pp - cx bp), (cy pp - cy bp). repeat split.
  - rewrite Hx. ring.
  - rewrite Hy. ring.
Qed.

Lemma compute_offsets_of_same_maps (base_map personal_map : coordinates) :
  distinct_keys base_map ->
  same_coordinates personal_map base_map ->
  Forall (fun item => zero_delta (snd item))
         (compute_keypoint_coordinate_offsets base_map personal_map).
Proof.
  intros Hdistinct Hsame. unfold compute_keypoint_coordinate_offsets.
  destruct (is_empty base_map || is_empty personal_map)%bool; [constructor|].
  apply fold_offsets_zero; [|constructor].
  intros name bp pp Hin Hpp.
  pose proof (Hsame name) as Hk.
  rewrite Hpp, (lookup_get_in base_map name bp Hdistinct Hin) in Hk.
  exact Hk.
Qed.

Lemma add_zero_offsets (current : by_region R) :
  add_offsets current zero_offsets = current.
Proof.
  destruct current. unfold add_offsets, tabulate, zero_offsets. cbn.
  f_equal; ring.
Qed.

Lemma adjusted_angles_under_null_offsets (raw : json) (offs : offsets) :
  null_offsets offs ->
  adjusted_angles_of_capture raw zero_offsets offs
  = do current <- get_angles_from_payload raw;
    match current with
    | None => Ok None
    | Some current_angles =>
        do _ <- apply_keypoint_offsets_to_payload raw offs;
        Ok (Some current_angles)
    end.
Proof.
  intro Hnull. unfold adjusted_angles_of_capture.
  destruct (get_angles_from_payload raw) as [[current|]|] eqn:Ec; cbn [bind];
    try reflexivity.
  destruct (apply_keypoint_offsets_to_payload raw offs) as [adjusted|] eqn:Ea;
    cbn [bind]; [|reflexivity].
  rewrite (get_angles_after_null_offsets offs raw adjusted Hnull Ea), Ec.
  reflexivity.
Qed.

(** C8. When the personal reference resolves to the angles and to the
    keypoint coordinates of the baseline, the angle offsets are all zero,
    every keypoint coordinate offset is (0, 0), and for every capture
    whose angles can be read the adjusted angles are the raw angles (the
    capture is skipped when they cannot, and an exception of the
    re-projection is passed on). *)
Theorem calibration_identity
    (fs : filesystem) (base_path : string) (personal_path : option string)
    (res : resolution) (base_map personal_map : coordinates)
    (Hres : resolve_reference_angles fs base_path personal_path = Ok (Some res))
    (Hangles : personal_angles res = base_angles res)
    (Hbase : load_keypoint_coordinates fs base_path = Ok base_map)
    (Hpersonal : load_keypoint_coordinates fs (resolved_personal_path res)
                 = Ok personal_map)
    (Hcoords : same_coordinates personal_map base_map) :
  let keypoint_coordinate_offsets :=
    compute_keypoint_coordinate_offsets base_map personal_map in
  angle_offsets res = zero_offsets
  /\ Forall (fun item => zero_delta (snd item)) keypoint_coordinate_offsets
  /\ (forall raw,
         adjusted_angles_of_capture raw (angle_offsets res)
                                    keypoint_coordinate_offsets
         = do current <- get_angles_from_payload raw;
           match current with
           | None => Ok None
           | Some current_angles =>
               do _ <- apply_keypoint_offsets_to_payload
                         raw keypoint_coordinate_offsets;
               Ok (Some current_angles)
           end)
  /\ (forall raw adjusted_angles,
         adjusted_angles_of_capture raw (angle_offsets res)
                                    keypoint_coordinate_offsets
         = Ok (Some adjusted_angles) ->
         get_angles_from_payload raw = Ok (Some adjusted_angles)).
Proof.
  intro kco.
  assert (Hzero : angle_offsets res = zero_offsets).
  { destruct (resolve_reference_angles_contract fs base_path personal_path)
      as (_ & Hoff & _).
    destruct (Hoff res Hres) as [_ Hat].
    destruct res as [b p o path]. cbn in *. subst p.
    destruct o as [on ob ol]. unfold zero_offsets.
    pose proof (Hat Neck) as Hn. pose proof (Hat Back) as Hb.
    pose proof (Hat Legs) as Hl. cbn in Hn, Hb, Hl.
    f_equal; [rewrite Hn|rewrite Hb|rewrite Hl]; ring. }
  assert (Hkco : Forall (fun item => zero_delta (snd item)) kco).
  { apply compute_offsets_of_same_maps; [|exact Hcoords].
    now apply (load_keypoint_coordinates_distinct fs base_path). }
  assert (Hnull : null_offsets kco).
  { unfold null_offsets. eapply Forall_impl; [|exact Hkco].
    intros item. apply zero_delta_null. }
  assert (Heq : forall raw,
             adjusted_angles_of_capture raw (angle_offsets res) kco
             = do current <- get_angles_from_payload raw;
               match current with
               | None => Ok None
               | Some current_angles =>
                   do _ <- apply_keypoint_offsets_to_payload raw kco;
                   Ok (Some current_angles)
               end).
  { intro raw. rewrite Hzero. now apply adjusted_angles_under_null_offsets. }
  split; [exact Hzero|]. split; [exact Hkco|]. split; [exact Heq|].
  intros raw adjusted_angles H. rewrite Heq in H.
  destruct (get_angles_from_payload raw) as [[current|]|]; cbn [bind] in H;
    try discriminate.
  destruct (apply_keypoint_offsets_to_payload raw kco); cbn [bind] in H;
    [|discriminate].
  exact H.
Qed.

Lemma same_coordinates_refl (m : coordinates) : same_coordinates m m.
Proof.
  intro k. destruct (lookup_get m k); [|exact I]. split; reflexivity.
Qed.

Lemma calibration_identity_witness :
  angle_offsets sample_resolution = zero_offsets
  /\ adjusted_angles_of_capture capture_payload (angle_offsets sample_resolution)
       (compute_keypoint_coordinate_offsets reference_coordinates
                                            reference_coordinates)
     = get_angles_from_payload capture_payload.
Proof.
  pose proof
    (calibration_identity sample_files "trainGBM/reference_posture.json"
       (Some "user_profiles/u1/reference_posture.json")
       sample_resolution reference_coordinates reference_coordinates
       eq_refl eq_refl eq_refl eq_refl
       (same_coordinates_refl reference_coordinates)) as H.
  cbv zeta in H. destruct H as (Hzero & _ & Heq & _).
  split; [exact Hzero|]. rewrite Heq. reflexivity.
Defined.


Lemma resolver_meets_contract_witness :
  resolve_reference_angles sample_files "trainGBM/reference_posture.json"
    (Some "user_profiles/u2/reference_posture.json") = Ok (Some fallback_resolution)
  /\ personal_angles fallback_resolution = base_angles fallback_resolution
  /\ angle_offsets fallback_resolution = zero_offsets
  /\ resolve_reference_angles sample_files "trainGBM/missing.json"
       (Some "user_profiles/u1/reference_posture.json") = Ok None.
Proof.
  destruct (resolver_meets_contract sample_files "trainGBM/reference_posture.json")
    as [Hlight _].
  destruct (Hlight (Some "user_profiles/u2/reference_posture.json"))
    as (_ & _ & Hfallback).
  assert (Hres : resolve_reference_angles sample_files
                   "trainGBM/reference_posture.json"
                   (Some "user_profiles/u2/reference_posture.json")
                 = Ok (Some fallback_resolution)) by reflexivity.
  destruct (Hfallback fallback_resolution Hres (or_intror eq_refl)) as [Hp Ho].
  split; [exact Hres|]. split; [exact Hp|]. split; [exact Ho|].
  destruct (resolver_meets_contract sample_files "trainGBM/missing.json")
    as [Hmissing _].
  destruct (Hmissing (Some "user_profiles/u1/reference_posture.json"))
    as (Hnone & _).
  apply Hnone. reflexivity.
Defined.

Lemma nth_error_update_same (h : heap) (l : nat) (o : obj) :
  (l < List.length h)%nat -> nth_error (update h l o) l = Some o.
Proof.
  revert l. induction h as [|x rest IH]; intros l Hl; cbn in *; [lia|].
  destruct l; cbn; [reflexivity|]. apply IH. lia.
Qed.

Lemma nth_error_update_other (h : heap) (l l' : nat) (o : obj) :
  l <> l' -> nth_error (update h l o) l' = nth_error h l'.
Proof.
  revert l l'. induction h as [|x rest IH]; intros l l' Hne; cbn.
  - reflexivity.
  - destruct l, l'; cbn; try reflexivity; [congruence|]. apply IH. congruence.
Qed.

Lemma length_update (h : heap) (l : nat) (o : obj) :
  List.length (update h l o) = List.length h.
Proof.
  revert l. induction h as [|x rest IH]; intros l; cbn; [reflexivity|].
  destruct l; cbn; [reflexivity|]. now rewrite IH.
Qed.

Lemma nth_error_alloc_old (h : heap) (o : obj) (l : nat) :
  (l < List.length h)%nat -> nth_error (h ++ [o]) l = nth_error h l.
Proof. intro H. now apply nth_error_app1. Qed.

Lemma nth_error_alloc_new (h : heap) (o : obj) :
  nth_error (h ++ [o]) (List.length h) = Some o.
Proof. rewrite nth_error_app2 by lia. now rewrite Nat.sub_diag. Qed.

Lemma nth_error_bound (h : heap) (l : nat) (o : obj) :
  nth_error h l = Some o -> (l < List.length h)%nat.
Proof. intro H. apply nth_error_Some. congruence. Qed.

(** ** Trees of cells *)

Section NodeInduction.

Variable P : node -> Prop.
Hypothesis Hatom : forall v, P (NAtom v).
Hypothesis Hlist : forall l items, Forall P items -> P (NList l items).
Hypothesis Hdict :
  forall l items, Forall (fun item => P (snd item)) items -> P (NDict l items).

Lemma node_induction (n : node) : P n.
Proof.
  revert n. fix IH 1. intros [v|l items|l items].
  - apply Hatom.
  - apply Hlist.
    induction items as [|n' rest IHrest]; constructor; [apply IH | exact IHrest].
  - apply Hdict.
    induction items as [|item rest IHrest]; constructor; [apply IH | exact IHrest].
Qed.

End NodeInduction.

Lemma in_heap_list (h : heap) (l : nat) (items : list node) :
  in_heap h (NList l items)
  <-> nth_error h l = Some (OList (map val_of items)) /\ Forall (in_heap h) items.
Proof.
  cbn. split; intros [Hcell Hall]; (split; [exact Hcell|]).
  - clear Hcell. induction items as [|n rest IH]; [constructor|].
    destruct Hall as [Hn Hrest]. constructor; [exact Hn|now apply IH].
  - clear Hcell. induction Hall; [exact I|]. split; assumption.
Qed.

Lemma in_heap_dict (h : heap) (l : nat) (items : list (string * node)) :
  in_heap h (NDict l items)
  <-> nth_error h l = Some (ODict (map_values val_of items))
      /\ Forall (fun item => in_heap h (snd item)) items.
Proof.
  cbn. split; intros [Hcell Hall]; (split; [exact Hcell|]).
  - clear Hcell. induction items as [|n rest IH]; [constructor|].
    destruct Hall as [Hn Hrest]. constructor; [exact Hn|now apply IH].
  - clear Hcell. induction Hall; [exact I|]. split; assumption.
Qed.

Lemma in_heap_bound (h : heap) (n : node) :
  in_heap h n -> forall l, In l (locs n) -> (l < List.length h)%nat.
Proof.
  induction n as [v|l0 items IH|l0 items IH] using node_induction; intros Hn l Hl.
  - cbn in Hl. destruct Hl.
  - apply in_heap_list in Hn as [Hcell Hall]. cbn in Hl. destruct Hl as [<-|Hl].
    + now apply nth_error_bound in Hcell.
    + apply in_flat_map in Hl as (c & Hc & Hl).
      rewrite Forall_forall in IH, Hall. now apply (IH c Hc (Hall c Hc)).
  - apply in_heap_dict in Hn as [Hcell Hall]. cbn in Hl. destruct Hl as [<-|Hl].
    + now apply nth_error_bound in Hcell.
    + apply in_flat_map in Hl as (c & Hc & Hl).
      rewrite Forall_forall in IH, Hall. now apply (IH c Hc (Hall c Hc)).
Qed.

(** A tree stays in the store when its cells are left alone. *)
Lemma in_heap_frame (h h' : heap) (n : node) :
  (forall l, In l (locs n) -> nth_error h' l = nth_error h l) ->
  in_heap h n -> in_heap h' n.
Proof.
  induction n as [v|l0 items IH|l0 items IH] using node_induction; intros Hsame Hn.
  - exact Hn.
  - apply in_heap_list in Hn as [Hcell Hall]. apply in_heap_list. split.
    + rewrite Hsame by (cbn; now left). exact Hcell.
    + rewrite Forall_forall in IH, Hall |- *. intros c Hc.
      apply (IH c Hc); [|now apply Hall].
      intros l Hl. apply Hsame. cbn. right. apply in_flat_map. eauto.
  - apply in_heap_dict in Hn as [Hcell Hall]. apply in_heap_dict. split.
    + rewrite Hsame by (cbn; now left). exact Hcell.
    + rewrite Forall_forall in IH, Hall |- *. intros c Hc.
      apply (IH c Hc); [|now apply Hall].
      intros l Hl. apply Hsame. cbn. right. apply in_flat_map. eauto.
Qed.

(** ** Values of the store and payloads *)

Lemma store_float (h : heap) (n : node) :
  in_heap h n -> Store.py_float (val_of n) = py_float (erase n).
Proof.
  destruct n as [v| |]; [|reflexivity..].
  cbn. intro H. destruct v; try reflexivity; discriminate.
Qed.

Lemma store_is_None (h : heap) (n : node) :
  in_heap h n -> Store.is_None (val_of n) = is_None (erase n).
Proof.
  destruct n as [v| |]; [|reflexivity..].
  cbn. intro H. destruct v; try reflexivity; discriminate.
Qed.

Lemma store_key_of (h : heap) (n : node) :
  in_heap h n -> Store.key_of (val_of n) = key_of (erase n).
Proof.
  destruct n as [v| |]; [|reflexivity..].
  cbn. intro H. destruct v; try reflexivity; discriminate.
Qed.

Lemma store_truthy (h : heap) (n : node) :
  in_heap h n -> Store.truthy h (val_of n) = truthy (erase n).
Proof.
  destruct n as [v|l items|l items].
  - cbn. intro H. destruct v; try reflexivity; discriminate.
  - intro H. apply in_heap_list in H as [Hcell _]. cbn. rewrite Hcell.
    destruct items; reflexivity.
  - intro H. apply in_heap_dict in H as [Hcell _]. cbn. rewrite Hcell.
    destruct items; reflexivity.
Qed.

Lemma dict_get_map_values {A B : Type} (f : A -> B) (items : list (string * A))
    (k : string) :
  dict_get (map_values f items) k = option_map f (dict_get items k).
Proof.
  induction items as [|[k0 v0] rest IH]; cbn; [reflexivity|].
  destruct (String.eqb k0 k); [reflexivity|exact IH].
Qed.

Lemma dict_set_map_values {A B : Type} (f : A -> B) (items : list (string * A))
    (k : string) (x : A) :
  dict_set (map_values f items) k (f x) = map_values f (dict_set items k x).
Proof.
  induction items as [|[k0 v0] rest IH]; cbn; [reflexivity|].
  destruct (String.eqb k0 k); cbn; [reflexivity|]. f_equal. exact IH.
Qed.

Lemma store_get (items : list (string * node)) (k : string) :
  Store.get (map_values val_of items) k = val_of (child items k).
Proof.
  unfold Store.get, child. rewrite dict_get_map_values.
  destruct (dict_get items k); reflexivity.
Qed.

Lemma tree_get (items : list (string * node)) (k : string) :
  get (map_values erase items) k = erase (child items k).
Proof.
  unfold get, child. rewrite dict_get_map_values.
  destruct (dict_get items k); reflexivity.
Qed.

Lemma dict_get_in {A : Type} (items : list (string * A)) (k : string) (c : A) :
  dict_get items k = Some c -> In (k, c) items.
Proof.
  induction items as [|[k0 v0] rest IH]; cbn; [discriminate|].
  destruct (String.eqb k0 k) eqn:E.
  - apply String.eqb_eq in E. intros [= ->]. left. congruence.
  - intro H. right. now apply IH.
Qed.

Lemma child_in_heap (h : heap) (items : list (string * node)) (k : string) :
  Forall (fun item => in_heap h (snd item)) items -> in_heap h (child items k).
Proof.
  intro Hall. unfold child. destruct (dict_get items k) as [c|] eqn:E; [|reflexivity].
  apply dict_get_in in E. rewrite Forall_forall in Hall. apply (Hall _ E).
Qed.

(** The first binding of a key splits the items around it. *)
Lemma dict_get_split {A : Type} (items : list (string * A)) (k : string) (c : A) :
  dict_get items k = Some c ->
  exists before after,
    items = (before ++ (k, c) :: after)%list
    /\ forall x, dict_set items k x = (before ++ (k, x) :: after)%list.
Proof.
  induction items as [|[k0 v0] rest IH]; cbn; [discriminate|].
  destruct (String.eqb k0 k) eqn:E.
  - apply String.eqb_eq in E. subst k0. intros [= ->].
    exists [], rest. split; [reflexivity|]. intro x. reflexivity.
  - intro H. destruct (IH H) as (before & after & -> & Hset).
    exists ((k0, v0) :: before), after. split; [reflexivity|].
    intro x. cbn. now rewrite Hset.
Qed.

(** ** Updates of a tree in place *)

Lemma updates_refl (h : heap) (n : node) :
  in_heap h n -> NoDup (locs n) -> updates h n h n.
Proof. intros Hn Hnd. repeat split; auto. Qed.

Lemma updates_trans (h h1 h2 : heap) (n n1 n2 : node) :
  updates h n h1 n1 -> updates h1 n1 h2 n2 -> updates h n h2 n2.
Proof.
  intros (Hin1 & Hnd1 & Hv1 & Hsub1 & Hfr1 & Hlen1)
         (Hin2 & Hnd2 & Hv2 & Hsub2 & Hfr2 & Hlen2).
  repeat split; auto; try congruence; try lia.
  - intros l Hl. destruct (Hsub2 l Hl) as [H|H]; [now apply Hsub1|right; lia].
  - intros l Hl Hnot. rewrite Hfr2; [now apply Hfr1|lia|].
    intro H. destruct (Hsub1 l H) as [H'|H']; [contradiction|lia].
Qed.

Lemma NoDup_app_disjoint (A B : list nat) :
  NoDup (A ++ B) -> forall x, In x A -> ~ In x B.
Proof.
  induction A as [|a A IH]; cbn; intros Hnd x Hx; [destruct Hx|].
  apply NoDup_cons_iff in Hnd as [Ha Hnd]. destruct Hx as [<-|Hx].
  - intro HB. apply Ha. apply in_or_app. now right.
  - now apply IH.
Qed.

Lemma NoDup_replace_middle (A B B' C : list nat) (bound : nat) :
  NoDup (A ++ B ++ C) ->
  NoDup B' ->
  (forall x, In x (A ++ B ++ C) -> (x < bound)%nat) ->
  (forall x, In x B' -> In x B \/ (bound <= x)%nat) ->
  NoDup (A ++ B' ++ C).
Proof.
  intros Hnd Hnd' Hbound Hsub.
  assert (HA : NoDup A) by (apply NoDup_app_remove_r in Hnd; exact Hnd).
  assert (HBC : NoDup (B ++ C)) by (apply NoDup_app_remove_l in Hnd; exact Hnd).
  assert (HC : NoDup C) by (apply NoDup_app_remove_l in HBC; exact HBC).
  pose proof (NoDup_app_disjoint _ _ Hnd) as HdA.
  pose proof (NoDup_app_disjoint _ _ HBC) as HdB.
  assert (Hdisj : forall x, In x B' -> ~ In x A /\ ~ In x C).
  { intros x Hx. destruct (Hsub x Hx) as [HB|Hfresh].
    - split.
      + intro HxA. apply (HdA x HxA). apply in_or_app. now left.
      + now apply HdB.
    - split; intro Hin; (assert (x < bound)%nat; [|lia]); apply Hbound;
        apply in_or_app; [now left|right; apply in_or_app; now right]. }
  apply NoDup_app; [exact HA| |].
  - apply NoDup_app; [exact Hnd'|exact HC|].
    intros x Hx. apply (proj2 (Hdisj x Hx)).
  - intros x Hx Hx'. apply in_app_or in Hx' as [Hx'|Hx'].
    + apply (proj1 (Hdisj x Hx') Hx).
    + apply (HdA x Hx). apply in_or_app. now right.
Qed.

Local Open Scope list_scope.

Lemma locs_dict_split (l : nat) (before after : list (string * node))
    (k : string) (c : node) :
  locs (NDict l (before ++ (k, c) :: after))
  = (l :: flat_map (fun item => locs (snd item)) before)
      ++ locs c ++ flat_map (fun item => locs (snd item)) after.
Proof. cbn. now rewrite flat_map_app. Qed.

Lemma locs_list_split (l : nat) (before after : list node) (c : node) :
  locs (NList l (before ++ c :: after))
  = (l :: flat_map locs before) ++ locs c ++ flat_map locs after.
Proof. cbn. now rewrite flat_map_app. Qed.

Lemma map_values_split {A B : Type} (f : A -> B) (before after : list (string * A))
    (k : string) (c : A) :
  map_values f (before ++ (k, c) :: after)
  = (map_values f before ++ (k, f c) :: map_values f after)%list.
Proof. unfold Store.map_values. now rewrite map_app. Qed.

(** An update of a child is an update of the dict that holds it. *)
Lemma updates_dict_child (h h' : heap) (l : nat)
    (before after : list (string * node)) (k : string) (c c' : node) :
  in_heap h (NDict l (before ++ (k, c) :: after)) ->
  NoDup (locs (NDict l (before ++ (k, c) :: after))) ->
  updates h c h' c' ->
  updates h (NDict l (before ++ (k, c) :: after))
          h' (NDict l (before ++ (k, c') :: after)).
Proof.
  intros Hn Hnd (Hin' & Hnd' & Hv & Hsub & Hfr & Hlen).
  pose proof (in_heap_bound h _ Hn) as Hbound.
  rewrite locs_dict_split in Hnd, Hbound.
  pose proof (NoDup_app_disjoint _ _ Hnd) as HdA.
  assert (HBC : NoDup (locs c ++ flat_map (fun item => locs (snd item)) after))
    by (apply NoDup_app_remove_l in Hnd; exact Hnd).
  pose proof (NoDup_app_disjoint _ _ HBC) as HdB.
  apply in_heap_dict in Hn as [Hcell Hall].
  assert (Hkeep : forall x,
             In x (l :: flat_map (fun item => locs (snd item)) before)
             \/ In x (flat_map (fun item => locs (snd item)) after) ->
             nth_error h' x = nth_error h x).
  { intros x Hx. apply Hfr.
    - apply Hbound. destruct Hx as [Hx|Hx]; apply in_or_app;
        [now left|right; apply in_or_app; now right].
    - intro Hc. destruct Hx as [Hx|Hx].
      + apply (HdA x Hx). apply in_or_app. now left.
      + now apply (HdB x Hc). }
  split; [|split; [|split; [|split; [|split]]]].
  - apply in_heap_dict. split.
    + rewrite Hkeep by (left; now left).
      rewrite Hcell, !map_values_split. now rewrite Hv.
    + apply Forall_app in Hall as [Hbefore Hafter].
      apply Forall_cons_iff in Hafter as [_ Hafter].
      apply Forall_app. split; [|constructor; [exact Hin'|]].
      * rewrite Forall_forall in Hbefore |- *. intros item Hitem.
        apply (in_heap_frame h); [|now apply Hbefore].
        intros x Hx. apply Hkeep. left. right. apply in_flat_map. eauto.
      * rewrite Forall_forall in Hafter |- *. intros item Hitem.
        apply (in_heap_frame h); [|now apply Hafter].
        intros x Hx. apply Hkeep. right. apply in_flat_map. eauto.
  - rewrite locs_dict_split.
    apply (NoDup_replace_middle _ (locs c) _ _ (List.length h)); assumption.
  - reflexivity.
  - intros x Hx. rewrite locs_dict_split in Hx |- *.
    apply in_app_or in Hx as [Hx|Hx]; [left; apply in_or_app; now left|].
    apply in_app_or in Hx as [Hx|Hx].
    + destruct (Hsub x Hx) as [H|H]; [|now right].
      left. apply in_or_app. right. apply in_or_app. now left.
    + left. apply in_or_app. right. apply in_or_app. now right.
  - intros x Hx Hnot. apply Hfr; [exact Hx|].
    intro Hc. apply Hnot. rewrite locs_dict_split.
    apply in_or_app. right. apply in_or_app. now left.
  - exact Hlen.
Qed.

(** An update of an item is an update of the list that holds it. *)
Lemma updates_list_child (h h' : heap) (l : nat)
    (before after : list node) (c c' : node) :
  in_heap h (NList l (before ++ c :: after)) ->
  NoDup (locs (NList l (before ++ c :: after))) ->
  updates h c h' c' ->
  updates h (NList l (before ++ c :: after))
          h' (NList l (before ++ c' :: after)).
Proof.
  intros Hn Hnd (Hin' & Hnd' & Hv & Hsub & Hfr & Hlen).
  pose proof (in_heap_bound h _ Hn) as Hbound.
  rewrite locs_list_split in Hnd, Hbound.
  pose proof (NoDup_app_disjoint _ _ Hnd) as HdA.
  assert (HBC : NoDup (locs c ++ flat_map locs after))
    by (apply NoDup_app_remove_l in Hnd; exact Hnd).
  pose proof (NoDup_app_disjoint _ _ HBC) as HdB.
  apply in_heap_list in Hn as [Hcell Hall].
  assert (Hkeep : forall x,
             In x (l :: flat_map locs before) \/ In x (flat_map locs after) ->
             nth_error h' x = nth_error h x).
  { intros x Hx. apply Hfr.
    - apply Hbound. destruct Hx as [Hx|Hx]; apply in_or_app;
        [now left|right; apply in_or_app; now right].
    - intro Hc. destruct Hx as [Hx|Hx].
      + apply (HdA x Hx). apply in_or_app. now left.
      + now apply (HdB x Hc). }
  split; [|split; [|split; [|split; [|split]]]].
  - apply in_heap_list. split.
    + rewrite Hkeep by (left; now left).
      rewrite Hcell, !map_app. cbn. now rewrite Hv.
    + apply Forall_app in Hall as [Hbefore Hafter].
      apply Forall_cons_iff in Hafter as [_ Hafter].
      apply Forall_app. split; [|constructor; [exact Hin'|]].
      * rewrite Forall_forall in Hbefore |- *. intros item Hitem.
        apply (in_heap_frame h); [|now apply Hbefore].
        intros x Hx. apply Hkeep. left. right. apply in_flat_map. eauto.
      * rewrite Forall_forall in Hafter |- *. intros item Hitem.
        apply (in_heap_frame h); [|now apply Hafter].
        intros x Hx. apply Hkeep. right. apply in_flat_map. eauto.
  - rewrite locs_list_split.
    apply (NoDup_replace_middle _ (locs c) _ _ (List.length h)); assumption.
  - reflexivity.
  - intros x Hx. rewrite locs_list_split in Hx |- *.
    apply in_app_or in Hx as [Hx|Hx]; [left; apply in_or_app; now left|].
    apply in_app_or in Hx as [Hx|Hx].
    + destruct (Hsub x Hx) as [H|H]; [|now right].
      left. apply in_or_app. right. apply in_or_app. now left.
    + left. apply in_or_app. right. apply in_or_app. now right.
  - intros x Hx Hnot. apply Hfr; [exact Hx|].
    intro Hc. apply Hnot. rewrite locs_list_split.
    apply in_or_app. right. apply in_or_app. now left.
  - exact Hlen.
Qed.

(** The cell of a dict is rewritten with new items. *)
Lemma updates_rewrite_dict (h h' : heap) (l : nat)
    (items items' : list (string * node)) :
  in_heap h (NDict l items) ->
  NoDup (locs (NDict l items)) ->
  (List.length h <= List.length h')%nat ->
  nth_error h' l = Some (ODict (map_values val_of items')) ->
  (forall x, (x < List.length h)%nat -> x <> l -> nth_error h' x = nth_error h x) ->
  Forall (fun item => in_heap h' (snd item)) items' ->
  NoDup (flat_map (fun item => locs (snd item)) items') ->
  (forall x, In x (flat_map (fun item => locs (snd item)) items') ->
             In x (flat_map (fun item => locs (snd item)) items)
             \/ (List.length h <= x)%nat) ->
  updates h (NDict l items) h' (NDict l items').
Proof.
  intros Hn Hnd Hlen Hcell Hother Hall Hnd' Hsub.
  pose proof (in_heap_bound h _ Hn) as Hbound.
  assert (Hl : (l < List.length h)%nat) by (apply Hbound; cbn; now left).
  cbn in Hnd. apply NoDup_cons_iff in Hnd as [Hnotin _].
  split; [|split; [|split; [|split; [|split]]]].
  - apply in_heap_dict. split; assumption.
  - cbn. constructor; [|exact Hnd'].
    intro Hin. destruct (Hsub l Hin) as [H|H]; [contradiction|lia].
  - reflexivity.
  - intros x [<-|Hx]; [left; cbn; now left|].
    destruct (Hsub x Hx) as [H|H]; [left; cbn; now right|now right].
  - intros x Hx Hnot. apply Hother; [exact Hx|].
    intros ->. apply Hnot. cbn. now left.
  - exact Hlen.
Qed.

Lemma is_empty_map_values {A B : Type} (f : A -> B) (items : list (string * A)) :
  is_empty (map_values f items) = is_empty items.
Proof. destruct items; reflexivity. Qed.

Lemma float_is_atom (h : heap) (c : node) (q : Q) :
  Store.py_float (val_of c) = Ok q -> locs c = [].
Proof. destruct c; cbn; [reflexivity|discriminate..]. Qed.

(** ** The re-projector on the store computes the re-projector on trees *)

Lemma store_shift_axis (d : delta) (h : heap) (l : nat)
    (items : list (string * node)) (axis : string) :
  in_heap h (NDict l items) ->
  NoDup (locs (NDict l items)) ->
  exists h' items',
    Store.shift_axis d l axis h = Ok (tt, h')
    /\ updates h (NDict l items) h' (NDict l items')
    /\ map_values erase items' = shift_axis d (map_values erase items) axis.
Proof.
  intros Hn Hnd. pose proof Hn as Hn0.
  apply in_heap_dict in Hn as [Hcell Hall].
  unfold Store.shift_axis, Store.bindM, Store.read, shift_axis. rewrite Hcell.
  rewrite !dict_get_map_values.
  destruct (dict_get items axis) as [c|] eqn:Ec; cbn [option_map].
  2: { exists h, items. split; [reflexivity|]. split; [|reflexivity].
       now apply updates_refl. }
  assert (Hc : in_heap h c).
  { apply dict_get_in in Ec. rewrite Forall_forall in Hall. apply (Hall _ Ec). }
  rewrite (store_is_None h c Hc), (store_float h c Hc).
  destruct (is_None (erase c)).
  { exists h, items. split; [reflexivity|]. split; [|reflexivity].
    now apply updates_refl. }
  destruct (py_float (erase c)) as [q|] eqn:Ef.
  2: { exists h, items. split; [reflexivity|]. split; [|reflexivity].
       now apply updates_refl. }
  assert (Hatom : locs c = []).
  { apply (float_is_atom h c q). now rewrite (store_float h c Hc). }
  set (x := q + delta_get d axis).
  exists (update h l (ODict (dict_set (map_values val_of items) axis (VNum x)))),
         (dict_set items axis (NAtom (VNum x))).
  split; [reflexivity|]. split.
  - destruct (dict_get_split items axis c Ec) as (before & after & Hitems & Hset).
    pose proof (in_heap_bound h _ Hn0 l (or_introl eq_refl)) as Hl.
    assert (Hflat : flat_map (fun item => locs (snd item))
                             (dict_set items axis (NAtom (VNum x)))
                    = flat_map (fun item => locs (snd item)) items).
    { rewrite Hset, Hitems, !flat_map_app. cbn. now rewrite Hatom. }
    apply updates_rewrite_dict; try assumption.
    + rewrite length_update. lia.
    + rewrite nth_error_update_same by exact Hl.
      pose proof (dict_set_map_values val_of items axis (NAtom (VNum x))) as Hs.
      cbn [Store.val_of] in Hs. now rewrite Hs.
    + intros y _ Hy. apply nth_error_update_other. congruence.
    + rewrite Hset. rewrite Hitems in Hall.
      apply Forall_app in Hall as [Hbefore Hafter].
      apply Forall_cons_iff in Hafter as [_ Hafter].
      cbn in Hnd. apply NoDup_cons_iff in Hnd as [Hnotin _].
      assert (Hframe : forall item, In item items -> in_heap h (snd item) ->
                in_heap (update h l (ODict (dict_set (map_values val_of items)
                                                    axis (VNum x)))) (snd item)).
      { intros item Hitem Hin. apply (in_heap_frame h); [|exact Hin].
        intros y Hy. apply nth_error_update_other. intros <-.
        apply Hnotin. apply in_flat_map. eauto. }
      apply Forall_app. split; [|constructor; [reflexivity|]].
      * rewrite Forall_forall in Hbefore |- *. intros item Hitem.
        apply Hframe; [|now apply Hbefore].
        rewrite Hitems. apply in_or_app. now left.
      * rewrite Forall_forall in Hafter |- *. intros item Hitem.
        apply Hframe; [|now apply Hafter].
        rewrite Hitems. apply in_or_app. right. now right.
    + rewrite Hflat. cbn in Hnd. now apply NoDup_cons_iff in Hnd as [_ Hnd].
    + intros y Hy. left. now rewrite <- Hflat.
  - pose proof (dict_set_map_values erase items axis (NAtom (VNum x))) as Hs.
    cbn [Store.erase Store.json_of_val] in Hs. now rewrite <- Hs.
Qed.

Lemma store_shift_xy (d : delta) (h : heap) (l : nat)
    (items : list (string * node)) :
  in_heap h (NDict l items) ->
  NoDup (locs (NDict l items)) ->
  exists h' items',
    Store.shift_xy d l h = Ok (tt, h')
    /\ updates h (NDict l items) h' (NDict l items')
    /\ map_values erase items' = shift_xy d (map_values erase items).
Proof.
  intros Hn Hnd.
  destruct (store_shift_axis d h l items "x" Hn Hnd) as (h1 & items1 & E1 & U1 & R1).
  pose proof U1 as (Hn1 & Hnd1 & _).
  destruct (store_shift_axis d h1 l items1 "y" Hn1 Hnd1)
    as (h2 & items2 & E2 & U2 & R2).
  exists h2, items2. split; [|split].
  - unfold Store.shift_xy, Store.bindM. now rewrite E1.
  - eapply updates_trans; eassumption.
  - unfold shift_xy. now rewrite R2, R1.
Qed.

Lemma as_dict_node (h : heap) (n : node) :
  in_heap h n ->
  Store.as_dict (val_of n) h
  = Ok (match n with
        | NDict l items => Some (l, map_values val_of items)
        | _ => None
        end, h).
Proof.
  destruct n as [v|l items|l items]; intro Hn.
  - cbn in Hn. destruct v; try reflexivity. discriminate.
  - apply in_heap_list in Hn as [Hcell _]. cbn. now rewrite Hcell.
  - apply in_heap_dict in Hn as [Hcell _]. cbn. now rewrite Hcell.
Qed.

Lemma as_list_node (h : heap) (n : node) :
  in_heap h n ->
  Store.as_list (val_of n) h
  = Ok (match n with
        | NList l items => Some (l, map val_of items)
        | _ => None
        end, h).
Proof.
  destruct n as [v|l items|l items]; intro Hn.
  - cbn in Hn. destruct v; try reflexivity. discriminate.
  - apply in_heap_list in Hn as [Hcell _]. cbn. now rewrite Hcell.
  - apply in_heap_dict in Hn as [Hcell _]. cbn. now rewrite Hcell.
Qed.

Lemma NoDup_dict_child (l : nat) (before after : list (string * node))
    (k : string) (c : node) :
  NoDup (locs (NDict l (before ++ (k, c) :: after))) -> NoDup (locs c).
Proof.
  rewrite locs_dict_split. intro H.
  apply NoDup_app_remove_l in H. now apply NoDup_app_remove_r in H.
Qed.

Lemma NoDup_list_child (l : nat) (before after : list node) (c : node) :
  NoDup (locs (NList l (before ++ c :: after))) -> NoDup (locs c).
Proof.
  rewrite locs_list_split. intro H.
  apply NoDup_app_remove_l in H. now apply NoDup_app_remove_r in H.
Qed.

Lemma in_heap_dict_child (h : heap) (l : nat) (before after : list (string * node))
    (k : string) (c : node) :
  in_heap h (NDict l (before ++ (k, c) :: after)) -> in_heap h c.
Proof.
  intro H. apply in_heap_dict in H as [_ Hall].
  apply Forall_app in Hall as [_ Hall]. now apply Forall_cons_iff in Hall as [Hc _].
Qed.

Lemma in_heap_list_child (h : heap) (l : nat) (before after : list node) (c : node) :
  in_heap h (NList l (before ++ c :: after)) -> in_heap h c.
Proof.
  intro H. apply in_heap_list in H as [_ Hall].
  apply Forall_app in Hall as [_ Hall]. now apply Forall_cons_iff in Hall as [Hc _].
Qed.

(** Rewriting with a fact about [val_of] of a tree whose root is known. *)
Ltac rewrite_root H :=
  let E := fresh "E" in
  pose proof H as E; cbn [Store.val_of] in E; rewrite E; clear E.

Lemma store_apply_delta (offs : offsets) (h : heap) (l : nat)
    (items : list (string * node)) (name : key) :
  in_heap h (NDict l items) ->
  NoDup (locs (NDict l items)) ->
  exists h' items',
    Store._apply_delta offs (VRef l) name h = Ok (tt, h')
    /\ updates h (NDict l items) h' (NDict l items')
    /\ map_values erase items' = _apply_delta offs (map_values erase items) name.
Proof.
  intros Hn Hnd. unfold Store._apply_delta, _apply_delta.
  destruct (lookup_get offs name) as [d|].
  2: { exists h, items. split; [reflexivity|]. split; [|reflexivity].
       now apply updates_refl. }
  destruct (no_delta (Some d)).
  { exists h, items. split; [reflexivity|]. split; [|reflexivity].
    now apply updates_refl. }
  unfold Store.bindM at 1.
  rewrite_root (as_dict_node h (NDict l items) Hn).
  destruct (store_shift_xy d h l items Hn Hnd) as (h1 & items1 & E1 & U1 & R1).
  unfold Store.bindM at 1. rewrite E1.
  pose proof U1 as (Hn1 & Hnd1 & _).
  unfold Store.bindM at 1.
  rewrite_root (as_dict_node h1 (NDict l items1) Hn1).
  rewrite store_get. rewrite <- R1, tree_get.
  assert (Hchild : in_heap h1 (child items1 "position")).
  { apply child_in_heap. now apply in_heap_dict in Hn1 as [_ Hall]. }
  unfold Store.bindM at 1. rewrite (as_dict_node h1 _ Hchild).
  unfold child in *.
  destruct (dict_get items1 "position") as [c|] eqn:Ec.
  2: { exists h1, items1. split; [reflexivity|]. split; [exact U1|reflexivity]. }
  destruct c as [v|lc citems|lp pitems].
  - exists h1, items1. split; [reflexivity|]. split; [exact U1|].
    cbn. destruct v; reflexivity.
  - exists h1, items1. split; [reflexivity|]. split; [exact U1|reflexivity].
  - cbn [Store.erase]. rewrite !is_empty_map_values.
    destruct (is_empty pitems).
    { exists h1, items1. split; [reflexivity|]. split; [exact U1|reflexivity]. }
    destruct (dict_get_split items1 "position" _ Ec) as (before & after & Hitems & Hset).
    rewrite Hitems in Hn1, Hnd1.
    destruct (store_shift_xy d h1 lp pitems
                (in_heap_dict_child _ _ _ _ _ _ Hn1)
                (NoDup_dict_child _ _ _ _ _ Hnd1))
      as (h2 & pitems' & E2 & U2 & R2).
    exists h2, (dict_set items1 "position" (NDict lp pitems')).
    split; [exact E2|]. split.
    + eapply updates_trans; [exact U1|].
      rewrite Hset, Hitems. now apply updates_dict_child.
    + pose proof (dict_set_map_values erase items1 "position" (NDict lp pitems'))
        as Hs.
      cbn [Store.erase] in Hs. now rewrite <- Hs, R2.
Qed.

Lemma store_py_or (h : heap) (a b : node) :
  in_heap h a ->
  Store.py_or h (val_of a) (val_of b) = val_of (or_node a b)
  /\ py_or (erase a) (erase b) = erase (or_node a b).
Proof.
  intro Ha. unfold Store.py_or, py_or, or_node.
  rewrite (store_truthy h a Ha). destruct (truthy (erase a)); split; reflexivity.
Qed.

Lemma or_node_in_heap (h : heap) (a b : node) :
  in_heap h a -> in_heap h b -> in_heap h (or_node a b).
Proof. intros Ha Hb. unfold or_node. destruct (truthy (erase a)); assumption. Qed.

Lemma store_entry_name (h : heap) (items : list (string * node)) :
  Forall (fun item => in_heap h (snd item)) items ->
  Store.entry_name h (map_values val_of items) = val_of (name_node items)
  /\ entry_name_reprojector (map_values erase items) = erase (name_node items)
  /\ in_heap h (name_node items).
Proof.
  intro Hall. unfold Store.entry_name, entry_name_reprojector, name_node.
  rewrite !store_get, !tree_get.
  pose proof (child_in_heap h items "name" Hall) as H1.
  pose proof (child_in_heap h items "part_name" Hall) as H2.
  pose proof (child_in_heap h items "part" Hall) as H3.
  pose proof (child_in_heap h items "id" Hall) as H4.
  destruct (store_py_or h _ (child items "part_name") H1) as [-> ->].
  pose proof (or_node_in_heap h _ _ H1 H2) as H12.
  destruct (store_py_or h _ (child items "part") H12) as [-> ->].
  pose proof (or_node_in_heap h _ _ H12 H3) as H123.
  destruct (store_py_or h _ (child items "id") H123) as [-> ->].
  split; [reflexivity|]. split; [reflexivity|].
  now apply or_node_in_heap.
Qed.

Lemma store_process_entry (offs : offsets) (h : heap) (n : node) :
  in_heap h n -> NoDup (locs n) ->
  refines (Store.process_entry offs (val_of n)) h n (process_entry offs (erase n)).
Proof.
  intros Hn Hnd. unfold refines, Store.process_entry, Store.bindM.
  rewrite (as_dict_node h n Hn).
  destruct n as [v|l items|l items].
  - cbn in Hn. destruct v; try discriminate;
      (exists h; eexists; split; [reflexivity|]; split;
       [now apply updates_refl|reflexivity]).
  - exists h; eexists. split; [reflexivity|]. split;
      [now apply updates_refl|reflexivity].
  - cbn [Store.erase process_entry Store.get_heap].
    pose proof Hn as Hn0. apply in_heap_dict in Hn0 as [_ Hall].
    destruct (store_entry_name h items Hall) as (-> & -> & Hname).
    rewrite (store_truthy h _ Hname), (store_key_of h _ Hname).
    destruct (truthy (erase (name_node items))).
    2: { exists h; eexists. split; [reflexivity|]. split;
           [now apply updates_refl|reflexivity]. }
    destruct (key_of (erase (name_node items))) as [k|exc]; cbn [bind refines];
      [|reflexivity].
    destruct (store_apply_delta offs h l items k Hn Hnd) as (h' & items' & E & U & R).
    exists h', (NDict l items'). split; [exact E|]. split; [exact U|].
    cbn. now rewrite R.
Qed.

(** A loop over the items of a list, each updated in place. *)
Lemma store_for_each_items
    (op : val -> Store.M unit) (f : json -> result json) (Q : node -> Prop)
    (l : nat) :
  (forall h c, Q c -> in_heap h c -> NoDup (locs c) ->
               refines (op (val_of c)) h c (f (erase c))) ->
  forall (todo before : list node) (h : heap),
    Forall Q todo ->
    in_heap h (NList l (before ++ todo)) ->
    NoDup (locs (NList l (before ++ todo))) ->
    match mapM f (map erase todo) with
    | Ok js =>
        exists h' todo',
          Store.for_each op (map val_of todo) h = Ok (tt, h')
          /\ updates h (NList l (before ++ todo)) h' (NList l (before ++ todo'))
          /\ map erase todo' = js
    | Raise e => Store.for_each op (map val_of todo) h = Raise e
    end.
Proof.
  intro Hop. induction todo as [|c rest IH]; intros before h HQ Hn Hnd.
  - cbn. exists h, []. split; [reflexivity|]. split; [|reflexivity].
    now apply updates_refl.
  - cbn [map mapM Store.for_each].
    apply Forall_cons_iff in HQ as [HQc HQ].
    pose proof (Hop h c HQc (in_heap_list_child _ _ _ _ _ Hn)
                    (NoDup_list_child _ _ _ _ Hnd)) as Hc.
    unfold Store.bindM.
    destruct (f (erase c)) as [j'|e]; cbn [bind refines] in *.
    2: { now rewrite Hc. }
    destruct Hc as (h1 & c1 & E1 & U1 & R1). rewrite E1.
    pose proof (updates_list_child h h1 l before rest c c1 Hn Hnd U1) as Uc.
    pose proof Uc as (Hn1 & Hnd1 & _).
    replace (before ++ c1 :: rest) with ((before ++ [c1]) ++ rest) in Hn1, Hnd1, Uc
      by (now rewrite <- app_assoc).
    specialize (IH (before ++ [c1]) h1 HQ Hn1 Hnd1).
    destruct (mapM f (map erase rest)) as [js|e]; cbn [bind]; [|exact IH].
    destruct IH as (h2 & rest' & E2 & U2 & R2).
    exists h2, (c1 :: rest'). split; [exact E2|]. split.
    + replace (before ++ c1 :: rest') with ((before ++ [c1]) ++ rest')
        by (now rewrite <- app_assoc).
      eapply updates_trans; eassumption.
    + cbn. now rewrite R1, R2.
Qed.

(** Cells added or written past the old end leave a tree as it is. *)
Lemma updates_garbage (h h' : heap) (n : node) :
  in_heap h n -> NoDup (locs n) ->
  (List.length h <= List.length h')%nat ->
  (forall x, (x < List.length h)%nat -> nth_error h' x = nth_error h x) ->
  updates h n h' n.
Proof.
  intros Hn Hnd Hlen Hsame. split; [|split; [|split; [|split; [|split]]]]; auto.
  apply (in_heap_frame h); [|exact Hn].
  intros x Hx. apply Hsame. now apply (in_heap_bound h n).
Qed.

Lemma dict_set_at {A : Type} (before after : list (string * A)) (k : string)
    (c x : A) :
  ~ In k (map fst before) ->
  dict_set (before ++ (k, c) :: after) k x = before ++ (k, x) :: after.
Proof.
  induction before as [|[k0 v0] before IH]; cbn; intro Hnot.
  - now rewrite String.eqb_refl.
  - destruct (String.eqb k0 k) eqn:E.
    + apply String.eqb_eq in E. exfalso. apply Hnot. now left.
    + f_equal. apply IH. intro H. apply Hnot. now right.
Qed.

Lemma store_process_item (offs : offsets) (h : heap) (lc : nat)
    (before after : list (string * node)) (name : string) (c : node) :
  in_heap h (NDict lc (before ++ (name, c) :: after)) ->
  NoDup (locs (NDict lc (before ++ (name, c) :: after))) ->
  ~ In name (map fst before) ->
  exists h' c',
    Store.process_item offs lc (name, val_of c) h = Ok (tt, h')
    /\ updates h (NDict lc (before ++ (name, c) :: after))
               h' (NDict lc (before ++ (name, c') :: after))
    /\ (name, erase c') = process_item offs (name, erase c).
Proof.
  intros Hn Hnd Hfirst.
  pose proof (in_heap_dict_child _ _ _ _ _ _ Hn) as Hc.
  pose proof (NoDup_dict_child _ _ _ _ _ Hnd) as Hndc.
  assert (Hstay : exists h' c',
             Ok (tt, h) = Ok (tt, h')
             /\ updates h (NDict lc (before ++ (name, c) :: after))
                        h' (NDict lc (before ++ (name, c') :: after))
             /\ (name, erase c') = (name, erase c)).
  { exists h, c. split; [reflexivity|]. split; [|reflexivity].
    now apply updates_refl. }
  unfold Store.process_item, Store.bindM.
  rewrite (as_dict_node h c Hc).
  destruct c as [v|le elems|le eitems].
  - rewrite (as_list_node h (NAtom v) Hc).
    cbn in Hc. destruct v; try discriminate; exact Hstay.
  - rewrite (as_list_node h (NList le elems) Hc).
    destruct elems as [|e0 [|e1 rest]]; try exact Hstay.
    cbn [map Store.erase process_item].
    destruct (lookup_get offs (KStr name)) as [d|]; [|exact Hstay].
    destruct (no_delta (Some d)); [exact Hstay|].
    pose proof Hc as Hc0. apply in_heap_list in Hc0 as [Hcell Helems].
    apply Forall_cons_iff in Helems as [He0 Helems].
    apply Forall_cons_iff in Helems as [He1 Hrest].
    cbn [Store.alloc].
    rewrite (store_float h e0 He0), (store_float h e1 He1).
    pose proof (in_heap_bound h _ Hn) as Hbound.
    assert (Hlc : (lc < List.length h)%nat) by (apply Hbound; cbn; now left).
    set (o0 := OList (val_of e0 :: val_of e1 :: map val_of rest)).
    destruct (py_float (erase e0)) as [a|] eqn:Ea; cbn [bind].
    2: { exists (h ++ [o0]), (NList le (e0 :: e1 :: rest)).
         split; [reflexivity|]. split; [|reflexivity].
         apply updates_garbage; try assumption.
         - rewrite length_app. cbn. lia.
         - intros x Hx. now apply nth_error_alloc_old. }
    cbn [Store.write].
    set (x' := VNum (a + delta_get d "x")).
    destruct (py_float (erase e1)) as [b|] eqn:Eb; cbn [bind].
    2: { eexists; exists (NList le (e0 :: e1 :: rest)).
         split; [reflexivity|]. split; [|reflexivity].
         apply updates_garbage; try assumption.
         - rewrite length_update, length_app. cbn. lia.
         - intros x Hx. rewrite nth_error_update_other by lia.
           now apply nth_error_alloc_old. }
    set (y' := VNum (b + delta_get d "y")).
    set (lnew := List.length h).
    set (h3 := update (update (h ++ [o0]) lnew (OList (x' :: val_of e1 :: map val_of rest)))
                      lnew (OList (x' :: y' :: map val_of rest))).
    assert (Hlen3 : List.length h3 = S (List.length h)).
    { subst h3. rewrite !length_update, length_app. cbn. lia. }
    assert (Hold3 : forall x, (x < List.length h)%nat -> nth_error h3 x = nth_error h x).
    { intros x Hx. subst h3 lnew. rewrite !nth_error_update_other by lia.
      now apply nth_error_alloc_old. }
    assert (Hnew3 : nth_error h3 lnew = Some (OList (x' :: y' :: map val_of rest))).
    { subst h3. apply nth_error_update_same.
      rewrite length_update, length_app. subst lnew. cbn. lia. }
    cbn [Store.read]. rewrite (Hold3 lc Hlc).
    pose proof Hn as Hn0. apply in_heap_dict in Hn0 as [Hccell Hitems].
    rewrite Hccell.
    set (c' := NList lnew (NAtom x' :: NAtom y' :: rest)).
    exists (update h3 lc (ODict (dict_set (map_values val_of
                                            (before ++ (name, NList le (e0 :: e1 :: rest)) :: after))
                                         name (VRef lnew)))), c'.
    split; [reflexivity|]. split.
    + assert (Hatom0 : locs e0 = []).
      { apply (float_is_atom h e0 a). now rewrite (store_float h e0 He0). }
      assert (Hatom1 : locs e1 = []).
      { apply (float_is_atom h e1 b). now rewrite (store_float h e1 He1). }
      assert (Hframe : forall m, in_heap h m -> ~ In lc (locs m) ->
                in_heap (update h3 lc (ODict (dict_set (map_values val_of
                           (before ++ (name, NList le (e0 :: e1 :: rest)) :: after))
                           name (VRef lnew)))) m).
      { intros m Hm Hnot. apply (in_heap_frame h); [|exact Hm].
        intros x Hx. rewrite nth_error_update_other by (intros <-; contradiction).
        apply Hold3. now apply (in_heap_bound h m). }
      pose proof Hnd as Hnd0. cbn in Hnd0.
      apply NoDup_cons_iff in Hnd0 as [Hlcnot Hflat].
      apply updates_rewrite_dict; try assumption.
      * rewrite length_update. lia.
      * rewrite nth_error_update_same by lia.
        pose proof (dict_set_map_values val_of
                      (before ++ (name, NList le (e0 :: e1 :: rest)) :: after)
                      name c') as Hs.
        unfold c' at 1 in Hs. cbn [Store.val_of] in Hs. rewrite Hs.
        now rewrite (dict_set_at before after name _ c' Hfirst).
      * intros x Hx Hne. rewrite nth_error_update_other by congruence.
        now apply Hold3.
      * apply Forall_app in Hitems as [Hbefore Hafter].
        apply Forall_cons_iff in Hafter as [_ Hafter].
        apply Forall_app. split; [|constructor].
        -- rewrite Forall_forall in Hbefore |- *. intros item Hitem.
           apply Hframe; [now apply Hbefore|].
           intro Hin. apply Hlcnot. apply in_flat_map. exists item.
           split; [apply in_or_app; now left|exact Hin].
        -- cbn [snd]. apply in_heap_list. split.
           ++ rewrite nth_error_update_other by (subst lnew; lia). exact Hnew3.
           ++ constructor; [reflexivity|]. constructor; [reflexivity|].
              rewrite Forall_forall in Hrest |- *. intros m Hm.
              apply Hframe; [now apply Hrest|].
              intro Hin. apply Hlcnot. apply in_flat_map.
              exists (name, NList le (e0 :: e1 :: rest)).
              split; [apply in_or_app; right; now left|].
              cbn. right. rewrite Hatom0, Hatom1. cbn.
              apply in_flat_map. eauto.
        -- rewrite Forall_forall in Hafter |- *. intros item Hitem.
           apply Hframe; [now apply Hafter|].
           intro Hin. apply Hlcnot. apply in_flat_map. exists item.
           split; [apply in_or_app; right; now right|exact Hin].
      * rewrite flat_map_app in Hflat |- *. cbn [flat_map snd] in Hflat |- *.
        apply (NoDup_replace_middle _ (locs (NList le (e0 :: e1 :: rest))) _ _
                 (List.length h)).
        -- exact Hflat.
        -- subst c'. cbn. cbn [Store.locs flat_map] in Hndc.
           rewrite Hatom0, Hatom1 in Hndc. cbn [app] in Hndc.
           apply NoDup_cons_iff in Hndc as [_ Hndc].
           constructor; [|exact Hndc].
           intro Hin. apply in_flat_map in Hin as (m & Hm & Hin).
           rewrite Forall_forall in Hrest.
           pose proof (in_heap_bound h m (Hrest m Hm) _ Hin). subst lnew. lia.
        -- intros x Hx. apply Hbound. cbn. right.
           rewrite flat_map_app. exact Hx.
        -- intros x Hx. subst c'. cbn in Hx |- *. destruct Hx as [<-|Hx].
           ++ right. subst lnew. lia.
           ++ left. right. now rewrite Hatom0, Hatom1.
      * intros x Hx. rewrite flat_map_app in Hx |- *. cbn [flat_map snd] in Hx |- *.
        apply in_app_or in Hx as [Hx|Hx]; [left; apply in_or_app; now left|].
        apply in_app_or in Hx as [Hx|Hx].
        -- subst c'. cbn in Hx. destruct Hx as [<-|Hx].
           ++ right. subst lnew. lia.
           ++ left. apply in_or_app. right. apply in_or_app. left.
              cbn. right. now rewrite Hatom0, Hatom1.
        -- left. apply in_or_app. right. apply in_or_app. now right.
    + reflexivity.
  - cbn [Store.erase process_item].
    destruct (store_apply_delta offs h le eitems (KStr name) Hc Hndc)
      as (h' & eitems' & E & U & R).
    exists h', (NDict le eitems'). split; [exact E|]. split.
    + now apply updates_dict_child.
    + cbn. now rewrite R.
Qed.

Lemma distinct_json_keys_list (xs : list json) :
  distinct_json_keys (JList xs) <-> Forall distinct_json_keys xs.
Proof.
  cbn. split; intro H.
  - induction xs as [|x rest IH]; constructor; [apply H|apply IH, H].
  - induction H; [exact I|]. split; assumption.
Qed.

Lemma distinct_json_keys_dict (kvs : dict) :
  distinct_json_keys (JDict kvs)
  <-> NoDup (map fst kvs) /\ Forall (fun item => distinct_json_keys (snd item)) kvs.
Proof.
  cbn. split; intros [Hnd H]; (split; [exact Hnd|]); clear Hnd.
  - induction kvs as [|x rest IH]; constructor; [apply H|apply IH, H].
  - induction H; [exact I|]. split; assumption.
Qed.

Lemma map_fst_map_values {A B : Type} (f : A -> B) (items : list (string * A)) :
  map fst (map_values f items) = map fst items.
Proof. unfold Store.map_values. rewrite map_map. reflexivity. Qed.

Lemma distinct_node_child (items : list (string * node)) (k : string) (c : node) :
  distinct_json_keys (JDict (map_values erase items)) ->
  dict_get items k = Some c -> distinct_json_keys (erase c).
Proof.
  intros H Hc. apply distinct_json_keys_dict in H as [_ Hall].
  apply dict_get_in in Hc. rewrite Forall_forall in Hall.
  apply (Hall (k, erase c)). unfold Store.map_values.
  apply in_map_iff. exists (k, c). split; [reflexivity|exact Hc].
Qed.

(** The loop over the items of a dict-shaped container. *)
Lemma store_for_each_process_item (offs : offsets) (lc : nat) :
  forall (todo before : list (string * node)) (h : heap),
    in_heap h (NDict lc (before ++ todo)) ->
    NoDup (locs (NDict lc (before ++ todo))) ->
    NoDup (map fst (before ++ todo)) ->
    exists h' todo',
      Store.for_each (Store.process_item offs lc) (map_values val_of todo) h
      = Ok (tt, h')
      /\ updates h (NDict lc (before ++ todo)) h' (NDict lc (before ++ todo'))
      /\ map_values erase todo' = map (process_item offs) (map_values erase todo).
Proof.
  induction todo as [|[name c] rest IH]; intros before h Hn Hnd Hkeys.
  - exists h, []. split; [reflexivity|]. split; [|reflexivity].
    now apply updates_refl.
  - assert (Hfirst : ~ In name (map fst before)).
    { rewrite map_app in Hkeys. cbn in Hkeys.
      apply NoDup_remove_2 in Hkeys. intro H. apply Hkeys.
      apply in_or_app. now left. }
    destruct (store_process_item offs h lc before rest name c Hn Hnd Hfirst)
      as (h1 & c1 & E1 & U1 & R1).
    pose proof U1 as (Hn1 & Hnd1 & _).
    replace (before ++ (name, c1) :: rest) with ((before ++ [(name, c1)]) ++ rest)
      in Hn1, Hnd1, U1 by (now rewrite <- app_assoc).
    assert (Hkeys1 : NoDup (map fst ((before ++ [(name, c1)]) ++ rest))).
    { rewrite <- app_assoc. rewrite map_app in Hkeys |- *. exact Hkeys. }
    destruct (IH (before ++ [(name, c1)]) h1 Hn1 Hnd1 Hkeys1)
      as (h2 & rest' & E2 & U2 & R2).
    exists h2, ((name, c1) :: rest'). split; [|split].
    + cbn [Store.map_values map Store.for_each fst snd]. unfold Store.bindM.
      rewrite E1. exact E2.
    + replace (before ++ (name, c1) :: rest')
        with ((before ++ [(name, c1)]) ++ rest') by (now rewrite <- app_assoc).
      eapply updates_trans; eassumption.
    + cbn [Store.map_values map fst snd]. rewrite <- R1. f_equal. exact R2.
Qed.

Lemma store_process_keypoints (offs : offsets) (h : heap) (n : node) :
  in_heap h n -> NoDup (locs n) -> distinct_json_keys (erase n) ->
  refines (Store._process_keypoints offs (val_of n)) h n
          (_process_keypoints offs (erase n)).
Proof.
  intros Hn Hnd Hkeys. unfold refines, Store._process_keypoints, Store.bindM.
  rewrite (as_list_node h n Hn).
  destruct n as [v|l items|l items].
  - rewrite (as_dict_node h (NAtom v) Hn).
    cbn in Hn. destruct v; try discriminate;
      (exists h; eexists; split; [reflexivity|]; split;
       [now apply updates_refl|reflexivity]).
  - cbn [Store.erase _process_keypoints].
    pose proof (store_for_each_items (Store.process_entry offs) (process_entry offs)
                  (fun _ => True) l
                  (fun h c _ => store_process_entry offs h c) items [] h
                  (proj2 (Forall_forall _ items) (fun _ _ => I)) Hn Hnd) as H.
    destruct (mapM (process_entry offs) (map erase items)) as [js|e]; cbn [bind];
      [|exact H].
    destruct H as (h' & items' & E & U & R).
    exists h', (NList l items'). split; [exact E|]. split; [exact U|].
    cbn. now rewrite R.
  - rewrite (as_dict_node h (NDict l items) Hn).
    cbn [Store.erase _process_keypoints].
    apply distinct_json_keys_dict in Hkeys as [Hkeys _].
    rewrite map_fst_map_values in Hkeys.
    destruct (store_for_each_process_item offs l items [] h Hn Hnd Hkeys)
      as (h' & items' & E & U & R).
    exists h', (NDict l items'). split; [exact E|]. split; [exact U|].
    cbn. now rewrite R.
Qed.

Lemma store_process_candidates (offs : offsets) (lh : nat) :
  forall (names : list string) (h : heap) (items : list (string * node)),
    in_heap h (NDict lh items) ->
    NoDup (locs (NDict lh items)) ->
    NoDup names ->
    (forall k c, In k names -> dict_get items k = Some c ->
                 distinct_json_keys (erase c)) ->
    match process_candidates offs names (map_values erase items) with
    | Ok d' =>
        exists h' items',
          Store.for_each (Store.process_candidate offs lh) names h = Ok (tt, h')
          /\ updates h (NDict lh items) h' (NDict lh items')
          /\ map_values erase items' = d'
    | Raise e =>
        Store.for_each (Store.process_candidate offs lh) names h = Raise e
    end.
Proof.
  induction names as [|name rest IH]; intros h items Hn Hnd Hnames Hkeys.
  - cbn. exists h, items. split; [reflexivity|]. split; [|reflexivity].
    now apply updates_refl.
  - cbn [process_candidates Store.for_each].
    apply NoDup_cons_iff in Hnames as [Hname Hrest].
    pose proof Hn as Hn0. apply in_heap_dict in Hn0 as [Hcell Hall].
    assert (Hstep : Store.process_candidate offs lh name h
                    = match dict_get items name with
                      | Some c => Store._process_keypoints offs (val_of c) h
                      | None => Ok (tt, h)
                      end).
    { unfold Store.process_candidate, Store.bindM, Store.read.
      rewrite Hcell, dict_get_map_values.
      destruct (dict_get items name); reflexivity. }
    unfold Store.bindM. rewrite Hstep, dict_get_map_values. clear Hstep.
    destruct (dict_get items name) as [c|] eqn:Ec; cbn [option_map].
    2: { apply IH; try assumption.
         intros k c Hk. apply Hkeys. now right. }
    destruct (dict_get_split items name c Ec) as (before & after & Hitems & Hset).
    assert (Hc : in_heap h c).
    { apply dict_get_in in Ec. rewrite Forall_forall in Hall. apply (Hall _ Ec). }
    assert (Hndc : NoDup (locs c)).
    { rewrite Hitems in Hnd. now apply NoDup_dict_child in Hnd. }
    pose proof (store_process_keypoints offs h c Hc Hndc
                  (Hkeys name c (or_introl eq_refl) Ec)) as Hk.
    unfold refines in Hk.
    destruct (_process_keypoints offs (erase c)) as [j'|e]; cbn [bind].
    2: { now rewrite Hk. }
    destruct Hk as (h1 & c1 & E1 & U1 & R1). rewrite E1.
    assert (U : updates h (NDict lh items) h1 (NDict lh (dict_set items name c1))).
    { rewrite Hset. rewrite Hitems in Hn, Hnd |- *. now apply updates_dict_child. }
    pose proof U as (Hn1 & Hnd1 & _).
    assert (Hkeys1 : forall k c0, In k rest -> dict_get (dict_set items name c1) k = Some c0 ->
                       distinct_json_keys (erase c0)).
    { intros k c0 Hk. rewrite dict_get_set.
      destruct (String.eqb name k) eqn:E.
      - apply String.eqb_eq in E. subst k. contradiction.
      - apply Hkeys. now right. }
    specialize (IH h1 (dict_set items name c1) Hn1 Hnd1 Hrest Hkeys1).
    rewrite <- (dict_set_map_values erase items name c1), R1 in IH.
    destruct (process_candidates offs rest (dict_set (map_values erase items) name j'))
      as [d'|e]; [|exact IH].
    destruct IH as (h2 & items2 & E2 & U2 & R2).
    exists h2, items2. split; [exact E2|]. split; [|exact R2].
    eapply updates_trans; eassumption.
Qed.

Lemma candidate_keys_distinct : NoDup candidate_keys.
Proof.
  unfold candidate_keys. repeat constructor; cbn; intuition discriminate.
Qed.

Lemma store_process_person (offs : offsets) (h : heap) (n : node) :
  distinct_json_keys (erase n) ->
  in_heap h n -> NoDup (locs n) ->
  refines (Store.process_person offs (val_of n)) h n (process_person offs (erase n)).
Proof.
  intros Hkeys Hn Hnd. unfold refines, Store.process_person, Store.bindM.
  rewrite (as_dict_node h n Hn).
  destruct n as [v|l items|l items].
  - cbn in Hn. destruct v; try discriminate;
      (exists h; eexists; split; [reflexivity|]; split;
       [now apply updates_refl|reflexivity]).
  - exists h; eexists. split; [reflexivity|]. split;
      [now apply updates_refl|reflexivity].
  - cbn [Store.erase process_person].
    pose proof (store_process_candidates offs l candidate_keys h items Hn Hnd
                  candidate_keys_distinct
                  (fun k c _ Hc => distinct_node_child items k c Hkeys Hc)) as H.
    unfold Store.process_candidates.
    destruct (process_candidates offs candidate_keys (map_values erase items))
      as [d'|e]; cbn [bind]; [|exact H].
    destruct H as (h' & items' & E & U & R).
    exists h', (NDict l items'). split; [exact E|]. split; [exact U|].
    cbn. now rewrite R.
Qed.

(** ** The deep copy *)

Lemma in_heap_extend (h h' : heap) (n : node) :
  (forall x, (x < List.length h)%nat -> nth_error h' x = nth_error h x) ->
  in_heap h n -> in_heap h' n.
Proof.
  intros Hsame Hn. apply (in_heap_frame h); [|exact Hn].
  intros x Hx. apply Hsame. now apply (in_heap_bound h n).
Qed.

Lemma copy_items (cp : val -> Store.M val) (items : list node) :
  Forall (fun c => forall h, in_heap h c ->
                     exists h' c', cp (val_of c) h = Ok (val_of c', h')
                                   /\ copied h h' c c') items ->
  forall h, Forall (in_heap h) items ->
    exists h' items',
      Store.map_each cp (map val_of items) h = Ok (map val_of items', h')
      /\ Forall (in_heap h') items'
      /\ NoDup (flat_map locs items')
      /\ map erase items' = map erase items
      /\ (forall l, In l (flat_map locs items') -> (List.length h <= l)%nat)
      /\ (forall x, (x < List.length h)%nat -> nth_error h' x = nth_error h x)
      /\ (List.length h <= List.length h')%nat.
Proof.
  intro Hcp. induction Hcp as [|c rest Hc _ IH]; intros h Hall.
  - exists h, []. cbn. repeat split; auto; try constructor; intros x [].
  - apply Forall_cons_iff in Hall as [Hinc Hrest].
    destruct (Hc h Hinc) as (h1 & c' & E1 & Hin1 & Hnd1 & Her1 & Hfresh1 & Hsame1 & Hlen1).
    assert (Hrest1 : Forall (in_heap h1) rest).
    { eapply Forall_impl; [|exact Hrest]. intro m. now apply in_heap_extend. }
    destruct (IH h1 Hrest1)
      as (h2 & rest' & E2 & Hin2 & Hnd2 & Her2 & Hfresh2 & Hsame2 & Hlen2).
    exists h2, (c' :: rest'). split; [|split; [|split; [|split; [|split; [|split]]]]].
    + cbn [map Store.map_each]. unfold Store.bindM. rewrite E1, E2. reflexivity.
    + constructor; [|exact Hin2]. now apply (in_heap_extend h1).
    + cbn. apply NoDup_app; [exact Hnd1|exact Hnd2|].
      intros x Hx Hx'. pose proof (in_heap_bound h1 c' Hin1 x Hx).
      pose proof (Hfresh2 x Hx'). lia.
    + cbn. now rewrite Her1, Her2.
    + intros x Hx. cbn in Hx. apply in_app_or in Hx as [Hx|Hx].
      * now apply Hfresh1.
      * pose proof (Hfresh2 x Hx). lia.
    + intros x Hx. rewrite Hsame2 by lia. now apply Hsame1.
    + lia.
Qed.

Lemma copy_dict_items (cp : val -> Store.M val) (items : list (string * node)) :
  Forall (fun item => forall h, in_heap h (snd item) ->
                        exists h' c', cp (val_of (snd item)) h = Ok (val_of c', h')
                                      /\ copied h h' (snd item) c') items ->
  forall h, Forall (fun item => in_heap h (snd item)) items ->
    exists h' items',
      Store.map_each (fun item => Store.bindM (cp (snd item))
                                    (fun v' => Store.ret (fst item, v')))
                     (map_values val_of items) h
      = Ok (map_values val_of items', h')
      /\ Forall (fun item => in_heap h' (snd item)) items'
      /\ NoDup (flat_map (fun item => locs (snd item)) items')
      /\ map_values erase items' = map_values erase items
      /\ (forall l, In l (flat_map (fun item => locs (snd item)) items') ->
                    (List.length h <= l)%nat)
      /\ (forall x, (x < List.length h)%nat -> nth_error h' x = nth_error h x)
      /\ (List.length h <= List.length h')%nat.
Proof.
  intro Hcp. induction Hcp as [|[k c] rest Hc _ IH]; intros h Hall.
  - exists h, []. cbn. repeat split; auto; try constructor; intros x [].
  - apply Forall_cons_iff in Hall as [Hinc Hrest]. cbn [snd] in Hc, Hinc.
    destruct (Hc h Hinc) as (h1 & c' & E1 & Hin1 & Hnd1 & Her1 & Hfresh1 & Hsame1 & Hlen1).
    assert (Hrest1 : Forall (fun item => in_heap h1 (snd item)) rest).
    { eapply Forall_impl; [|exact Hrest]. intro m. now apply in_heap_extend. }
    destruct (IH h1 Hrest1)
      as (h2 & rest' & E2 & Hin2 & Hnd2 & Her2 & Hfresh2 & Hsame2 & Hlen2).
    exists h2, ((k, c') :: rest').
    split; [|split; [|split; [|split; [|split; [|split]]]]].
    + cbn [Store.map_values map Store.map_each fst snd]. unfold Store.bindM at 1 2.
      rewrite E1. cbn [Store.ret]. unfold Store.bindM at 1.
      fold (map_values val_of rest). rewrite E2. reflexivity.
    + constructor; [|exact Hin2]. now apply (in_heap_extend h1).
    + cbn. apply NoDup_app; [exact Hnd1|exact Hnd2|].
      intros x Hx Hx'. pose proof (in_heap_bound h1 c' Hin1 x Hx).
      pose proof (Hfresh2 x Hx'). lia.
    + cbn [Store.map_values map fst snd].
      fold (map_values erase rest') (map_values erase rest). now rewrite Her1, Her2.
    + intros x Hx. cbn in Hx. apply in_app_or in Hx as [Hx|Hx].
      * now apply Hfresh1.
      * pose proof (Hfresh2 x Hx). lia.
    + intros x Hx. rewrite Hsame2 by lia. now apply Hsame1.
    + lia.
Qed.

Lemma depth_list_items (l : nat) (items : list node) (fuel : nat) :
  (Store.depth (NList l items) <= S fuel)%nat ->
  Forall (fun c => (Store.depth c <= fuel)%nat) items.
Proof.
  cbn. intro H. apply le_S_n in H.
  induction items as [|c rest IH]; constructor; cbn in H; [lia|apply IH; lia].
Qed.

Lemma depth_dict_items (l : nat) (items : list (string * node)) (fuel : nat) :
  (Store.depth (NDict l items) <= S fuel)%nat ->
  Forall (fun item => (Store.depth (snd item) <= fuel)%nat) items.
Proof.
  cbn. intro H. apply le_S_n in H.
  induction items as [|c rest IH]; constructor; cbn in H; [lia|apply IH; lia].
Qed.

Lemma store_deepcopy (n : node) :
  forall (fuel : nat) (h : heap),
    in_heap h n -> (Store.depth n <= fuel)%nat ->
    exists h' n',
      Store.deepcopy fuel (val_of n) h = Ok (val_of n', h') /\ copied h h' n n'.
Proof.
  induction n as [v|l items IH|l items IH] using node_induction;
    intros fuel h Hn Hdepth.
  - exists h, (NAtom v). split.
    + cbn in Hn. destruct v; try discriminate; destruct fuel; reflexivity.
    + repeat split; auto. constructor. intros l Hl. destruct Hl.
  - destruct fuel as [|fuel]; [cbn in Hdepth; lia|].
    pose proof (depth_list_items l items fuel Hdepth) as Hd.
    pose proof Hn as Hn0. apply in_heap_list in Hn0 as [Hcell Hall].
    assert (Hcp : Forall (fun c => forall h, in_heap h c ->
                     exists h' c', Store.deepcopy fuel (val_of c) h = Ok (val_of c', h')
                                   /\ copied h h' c c') items).
    { rewrite Forall_forall in IH, Hd |- *. intros c Hc h0 Hin0.
      apply (IH c Hc fuel h0 Hin0). now apply Hd. }
    destruct (copy_items (Store.deepcopy fuel) items Hcp h Hall)
      as (h1 & items' & E & Hin1 & Hnd1 & Her1 & Hfresh1 & Hsame1 & Hlen1).
    exists (h1 ++ [OList (map val_of items')]), (NList (List.length h1) items').
    split.
    + cbn [Store.val_of Store.deepcopy]. unfold Store.bindM, Store.read.
      rewrite Hcell, E. reflexivity.
    + assert (Hbound : forall x, In x (flat_map locs items') ->
                                 (x < List.length h1)%nat).
      { intros x Hx. apply in_flat_map in Hx as (c & Hc & Hx).
        rewrite Forall_forall in Hin1. apply (in_heap_bound h1 c (Hin1 c Hc) x Hx). }
      split; [|split; [|split; [|split; [|split]]]].
      * apply in_heap_list. split; [apply nth_error_alloc_new|].
        eapply Forall_impl; [|exact Hin1]. intro c. apply in_heap_extend.
        intros x Hx. now apply nth_error_alloc_old.
      * cbn. constructor; [|exact Hnd1].
        intro Hx. apply Hbound in Hx. lia.
      * cbn. now rewrite Her1.
      * intros x [<-|Hx]; [lia|now apply Hfresh1].
      * intros x Hx. rewrite nth_error_alloc_old by lia. now apply Hsame1.
      * rewrite length_app. cbn. lia.
  - destruct fuel as [|fuel]; [cbn in Hdepth; lia|].
    pose proof (depth_dict_items l items fuel Hdepth) as Hd.
    pose proof Hn as Hn0. apply in_heap_dict in Hn0 as [Hcell Hall].
    assert (Hcp : Forall (fun item => forall h, in_heap h (snd item) ->
                     exists h' c', Store.deepcopy fuel (val_of (snd item)) h
                                   = Ok (val_of c', h')
                                   /\ copied h h' (snd item) c') items).
    { rewrite Forall_forall in IH, Hd |- *. intros c Hc h0 Hin0.
      apply (IH c Hc fuel h0 Hin0). now apply Hd. }
    destruct (copy_dict_items (Store.deepcopy fuel) items Hcp h Hall)
      as (h1 & items' & E & Hin1 & Hnd1 & Her1 & Hfresh1 & Hsame1 & Hlen1).
    exists (h1 ++ [ODict (map_values val_of items')]), (NDict (List.length h1) items').
    split.
    + cbn [Store.val_of Store.deepcopy]. unfold Store.bindM at 1 2, Store.read.
      rewrite Hcell.
      unfold Store.bindM in E. unfold Store.bindM. rewrite E. reflexivity.
    + assert (Hbound : forall x, In x (flat_map (fun item => locs (snd item)) items') ->
                                 (x < List.length h1)%nat).
      { intros x Hx. apply in_flat_map in Hx as (c & Hc & Hx).
        rewrite Forall_forall in Hin1. apply (in_heap_bound h1 _ (Hin1 c Hc) x Hx). }
      split; [|split; [|split; [|split; [|split]]]].
      * apply in_heap_dict. split; [apply nth_error_alloc_new|].
        eapply Forall_impl; [|exact Hin1]. intro c. apply in_heap_extend.
        intros x Hx. now apply nth_error_alloc_old.
      * cbn. constructor; [|exact Hnd1].
        intro Hx. apply Hbound in Hx. lia.
      * cbn. now rewrite Her1.
      * intros x [<-|Hx]; [lia|now apply Hfresh1].
      * intros x Hx. rewrite nth_error_alloc_old by lia. now apply Hsame1.
      * rewrite length_app. cbn. lia.
Qed.

Lemma persons_node_get (items : list (string * node)) (l : nat) (ps : list node) :
  persons_node items = NList l ps ->
  dict_get items (persons_key_of items) = Some (NList l ps).
Proof.
  unfold persons_node, persons_key_of, or_node, child.
  destruct (truthy (erase match dict_get items "persons" with
                          | Some c => c
                          | None => NAtom VNull
                          end)).
  - destruct (dict_get items "persons"); [congruence|discriminate].
  - destruct (dict_get items "people"); [congruence|discriminate].
Qed.

Lemma store_persons_stage (offs : offsets) (h : heap) (la : nat)
    (items : list (string * node)) :
  in_heap h (NDict la items) ->
  NoDup (locs (NDict la items)) ->
  distinct_json_keys (JDict (map_values erase items)) ->
  match
    match erase (persons_node items) with
    | JList persons =>
        do persons' <- mapM (process_person offs) persons;
        Ok (dict_set (map_values erase items) (persons_key_of items)
                     (JList persons'))
    | _ => Ok (map_values erase items)
    end
  with
  | Ok d' =>
      exists h' items',
        Store.bindM (Store.as_list (val_of (persons_node items)))
          (fun ps => match ps with
                     | Some (_, vs) => Store.for_each (Store.process_person offs) vs
                     | None => Store.ret tt
                     end) h = Ok (tt, h')
        /\ updates h (NDict la items) h' (NDict la items')
        /\ map_values erase items' = d'
        /\ (forall k, String.eqb (persons_key_of items) k = false ->
                      dict_get items' k = dict_get items k)
  | Raise e =>
      Store.bindM (Store.as_list (val_of (persons_node items)))
        (fun ps => match ps with
                   | Some (_, vs) => Store.for_each (Store.process_person offs) vs
                   | None => Store.ret tt
                   end) h = Raise e
  end.
Proof.
  intros Hn Hnd Hkeys.
  pose proof Hn as Hn0. apply in_heap_dict in Hn0 as [_ Hall].
  assert (Hpn : in_heap h (persons_node items)).
  { apply or_node_in_heap; now apply child_in_heap. }
  unfold Store.bindM. rewrite (as_list_node h _ Hpn).
  destruct (persons_node items) as [v|lp ps|lp ps] eqn:Epn.
  - cbn in Hpn. destruct v; try discriminate;
      (exists h, items; split; [reflexivity|]; split;
       [now apply updates_refl|]; split; reflexivity).
  - cbn [Store.erase].
    pose proof (persons_node_get items lp ps Epn) as Hget.
    remember (persons_key_of items) as pk eqn:Epk.
    destruct (dict_get_split items _ _ Hget) as (before & after & Hitems & Hset).
    assert (Hps : in_heap h (NList lp ps)) by exact Hpn.
    assert (Hndp : NoDup (locs (NList lp ps))).
    { rewrite Hitems in Hnd. now apply NoDup_dict_child in Hnd. }
    assert (HQ : Forall (fun c => distinct_json_keys (erase c)) ps).
    { pose proof (distinct_node_child items _ _ Hkeys Hget) as Hd.
      cbn [Store.erase] in Hd. apply distinct_json_keys_list in Hd.
      rewrite Forall_forall in Hd |- *. intros c Hc. apply Hd.
      now apply in_map. }
    pose proof (store_for_each_items (Store.process_person offs) (process_person offs)
                  (fun c => distinct_json_keys (erase c)) lp
                  (store_process_person offs) ps [] h HQ Hps Hndp) as H.
    destruct (mapM (process_person offs) (map erase ps)) as [js|e]; cbn [bind];
      [|exact H].
    destruct H as (h' & ps' & E & U & R).
    exists h', (dict_set items pk (NList lp ps')).
    split; [exact E|]. split; [|split].
    + rewrite Hset. rewrite Hitems in Hn, Hnd |- *. now apply updates_dict_child.
    + pose proof (dict_set_map_values erase items pk (NList lp ps')) as Hs.
      cbn [Store.erase] in Hs. now rewrite <- Hs, R.
    + intros k Hk. now rewrite dict_get_set, Hk.
  - exists h, items. split; [reflexivity|]. split; [now apply updates_refl|].
    split; reflexivity.
Qed.

Lemma erase_dict_node (n : node) (p : dict) :
  erase n = JDict p -> exists l items, n = NDict l items /\ p = map_values erase items.
Proof.
  destruct n as [v|l items|l items]; cbn.
  - destruct v; discriminate.
  - discriminate.
  - intros [= <-]. eauto.
Qed.

Lemma store_apply_steps (offs : offsets) (fuel : nat) (h h1 : heap) (l la : nat)
    (items items1 : list (string * node)) :
  in_heap h (NDict l items) ->
  Store.deepcopy fuel (VRef l) h = Ok (VRef la, h1) ->
  in_heap h1 (NDict la items1) ->
  Store.apply_keypoint_offsets_to_payload fuel (VRef l) offs h
  = if is_empty offs then Ok (VRef la, h1)
    else
      match persons_stage offs items1 h1 with
      | Ok (_, h2) =>
          match Store.process_candidates offs la h2 with
          | Ok (_, h3) => Ok (VRef la, h3)
          | Raise e => Raise e
          end
      | Raise e => Raise e
      end.
Proof.
  intros Hn E1 Hn1.
  unfold Store.apply_keypoint_offsets_to_payload, persons_stage, Store.bindM.
  rewrite_root (as_dict_node h (NDict l items) Hn). rewrite E1.
  destruct (is_empty offs); [reflexivity|].
  rewrite_root (as_dict_node h1 (NDict la items1) Hn1).
  unfold Store.get_heap. cbv zeta.
  pose proof Hn1 as Hn10. apply in_heap_dict in Hn10 as [_ Hall1].
  rewrite !store_get.
  destruct (store_py_or h1 (child items1 "persons") (child items1 "people")
              (child_in_heap h1 items1 "persons" Hall1)) as [-> _].
  fold (persons_node items1).
  destruct (Store.as_list (val_of (persons_node items1)) h1) as [[ps h']|e];
    [|reflexivity].
  destruct (match ps with
            | Some (_, vs) => Store.for_each (Store.process_person offs) vs
            | None => Store.ret tt
            end h') as [[u h2]|e]; [|reflexivity].
  destruct (Store.process_candidates offs la h2) as [[u' h3]|e]; reflexivity.
Qed.

Lemma tree_apply_steps (offs : offsets) (items : list (string * node)) :
  apply_keypoint_offsets_to_payload (JDict (map_values erase items)) offs
  = if is_empty offs then Ok (JDict (map_values erase items))
    else
      do adjusted <-
        match erase (persons_node items) with
        | JList persons =>
            do persons' <- mapM (process_person offs) persons;
            Ok (dict_set (map_values erase items) (persons_key_of items)
                         (JList persons'))
        | _ => Ok (map_values erase items)
        end;
      do adjusted <- process_candidates offs candidate_keys adjusted;
      Ok (JDict adjusted).
Proof.
  unfold apply_keypoint_offsets_to_payload, persons_node, persons_key_of, or_node,
    py_or.
  rewrite !tree_get.
  destruct (is_empty offs); [reflexivity|].
  destruct (truthy (erase (child items "persons"))); reflexivity.
Qed.

(** The re-projector on the store: on a payload held in the store as a
    tree of cells with distinct keys and nesting within the fuel, it
    returns what the re-projector on trees returns, in cells that are new,
    and it leaves every cell of the store it started from as it was. *)
Lemma store_apply_refines (offs : offsets) (fuel : nat) (h : heap) (n : node) :
  in_heap h n ->
  NoDup (locs n) ->
  (Store.depth n <= fuel)%nat ->
  distinct_json_keys (erase n) ->
  match apply_keypoint_offsets_to_payload (erase n) offs with
  | Ok adjusted =>
      exists h' n',
        Store.apply_keypoint_offsets_to_payload fuel (val_of n) offs h
        = Ok (val_of n', h')
        /\ in_heap h' n'
        /\ NoDup (locs n')
        /\ erase n' = adjusted
        /\ (forall x, (x < List.length h)%nat -> nth_error h' x = nth_error h x)
        /\ (forall l items, n = NDict l items ->
              forall x, In x (locs n') -> (List.length h <= x)%nat)
  | Raise e =>
      Store.apply_keypoint_offsets_to_payload fuel (val_of n) offs h = Raise e
  end.
Proof.
  intros Hn Hnd Hdepth Hkeys.
  destruct n as [v|l items|l items].
  - unfold Store.apply_keypoint_offsets_to_payload, Store.bindM.
    rewrite (as_dict_node h _ Hn).
    cbn in Hn. destruct v; try discriminate;
      (exists h; eexists (NAtom _); split; [reflexivity|]; repeat split; auto;
       try constructor; intros; discriminate).
  - unfold Store.apply_keypoint_offsets_to_payload, Store.bindM.
    rewrite (as_dict_node h _ Hn).
    cbn [Store.erase apply_keypoint_offsets_to_payload].
    exists h, (NList l items). split; [reflexivity|].
    split; [exact Hn|]. split; [exact Hnd|]. split; [reflexivity|].
    split; [reflexivity|]. intros; discriminate.
  - cbn [Store.erase] in Hkeys |- *.
    destruct (store_deepcopy (NDict l items) fuel h Hn Hdepth)
      as (h1 & n1 & E1 & Hn1 & Hnd1 & Her1 & Hfresh1 & Hsame1 & Hlen1).
    assert (Her1' : erase n1 = JDict (map_values erase items)) by exact Her1.
    destruct (erase_dict_node n1 (map_values erase items) Her1')
      as (la & items1 & -> & Hitems1).
    clear Her1'. cbn [Store.val_of] in E1 |- *.
    rewrite (store_apply_steps offs fuel h h1 l la items items1 Hn E1 Hn1).
    rewrite Hitems1 in Hkeys |- *. rewrite tree_apply_steps.
    destruct (is_empty offs).
    { exists h1, (NDict la items1). split; [reflexivity|].
      split; [exact Hn1|]. split; [exact Hnd1|]. split; [reflexivity|].
      split; [exact Hsame1|]. intros _ _ _. exact Hfresh1. }
    pose proof (store_persons_stage offs h1 la items1 Hn1 Hnd1 Hkeys) as Hstage.
    fold (persons_stage offs items1) in Hstage.
    match type of Hstage with
    | match ?t with _ => _ end => destruct t as [d1|e] eqn:Et
    end; cbn [bind]; [|now rewrite Hstage].
    destruct Hstage as (h2 & items2 & E2 & U2 & R2 & Hother2). rewrite E2.
    pose proof U2 as (Hn2 & Hnd2 & _).
    assert (Hkeys2 : forall k c, In k candidate_keys -> dict_get items2 k = Some c ->
                                 distinct_json_keys (erase c)).
    { intros k c Hk. rewrite Hother2.
      - now apply distinct_node_child.
      - unfold persons_key_of. cbn in Hk.
        destruct Hk as [<-|[<-|[<-|[]]]];
          destruct (truthy (erase (child items1 "persons"))); reflexivity. }
    pose proof (store_process_candidates offs la candidate_keys h2 items2 Hn2 Hnd2
                  candidate_keys_distinct Hkeys2) as Hcand.
    rewrite R2 in Hcand. unfold Store.process_candidates.
    destruct (process_candidates offs candidate_keys d1) as [d3|e]; cbn [bind];
      [|now rewrite Hcand].
    destruct Hcand as (h3 & items3 & E3 & U3 & R3). rewrite E3.
    pose proof (updates_trans _ _ _ _ _ _ U2 U3)
      as (Hn3 & Hnd3 & _ & Hsub3 & Hfr3 & Hlen3).
    exists h3, (NDict la items3). split; [reflexivity|].
    split; [exact Hn3|]. split; [exact Hnd3|]. split; [cbn; now rewrite R3|].
    split.
    + intros x Hx. rewrite Hfr3; [now apply Hsame1|lia|].
      intro Hin. apply Hfresh1 in Hin. lia.
    + intros _ _ _ x Hx. destruct (Hsub3 x Hx) as [H|H]; [now apply Hfresh1|lia].
Qed.

(** ** What the re-projector does to an entry *)

Lemma shift_axis_converted (d : delta) (holder : dict) (axis : string)
    (v : json) (q : Q) :
  dict_get holder axis = Some v -> py_float v = Ok q ->
  shift_axis d holder axis = dict_set holder axis (JNum (q + delta_get d axis)).
Proof.
  intros Hv Hq. unfold shift_axis. rewrite Hv, Hq.
  destruct v; try discriminate; reflexivity.
Qed.

Lemma shift_axis_untouched (d : delta) (holder : dict) (axis : string) :
  (dict_get holder axis = None
   \/ exists v, dict_get holder axis = Some v /\ raises (py_float v) = true) ->
  shift_axis d holder axis = holder.
Proof.
  unfold shift_axis. intros [->|(v & -> & Hv)]; [reflexivity|].
  destruct (is_None v); [reflexivity|].
  destruct (py_float v); [discriminate|reflexivity].
Qed.

Lemma apply_delta_no_offset (offs : offsets) (entry : dict) (name : key) :
  no_delta (lookup_get offs name) = true -> _apply_delta offs entry name = entry.
Proof.
  unfold _apply_delta. destruct (lookup_get offs name) as [d|]; [|reflexivity].
  now intros ->.
Qed.

Lemma apply_delta_with_offset (offs : offsets) (entry : dict) (name : key)
    (d : delta) :
  lookup_get offs name = Some d -> no_delta (Some d) = false ->
  _apply_delta offs entry name
  = match dict_get entry "position" with
    | Some (JDict (item :: position)) =>
        dict_set (shift_xy d entry) "position"
                 (JDict (shift_xy d (item :: position)))
    | _ => shift_xy d entry
    end.
Proof.
  intros Hd Hno. unfold _apply_delta. rewrite Hd, Hno. unfold get.
  rewrite shift_xy_other by reflexivity.
  destruct (dict_get entry "position") as [[| | | | |[|item position]]|]; reflexivity.
Qed.

Lemma process_item_sequence (offs : offsets) (name : string) (d : delta)
    (e0 e1 : json) (rest : list json) :
  lookup_get offs (KStr name) = Some d -> no_delta (Some d) = false ->
  process_item offs (name, JList (e0 :: e1 :: rest))
  = match py_float e0, py_float e1 with
    | Ok a, Ok b =>
        (name, JList (JNum (a + delta_get d "x") :: JNum (b + delta_get d "y") :: rest))
    | _, _ => (name, JList (e0 :: e1 :: rest))
    end.
Proof.
  intros Hd Hno. unfold process_item. rewrite Hd, Hno.
  destruct (py_float e0); cbn [bind]; [|reflexivity].
  destruct (py_float e1); reflexivity.
Qed.

(** ** Exceptions of the re-projector *)

Lemma mapM_raises {A B : Type} (f : A -> result B) (xs : list A) (e : exn) :
  (forall x e', f x = Raise e' -> e' = TypeError) ->
  mapM f xs = Raise e -> e = TypeError.
Proof.
  intro Hf. induction xs as [|x rest IH]; cbn; [discriminate|].
  destruct (f x) as [y|e'] eqn:E; cbn.
  - destruct (mapM f rest); cbn; [discriminate|]. intros [= <-]. now apply IH.
  - intros [= <-]. now apply (Hf x).
Qed.

Lemma process_entry_raises (offs : offsets) (entry : json) (e : exn) :
  process_entry offs entry = Raise e -> e = TypeError.
Proof.
  unfold process_entry. destruct entry as [| | | | |d]; try discriminate.
  destruct (truthy _); [|discriminate].
  destruct (key_of _) eqn:E; cbn; [discriminate|].
  intros [= <-]. now apply key_of_raises in E.
Qed.

Lemma process_keypoints_raises (offs : offsets) (container : json) (e : exn) :
  _process_keypoints offs container = Raise e -> e = TypeError.
Proof.
  unfold _process_keypoints. destruct container as [| | | |entries|]; try discriminate.
  destruct (mapM (process_entry offs) entries) eqn:E; cbn; [discriminate|].
  intros [= <-]. apply (mapM_raises _ _ _ (process_entry_raises offs) E).
Qed.

Lemma process_candidates_raises (offs : offsets) (names : list string)
    (holder : dict) (e : exn) :
  process_candidates offs names holder = Raise e -> e = TypeError.
Proof.
  revert holder. induction names as [|name rest IH]; intros holder; cbn;
    [discriminate|].
  destruct (dict_get holder name) as [c|]; [|apply IH].
  destruct (_process_keypoints offs c) eqn:E; cbn; [apply IH|].
  intros [= <-]. now apply process_keypoints_raises in E.
Qed.

Lemma process_person_raises (offs : offsets) (person : json) (e : exn) :
  process_person offs person = Raise e -> e = TypeError.
Proof.
  unfold process_person. destruct person as [| | | | |p]; try discriminate.
  destruct (process_candidates offs candidate_keys p) eqn:E; cbn; [discriminate|].
  intros [= <-]. now apply process_candidates_raises in E.
Qed.

(** The re-projector raises nothing but the [TypeError] of a part name
    that is a list or a dict. *)
Lemma apply_keypoint_offsets_raises (payload : json) (offs : offsets) (e : exn) :
  apply_keypoint_offsets_to_payload payload offs = Raise e -> e = TypeError.
Proof.
  unfold apply_keypoint_offsets_to_payload.
  destruct payload as [| | | | |p]; try discriminate.
  destruct (is_empty offs); [discriminate|]. cbv zeta.
  match goal with
  | |- bind ?m _ = _ -> _ => destruct m as [adjusted|e'] eqn:E
  end; cbn [bind].
  - destruct (process_candidates offs candidate_keys adjusted) eqn:Ec; cbn;
      [discriminate|].
    intros [= <-]. now apply process_candidates_raises in Ec.
  - intros [= <-].
    destruct (py_or (get p "persons") (get p "people")); try discriminate.
    destruct (mapM (process_person offs) xs) eqn:Em; cbn in E; [discriminate|].
    injection E as <-. apply (mapM_raises _ _ _ (process_person_raises offs) Em).
Qed.

Lemma process_item_no_offset (offs : offsets) (name : string) (xs : list json) :
  no_delta (lookup_get offs (KStr name)) = true ->
  process_item offs (name, JList xs) = (name, JList xs).
Proof.
  intro H. unfold process_item. destruct xs as [|e0 [|e1 rest]]; try reflexivity.
  destruct (lookup_get offs (KStr name)) as [d|]; [|reflexivity]. now rewrite H.
Qed.

(** A payload with one keypoint container, under ['keypoints'] at the top
    level: the container is processed where it stands. *)
Lemma apply_single_container (p : dict) (offs : offsets) (container container' : json) :
  is_empty offs = false ->
  (forall xs, py_or (get p "persons") (get p "people") <> JList xs) ->
  dict_get p "keypoints" = Some container ->
  dict_get p "pose_keypoints" = None ->
  dict_get p "pose_keypoints_2d" = None ->
  _process_keypoints offs container = Ok container' ->
  apply_keypoint_offsets_to_payload (JDict p) offs
  = Ok (JDict (dict_set p "keypoints" container')).
Proof.
  intros Hoffs Hpersons Hk Hp Hp2 Hc. unfold apply_keypoint_offsets_to_payload.
  rewrite Hoffs. cbv zeta.
  destruct (py_or (get p "persons") (get p "people")) as [| | | |xs|] eqn:E;
    try (now destruct (Hpersons xs));
    cbn [bind process_candidates candidate_keys];
    rewrite Hk, Hc; cbn [bind];
    rewrite !dict_get_set; cbn; now rewrite Hp, Hp2.
Qed.




(** * Further properties *)

(** ** The manual check *)

Lemma analyse_region_good (current : by_region Q) (rules : by_region rule)
    (r : region) :
  row_status (analyse_region current rules r) = "GOOD"
  <-> state_of (at_region current r) (at_region rules r) = "GOOD".
Proof.
  unfold analyse_region, state_of, Qltb.
  destruct (Qle_bool (rule_min (at_region rules r)) (at_region current r));
    destruct (Qle_bool (at_region current r) (rule_max (at_region rules r)));
    cbn; split; intro H; try reflexivity; discriminate.
Qed.

Lemma classify_aligned_iff (angles : by_region Q) (rules : by_region rule) :
  classify_posture_state angles rules = "Aligned Posture"
  <-> forall r, state_of (at_region angles r) (at_region rules r) = "GOOD".
Proof.
  rewrite classify_by_states. split.
  - intro H.
    assert (Hs : forall a rl, state_of a rl = "GOOD" \/ state_of a rl = "BAD")
      by (intros a rl; unfold state_of; destruct (_ && _)%bool; auto).
    destruct (Hs (neck angles) (neck rules)) as [E1|E1];
      destruct (Hs (back angles) (back rules)) as [E2|E2];
      destruct (Hs (legs angles) (legs rules)) as [E3|E3];
      rewrite E1, E2, E3 in H; cbn in H; try discriminate.
    intros [| |]; assumption.
  - intro H.
    rewrite (H Neck : state_of (neck angles) (neck rules) = "GOOD").
    rewrite (H Back : state_of (back angles) (back rules) = "GOOD").
    rewrite (H Legs : state_of (legs angles) (legs rules) = "GOOD").
    reflexivity.
Qed.

Lemma analyse_region_row (current personal : by_region Q) (r : region) :
  let row := analyse_region current (build_manual_rules personal) r in
  let angle := at_region current r in
  let ideal := at_region personal r in
  row_region row = r
  /\ row_angle row = angle
  /\ (angle < ideal - 10 ->
      row_status row = "INCORRECT (Too Bent/Forward)"
      /\ row_suggestion row = low (at_region POSTURE_SUGGESTIONS r))
  /\ (ideal + 10 < angle ->
      row_status row = "INCORRECT (Too Reclined/Extended)"
      /\ row_suggestion row = high (at_region POSTURE_SUGGESTIONS r))
  /\ (within_tolerance angle ideal ->
      row_status row = "GOOD" /\ row_suggestion row = "No correction needed.").
Proof.
  cbv zeta. unfold analyse_region, within_tolerance.
  assert (Hmin : rule_min (at_region (build_manual_rules personal) r)
                 = at_region personal r - 10) by (destruct r; reflexivity).
  assert (Hmax : rule_max (at_region (build_manual_rules personal) r)
                 = at_region personal r + 10) by (destruct r; reflexivity).
  assert (Hlow : low_suggestion (at_region (build_manual_rules personal) r)
                 = low (at_region POSTURE_SUGGESTIONS r)) by (destruct r; reflexivity).
  assert (Hhigh : high_suggestion (at_region (build_manual_rules personal) r)
                  = high (at_region POSTURE_SUGGESTIONS r)) by (destruct r; reflexivity).
  rewrite Hmin, Hmax, Hlow, Hhigh.
  destruct (Qltb (at_region current r) (at_region personal r - 10)) eqn:E1;
    [apply Qltb_lt in E1 | apply Qltb_ge in E1].
  - cbn. repeat split; intros; try reflexivity; exfalso; qlra.
  - destruct (Qltb (at_region personal r + 10) (at_region current r)) eqn:E2;
      [apply Qltb_lt in E2 | apply Qltb_ge in E2];
      cbn; repeat split; intros; try reflexivity; exfalso; qlra.
Qed.


(** X2. The label tells which axes are misaligned: two checks with the
    same label have the same GOOD/BAD state on the neck, on the back and
    on the legs. *)
Theorem label_identifies_states :
  forall (angles angles' : by_region Q) (rules rules' : by_region rule),
    classify_posture_state angles rules = classify_posture_state angles' rules'
    -> posture_state angles rules = posture_state angles' rules'.
Proof.
  intros angles angles' rules rules'. rewrite !classify_by_states.
  unfold posture_state.
  assert (Hs : forall a rl, state_of a rl = "GOOD" \/ state_of a rl = "BAD")
    by (intros a rl; unfold state_of; destruct (_ && _)%bool; auto).
  destruct (Hs (neck angles) (neck rules)) as [-> | ->];
    destruct (Hs (back angles) (back rules)) as [-> | ->];
    destruct (Hs (legs angles) (legs rules)) as [-> | ->];
    destruct (Hs (neck angles') (neck rules')) as [-> | ->];
    destruct (Hs (back angles') (back rules')) as [-> | ->];
    destruct (Hs (legs angles') (legs rules')) as [-> | ->];
    cbn; intro H; try reflexivity; discriminate.
Qed.

Lemma label_identifies_states_witness :
  classify_posture_state (mk_by_region 135 100 120)
                         (build_manual_rules (mk_by_region 150 100 120))
  = classify_posture_state (mk_by_region 170 95 125)
                           (build_manual_rules (mk_by_region 150 100 120))
  /\ posture_state (mk_by_region 135 100 120)
                   (build_manual_rules (mk_by_region 150 100 120))
     = posture_state (mk_by_region 170 95 125)
                     (build_manual_rules (mk_by_region 150 100 120)).
Proof.
  split; [reflexivity|].
  apply (label_identifies_states (mk_by_region 135 100 120) (mk_by_region 170 95 125)).
  reflexivity.
Defined.

(** ** The score *)

Lemma Qabs_ge_opp (x : Q) : - x <= Qabs x.
Proof. rewrite <- Qabs_opp. apply Qle_Qabs. Qed.

Lemma worst_diff_half_range (lo hi ideal : Q) :
  (hi - lo) / 2
  <= Qabs ((if Qltb (Qabs (hi - ideal)) (Qabs (lo - ideal)) then lo else hi) - ideal).
Proof.
  pose proof (Qabs_ge_opp (lo - ideal)) as Ha.
  pose proof (Qle_Qabs (hi - ideal)) as Hb.
  destruct (Qltb (Qabs (hi - ideal)) (Qabs (lo - ideal))) eqn:E;
    [apply Qltb_lt in E | apply Qltb_ge in E].
  - set (a := Qabs (lo - ideal)) in *. set (b := Qabs (hi - ideal)) in *.
    apply Qle_shift_div_r; [reflexivity|]. qlra.
  - set (a := Qabs (lo - ideal)) in *. set (b := Qabs (hi - ideal)) in *.
    apply Qle_shift_div_r; [reflexivity|]. qlra.
Qed.

Lemma square_le (h w : Q) : 0 <= h -> h <= w -> h ^ 2 <= w ^ 2.
Proof. intros H0 H1. simpl. Lqa.nra. Qed.

Lemma compute_manual_max_deviation_bound (personal : by_region Q) :
  4225.9528375 <= compute_manual_max_deviation personal.
Proof.
  unfold compute_manual_max_deviation. cbn [fold_left regions at_region].
  cbn [ANGLE_LIMITS ANGLE_WEIGHTS neck back legs lim_min lim_max].
  pose proof (worst_diff_half_range 125.19 178.45 (neck personal)) as Hn.
  pose proof (worst_diff_half_range 59.70 145.25 (back personal)) as Hb.
  pose proof (worst_diff_half_range 86.13 164.73 (legs personal)) as Hl.
  set (wn := Qabs _) in Hn |- *.
  set (wb := Qabs _) in Hb |- *.
  set (wl := Qabs _) in Hl |- *.
  apply square_le in Hn; [|vm_compute; discriminate].
  apply square_le in Hb; [|vm_compute; discriminate].
  apply square_le in Hl; [|vm_compute; discriminate].
  set (sn := wn ^ 2) in *. set (sb := wb ^ 2) in *. set (sl := wl ^ 2) in *.
  assert (En : ((178.45 - 125.19) / 2) ^ 2 == 709.1569) by reflexivity.
  assert (Eb : ((145.25 - 59.70) / 2) ^ 2 == 1829.700625) by reflexivity.
  assert (El : ((164.73 - 86.13) / 2) ^ 2 == 1544.49) by reflexivity.
  rewrite En in Hn. rewrite Eb in Hb. rewrite El in Hl.
  qlra.
Qed.

Lemma within_tolerance_square (angle personal : Q) :
  within_toleranceb angle personal = true -> (angle - personal) ^ 2 <= 100.
Proof.
  intro H. apply within_toleranceb_iff in H. destruct H as [H1 H2].
  simpl. Lqa.nra.
Qed.

Lemma outside_tolerance_square (angle personal : Q) :
  within_toleranceb angle personal = false -> 100 < (angle - personal) ^ 2.
Proof.
  unfold within_toleranceb. intro H. apply andb_false_iff in H.
  destruct H as [H|H].
  - assert (Hlt : angle < personal - 10).
    { apply Qnot_le_lt. intro Hle. apply Qle_bool_iff in Hle. congruence. }
    simpl. Lqa.nra.
  - assert (Hlt : personal + 10 < angle).
    { apply Qnot_le_lt. intro Hle. apply Qle_bool_iff in Hle. congruence. }
    simpl. Lqa.nra.
Qed.

Lemma square_nonneg (x : Q) : 0 <= x ^ 2.
Proof. simpl. Lqa.nra. Qed.

Lemma score_of_manual_check (current personal : by_region Q) :
  score (run_manual_posture_check current personal)
  = py_max 0 (py_min 100 ((1 - weighted_deviation current personal
                                / compute_manual_max_deviation personal) * 100)).
Proof.
  unfold run_manual_posture_check. cbn [score]. unfold calculate_manual_score.
  pose proof (compute_manual_max_deviation_bound personal) as HT.
  destruct (Qle_bool (compute_manual_max_deviation personal) 0) eqn:E;
    [|reflexivity].
  apply Qle_bool_iff in E. exfalso. qlra.
Qed.


(** X4. A posture that the manual check labels "Aligned Posture" scores
    at least 92.9, and a posture with any other label scores less than
    100. *)
Theorem aligned_posture_scores_high :
  forall current personal : by_region Q,
    let summary := run_manual_posture_check current personal in
    (label summary = "Aligned Posture" -> 92.9 <= score summary)
    /\ (label summary <> "Aligned Posture" -> score summary < 100).
Proof.
  intros current personal. cbv zeta. rewrite score_of_manual_check.
  unfold run_manual_posture_check. cbn [label].
  pose proof (compute_manual_max_deviation_bound personal) as HT.
  pose proof (weighted_deviation_sum current personal) as Hwd.
  set (T := compute_manual_max_deviation personal) in *.
  set (wd := weighted_deviation current personal) in *.
  pose proof (state_of_manual_rule current personal Neck) as Sn.
  pose proof (state_of_manual_rule current personal Back) as Sb.
  pose proof (state_of_manual_rule current personal Legs) as Sl.
  cbn [at_region] in Sn, Sb, Sl.
  pose proof (square_nonneg (neck current - neck personal)) as Nn.
  pose proof (square_nonneg (back current - back personal)) as Nb.
  pose proof (square_nonneg (legs current - legs personal)) as Nl.
  split.
  - intro H0. pose proof (proj1 (classify_aligned_iff _ _) H0) as H.
    pose proof (H Neck) as Gn. pose proof (H Back) as Gb. pose proof (H Legs) as Gl.
    cbn [at_region] in Gn, Gb, Gl. rewrite Sn in Gn. rewrite Sb in Gb. rewrite Sl in Gl.
    destruct (within_toleranceb (neck current) (neck personal)) eqn:En;
      [|discriminate].
    destruct (within_toleranceb (back current) (back personal)) eqn:Eb;
      [|discriminate].
    destruct (within_toleranceb (legs current) (legs personal)) eqn:El;
      [|discriminate].
    apply within_tolerance_square in En, Eb, El.
    set (sn := (neck current - neck personal) ^ 2) in *.
    set (sb := (back current - back personal) ^ 2) in *.
    set (sl := (legs current - legs personal) ^ 2) in *.
    assert (Hq : wd / T <= 0.071).
    { apply Qle_shift_div_r; [qlra|]. clear Sn Sb Sl H H0 Gn Gb Gl. qlra. }
    set (q := wd / T) in *.
    destruct (py_min_spec 100 ((1 - q) * 100)) as [[H1 ->] | [H1 ->]];
      [destruct (py_max_spec 0 ((1 - q) * 100)) as [[H2 ->] | [H2 ->]]
      |destruct (py_max_spec 0 100) as [[H2 ->] | [H2 ->]]];
      clear Sn Sb Sl H H0 Gn Gb Gl; qlra.
  - intro H.
    assert (Hpos : 0 < wd).
    { destruct (within_toleranceb (neck current) (neck personal)) eqn:En;
        [|apply outside_tolerance_square in En; clear Sn Sb Sl H; qlra].
      destruct (within_toleranceb (back current) (back personal)) eqn:Eb;
        [|apply outside_tolerance_square in Eb; clear Sn Sb Sl H; qlra].
      destruct (within_toleranceb (legs current) (legs personal)) eqn:El;
        [|apply outside_tolerance_square in El; clear Sn Sb Sl H; qlra].
      exfalso. apply H. apply classify_aligned_iff.
      intros [| |]; cbn [at_region]; assumption. }
    assert (Hq : 0 < wd / T).
    { apply Qlt_shift_div_l; [qlra|]. clear Sn Sb Sl H. qlra. }
    set (q := wd / T) in *.
    destruct (py_min_spec 100 ((1 - q) * 100)) as [[H1 ->] | [H1 ->]];
      [destruct (py_max_spec 0 ((1 - q) * 100)) as [[H2 ->] | [H2 ->]]
      |destruct (py_max_spec 0 100) as [[H2 ->] | [H2 ->]]];
      clear Sn Sb Sl H; qlra.
Qed.

(** X5. For a given threshold and given personal angles the score does
    not increase with the weighted deviation: a posture that deviates no
    more than another scores at least as much. *)
Theorem score_decreases_with_deviation :
  forall (current current' personal : by_region Q) (max_threshold : Q),
    weighted_deviation current personal <= weighted_deviation current' personal ->
    calculate_manual_score current' personal max_threshold
    <= calculate_manual_score current personal max_threshold.
Proof.
  intros current current' personal T Hle. unfold calculate_manual_score.
  set (wd := weighted_deviation current personal) in *.
  set (wd' := weighted_deviation current' personal) in *.
  destruct (Qle_bool T 0) eqn:ET.
  - destruct (Qle_bool wd' 0.000001) eqn:E'.
    + apply Qle_bool_iff in E'.
      assert (E : Qle_bool wd 0.000001 = true) by (apply Qle_bool_iff; qlra).
      rewrite E. apply Qle_refl.
    + destruct (Qle_bool wd 0.000001); [discriminate|apply Qle_refl].
  - assert (HT : 0 < T).
    { apply Qnot_le_lt. intro H. apply Qle_bool_iff in H. congruence. }
    assert (Hq : wd / T <= wd' / T).
    { unfold Qdiv. apply Qmult_le_compat_r; [exact Hle|].
      apply Qlt_le_weak, Qinv_lt_0_compat, HT. }
    set (q := wd / T) in *. set (q' := wd' / T) in *.
    destruct (py_min_spec 100 ((1 - q) * 100)) as [[H1 ->] | [H1 ->]];
      destruct (py_min_spec 100 ((1 - q') * 100)) as [[H1' ->] | [H1' ->]];
      match goal with
      | |- py_max 0 ?a <= py_max 0 ?b =>
          destruct (py_max_spec 0 a) as [[H2 E2] | [H2 E2]];
          destruct (py_max_spec 0 b) as [[H2' E2'] | [H2' E2']];
          rewrite ?E2, ?E2'; clear E2 E2'
      end; qlra.
Qed.

Lemma score_decreases_with_deviation_witness :
  calculate_manual_score (mk_by_region 135 100 120) (mk_by_region 150 100 120) 4000
  <= calculate_manual_score (mk_by_region 140 100 120) (mk_by_region 150 100 120) 4000.
Proof.
  apply (score_decreases_with_deviation (mk_by_region 140 100 120)
           (mk_by_region 135 100 120) (mk_by_region 150 100 120) 4000).
  vm_compute. discriminate.
Defined.

(** ** The angle of three points, again *)

Lemma calculate_angle_of_zero_dot (a b c : coord) :
  dot (vec a b) (vec c b) = 0%R -> calculate_angle a b c = 90%R.
Proof.
  intro H. unfold calculate_angle. cbv zeta. rewrite H.
  unfold Rdiv at 1. rewrite Rmult_0_l. unfold clip.
  rewrite Rmax_left by rlra. rewrite Rmin_left by rlra.
  rewrite acos_0. unfold degrees. pose proof PI_RGT_0. field. rlra.
Qed.

Lemma vec_of_same_coord (p q : coord) : same_coord p q -> vec p q = (0%R, 0%R).
Proof.
  intros [Hx Hy]. unfold vec.
  rewrite (Qeq_eqR _ _ Hx), (Qeq_eqR _ _ Hy). f_equal; ring.
Qed.

(** X6. When an arm of the angle has no length, because the first or the
    last point is the vertex itself, the computed angle is 90 degrees:
    the guard of 1e-6 in the denominator makes the cosine 0, and nothing
    is divided by zero. *)
Theorem calculate_angle_degenerate :
  forall a b c : coord,
    same_coord a b \/ same_coord c b -> calculate_angle a b c = 90%R.
Proof.
  intros a b c H. apply calculate_angle_of_zero_dot.
  destruct H as [H|H]; rewrite (vec_of_same_coord _ _ H); unfold dot; cbn [fst snd];
    ring.
Qed.

Lemma calculate_angle_degenerate_witness :
  calculate_angle (mk_coord 2 3) (mk_coord 2 3) (mk_coord 7 1) = 90%R.
Proof.
  apply (calculate_angle_degenerate (mk_coord 2 3) (mk_coord 2 3) (mk_coord 7 1)).
  left. split; reflexivity.
Defined.

Lemma vec_translate (t p q : coord) : vec (translate t p) (translate t q) = vec p q.
Proof.
  unfold vec, translate. cbn [cx cy]. rewrite !Q2R_plus. f_equal; ring.
Qed.

(** X7. The angle does not depend on where the three points are, only on
    their relative positions: moving all three by the same shift leaves
    it unchanged. *)
Theorem calculate_angle_translation :
  forall t a b c : coord,
    calculate_angle (translate t a) (translate t b) (translate t c)
    = calculate_angle a b c.
Proof.
  intros t a b c. unfold calculate_angle. now rewrite !vec_translate.
Qed.

(** ** The keypoint normaliser *)

(** X8. The normaliser and the re-projector read the part name of an
    entry from the same four fields, but not in the same order: they
    agree whenever [part_name] or [name] is missing or empty, and when
    both are there the normaliser takes [part_name] and the re-projector
    [name]. *)
Theorem name_resolution_agreement :
  forall entry : dict,
    (truthy (get entry "part_name") = false \/ truthy (get entry "name") = false ->
     entry_name_normaliser entry = entry_name_reprojector entry)
    /\ (truthy (get entry "part_name") = true ->
        truthy (get entry "name") = true ->
        entry_name_normaliser entry = get entry "part_name"
        /\ entry_name_reprojector entry = get entry "name").
Proof.
  intro entry. unfold entry_name_normaliser, entry_name_reprojector, py_or.
  destruct (truthy (get entry "part_name")) eqn:Ep;
    destruct (truthy (get entry "name")) eqn:En;
    rewrite ?Ep, ?En; split; try (intros [H|H]; discriminate);
    try (intros; discriminate); try (intros; reflexivity).
  intros _ _. split; reflexivity.
Qed.

Lemma lookup_get_equiv {A : Type} (l : list (key * A)) (k k' : key) :
  key_eqb k k' = true -> lookup_get l k = lookup_get l k'.
Proof.
  intro H. induction l as [|[k0 v0] rest IH]; cbn; [reflexivity|].
  destruct (key_eqb k0 k) eqn:E0, (key_eqb k0 k') eqn:E1; try reflexivity.
  - now rewrite (key_eqb_trans _ _ _ E0 H) in E1.
  - rewrite key_eqb_sym in H. now rewrite (key_eqb_trans _ _ _ E1 H) in E0.
  - exact IH.
Qed.

Lemma lookup_set_invariant {A : Type} (P : key * A -> Prop)
    (l : list (key * A)) (k : key) (v : A) :
  Forall P l ->
  (forall k', In k' (map fst l) -> key_eqb k' k = true -> P (k', v)) ->
  P (k, v) ->
  Forall P (lookup_set l k v).
Proof.
  intros Hl Hold Hnew. induction l as [|[k0 v0] rest IH]; cbn.
  - constructor; [exact Hnew|constructor].
  - inversion Hl as [|? ? H0 Hrest]; subst.
    destruct (key_eqb k0 k) eqn:E.
    + constructor; [|exact Hrest]. apply Hold; [now left|exact E].
    + constructor; [exact H0|]. apply IH; [exact Hrest|].
      intros k' Hin. apply Hold. now right.
Qed.

Lemma truthy_name_named (name : json) (k : key) :
  truthy name = true -> key_of name = Ok k -> named k.
Proof.
  destruct name as [|b|q|s|xs|kvs]; cbn; intros Ht [= <-]; cbn.
  - discriminate.
  - subst b. discriminate.
  - intro Hq. apply Qeq_bool_iff in Hq. rewrite Hq in Ht. discriminate.
  - intros ->. discriminate.
Qed.

Lemma normalise_entries_invariant (entries : list json) (acc lookup : keypoints) :
  let complete (item : key * dict) :=
    named (fst item)
    /\ map fst (snd item) = ["x"; "y"; "confidence"; "visible"] in
  normalise_entries acc entries = Ok lookup ->
  distinct_keys acc -> Forall complete acc ->
  distinct_keys lookup /\ Forall complete lookup.
Proof.
  cbv zeta. revert acc.
  induction entries as [|entry rest IH]; intros acc; cbn [normalise_entries].
  - intros [= <-]. auto.
  - destruct (normalise_entry acc entry) as [acc'|] eqn:E; cbn [bind]; [|discriminate].
    intros H Hd Hc. apply (IH acc' H).
    + destruct entry; cbn in E; try (injection E as <-; exact Hd).
      destruct (truthy (entry_name_normaliser kvs)); cbn in E;
        [|injection E as <-; exact Hd].
      destruct (key_of (entry_name_normaliser kvs)); cbn in E; [|discriminate].
      injection E as <-. now apply lookup_set_distinct.
    + destruct entry; cbn in E; try (injection E as <-; exact Hc).
      destruct (truthy (entry_name_normaliser kvs)) eqn:Et; cbn in E;
        [|injection E as <-; exact Hc].
      destruct (key_of (entry_name_normaliser kvs)) as [k|] eqn:Ek; cbn in E;
        [|discriminate].
      injection E as <-. apply lookup_set_invariant; [exact Hc| |].
      * intros k' Hin _. cbn [fst snd]. split; [|reflexivity].
        rewrite Forall_forall in Hc. apply in_map_iff in Hin.
        destruct Hin as ([k0 v0] & <- & Hin). apply (Hc _ Hin).
      * cbn [fst snd]. split; [|reflexivity].
        now apply (truthy_name_named (entry_name_normaliser kvs)).
Qed.

Lemma normalise_items_distinct (items : dict) (acc : keypoints) :
  distinct_keys acc -> distinct_keys (fold_left normalise_item items acc).
Proof.
  revert acc. induction items as [|[label payload] rest IH]; intros acc Hd; cbn.
  - exact Hd.
  - apply IH. destruct payload as [| | | |xs|d]; try exact Hd.
    + destruct xs as [|x [|y [|c rest']]]; try exact Hd.
      now apply lookup_set_distinct.
    + now apply lookup_set_distinct.
Qed.

(** X9. The map that the normaliser builds never has two entries for
    one part name, whatever the container; and from a list-shaped
    container every entry of the map has a part name that is not empty
    and exactly the four fields x, y, confidence and visible. *)
Theorem normalised_entries_are_complete :
  forall (raw_keypoints : json) (lookup : keypoints),
    _normalise_keypoints raw_keypoints = Ok lookup ->
    distinct_keys lookup
    /\ forall entries, raw_keypoints = JList entries ->
         Forall (fun item =>
                   named (fst item)
                   /\ map fst (snd item) = ["x"; "y"; "confidence"; "visible"])
                lookup.
Proof.
  intros raw lookup H.
  destruct raw as [| | | |entries|items]; cbn in H;
    try (injection H as <-; split; [exact I|intros; discriminate]).
  - destruct (normalise_entries_invariant entries [] lookup H I (Forall_nil _))
      as [Hd Hc].
    split; [exact Hd|]. intros entries' _. exact Hc.
  - injection H as <-. split; [|intros; discriminate].
    now apply normalise_items_distinct.
Qed.

Lemma normalised_entries_are_complete_witness :
  _normalise_keypoints nose_twice
  = Ok [(KStr "nose", [("x", JNum 5); ("y", JNull); ("confidence", JNull);
                       ("visible", JBool true)])]
  /\ distinct_keys [(KStr "nose", [("x", JNum 5); ("y", JNull); ("confidence", JNull);
                                   ("visible", JBool true)])].
Proof.
  split; [reflexivity|].
  exact (proj1 (normalised_entries_are_complete nose_twice _ eq_refl)).
Defined.

Lemma dict_get_notin {A : Type} (d : list (string * A)) (k : string) :
  ~ In k (map fst d) -> dict_get d k = None.
Proof.
  induction d as [|[k0 v0] rest IH]; cbn; [reflexivity|].
  intro H. destruct (String.eqb k0 k) eqn:E.
  - apply String.eqb_eq in E. tauto.
  - apply IH. tauto.
Qed.

Lemma normalise_item_value (acc : keypoints) (label : string) (payload : json) :
  normalise_item acc (label, payload)
  = match normalised_value payload with
    | Some d => lookup_set acc (KStr label) d
    | None => acc
    end.
Proof.
  destruct payload as [| | | |xs|d]; try reflexivity.
  destruct xs as [|x [|y [|c rest]]]; reflexivity.
Qed.

Lemma normalise_items_lookup (items : dict) (acc : keypoints) (label : string) :
  NoDup (map fst items) ->
  lookup_get (fold_left normalise_item items acc) (KStr label)
  = match dict_get items label with
    | Some payload =>
        match normalised_value payload with
        | Some d => Some d
        | None => lookup_get acc (KStr label)
        end
    | None => lookup_get acc (KStr label)
    end.
Proof.
  revert acc. induction items as [|[l p] rest IH]; intros acc Hnd;
    cbn [fold_left dict_get map fst] in *; [reflexivity|].
  inversion Hnd as [|? ? Hnotin Hrest]; subst.
  rewrite (IH _ Hrest). rewrite normalise_item_value.
  destruct (String.eqb l label) eqn:E.
  - apply String.eqb_eq in E. subst l.
    rewrite (dict_get_notin rest label Hnotin).
    destruct (normalised_value p) as [d|]; [|reflexivity].
    rewrite lookup_get_set. cbn. now rewrite String.eqb_refl.
  - destruct (normalised_value p) as [d|]; [|reflexivity].
    rewrite lookup_get_set. cbn [key_eqb]. now rewrite E.
Qed.

(** X10. From a dict-shaped container with distinct labels, the map has
    under a label the keypoint dict found there as it stands, or the
    dict of x, y and confidence made of the first three elements of the
    sequence found there; a label that is absent, or whose value is a
    scalar or a sequence of fewer than three elements, is not in the
    map. *)
Theorem normalised_dict_container_lookup :
  forall (items : dict) (label : string),
    NoDup (map fst items) ->
    exists lookup,
      _normalise_keypoints (JDict items) = Ok lookup
      /\ lookup_get lookup (KStr label)
         = match dict_get items label with
           | Some payload => normalised_value payload
           | None => None
           end.
Proof.
  intros items label Hnd. eexists. split; [reflexivity|].
  rewrite (normalise_items_lookup items [] label Hnd). cbn [lookup_get].
  destruct (dict_get items label) as [payload|]; [|reflexivity].
  now destruct (normalised_value payload).
Qed.

Lemma normalised_dict_container_lookup_witness :
  exists lookup,
    _normalise_keypoints (JDict mixed_container) = Ok lookup
    /\ lookup_get lookup (KStr "left_ear")
       = Some [("x", JNum 3); ("y", JNum 4); ("confidence", JNum 0.5)].
Proof.
  apply (normalised_dict_container_lookup mixed_container "left_ear").
  repeat constructor; cbn; intuition discriminate.
Defined.

(** ** Coordinates and their offsets *)

Lemma fold_coordinates_lookup (items : keypoints) (acc : coordinates) (k : key) :
  distinct_keys items ->
  lookup_get
    (fold_left
       (fun coords item =>
          match float_xy (snd item) with
          | Ok c => lookup_set coords (fst item) c
          | Raise _ => coords
          end)
       items acc) k
  = match lookup_get items k with
    | Some point =>
        match float_xy point with
        | Ok c => Some c
        | Raise _ => lookup_get acc k
        end
    | None => lookup_get acc k
    end.
Proof.
  revert acc. induction items as [|[k0 d0] rest IH]; intros acc Hd;
    cbn [fold_left lookup_get fst snd]; [reflexivity|].
  destruct Hd as [Hnone Hd]. rewrite (IH _ Hd).
  destruct (key_eqb k0 k) eqn:E.
  - rewrite <- (lookup_get_equiv rest k0 k E), Hnone.
    destruct (float_xy d0) as [c|]; [|reflexivity].
    now rewrite lookup_get_set, E.
  - assert (Hacc : forall c, lookup_get (lookup_set acc k0 c) k = lookup_get acc k)
      by (intro c; now rewrite lookup_get_set, E).
    destruct (float_xy d0) as [c|]; [rewrite Hacc|]; reflexivity.
Qed.



Lemma fold_offsets_lookup (personal_map items : coordinates) (acc : offsets)
    (k : key) :
  distinct_keys items ->
  lookup_get
    (fold_left
       (fun offs item =>
          let '(name, base_point) := item in
          match lookup_get personal_map name with
          | None => offs
          | Some personal_point =>
              let delta_x := cx personal_point - cx base_point in
              let delta_y := cy personal_point - cy base_point in
              lookup_set offs name (mk_delta (Some delta_x) (Some delta_y))
          end)
       items acc) k
  = match lookup_get items k, lookup_get personal_map k with
    | Some b, Some p => Some (mk_delta (Some (cx p - cx b)) (Some (cy p - cy b)))
    | _, _ => lookup_get acc k
    end.
Proof.
  revert acc. induction items as [|[k0 b0] rest IH]; intros acc Hd;
    cbn [fold_left lookup_get]; [reflexivity|].
  destruct Hd as [Hnone Hd]. rewrite (IH _ Hd).
  destruct (key_eqb k0 k) eqn:E.
  - rewrite <- (lookup_get_equiv rest k0 k E), Hnone.
    rewrite <- (lookup_get_equiv personal_map k0 k E).
    destruct (lookup_get personal_map k0) as [p|]; [|reflexivity].
    cbv zeta. now rewrite lookup_get_set, E.
  - assert (Hacc : forall d, lookup_get (lookup_set acc k0 d) k = lookup_get acc k)
      by (intro d; now rewrite lookup_get_set, E).
    destruct (lookup_get personal_map k0) as [p0|]; cbv zeta; rewrite ?Hacc;
      reflexivity.
Qed.

Lemma lookup_get_of_empty {A : Type} (l : list (key * A)) (k : key) :
  is_empty l = true -> lookup_get l k = None.
Proof. destruct l; [reflexivity|discriminate]. Qed.

Lemma compute_offsets_lookup (base_map personal_map : coordinates) (k : key) :
  distinct_keys base_map ->
  lookup_get (compute_keypoint_coordinate_offsets base_map personal_map) k
  = match lookup_get base_map k, lookup_get personal_map k with
    | Some b, Some p => Some (mk_delta (Some (cx p - cx b)) (Some (cy p - cy b)))
    | _, _ => None
    end.
Proof.
  intro Hd. unfold compute_keypoint_coordinate_offsets.
  destruct (is_empty base_map) eqn:Eb; cbn [orb].
  - now rewrite (lookup_get_of_empty base_map k Eb).
  - destruct (is_empty personal_map) eqn:Ep.
    + rewrite (lookup_get_of_empty personal_map k Ep).
      now destruct (lookup_get base_map k).
    + exact (fold_offsets_lookup personal_map base_map [] k Hd).
Qed.

(** X12. The offset of a part is the user's coordinates minus the
    baseline's, on each axis, for every part that both coordinate maps
    have; a part that one of the maps lacks has no offset, and so has
    every part when one of the maps is empty. *)
Theorem coordinate_offsets_are_differences :
  forall (base_map personal_map : coordinates) (k : key),
    distinct_keys base_map ->
    lookup_get (compute_keypoint_coordinate_offsets base_map personal_map) k
    = match lookup_get base_map k, lookup_get personal_map k with
      | Some b, Some p => Some (mk_delta (Some (cx p - cx b)) (Some (cy p - cy b)))
      | _, _ => None
      end.
Proof.
  intros base_map personal_map k Hd. unfold compute_keypoint_coordinate_offsets.
  destruct (is_empty base_map) eqn:Eb; cbn [orb].
  - now rewrite (lookup_get_of_empty base_map k Eb).
  - destruct (is_empty personal_map) eqn:Ep.
    + rewrite (lookup_get_of_empty personal_map k Ep).
      now destruct (lookup_get base_map k).
    + exact (fold_offsets_lookup personal_map base_map [] k Hd).
Qed.

Lemma coordinate_offsets_are_differences_witness :
  lookup_get (compute_keypoint_coordinate_offsets base_coordinates personal_coordinates)
             (KStr "nose")
  = Some (mk_delta (Some (13 - 10)) (Some (18 - 20)))
  /\ lookup_get (compute_keypoint_coordinate_offsets base_coordinates
                                                      personal_coordinates)
                (KStr "left_hip")
     = None.
Proof.
  assert (Hd : distinct_keys base_coordinates) by (cbn; tauto).
  split.
  - exact (coordinate_offsets_are_differences base_coordinates personal_coordinates
             (KStr "nose") Hd).
  - exact (coordinate_offsets_are_differences base_coordinates personal_coordinates
             (KStr "left_hip") Hd).
Defined.

Lemma float_xy_fields (entry : dict) (c : coord) :
  float_xy entry = Ok c ->
  exists vx vy,
    dict_get entry "x" = Some vx /\ py_float vx = Ok (cx c)
    /\ dict_get entry "y" = Some vy /\ py_float vy = Ok (cy c).
Proof.
  unfold float_xy, get.
  destruct (dict_get entry "x") as [vx|]; [|discriminate].
  destruct (py_float vx) as [x|] eqn:Ex; cbn [bind]; [|discriminate].
  destruct (dict_get entry "y") as [vy|]; [|discriminate].
  destruct (py_float vy) as [y|] eqn:Ey; cbn [bind]; [|discriminate].
  intros [= <-]. exists vx, vy. cbn. auto.
Qed.

Lemma float_xy_shift_xy (d : delta) (entry : dict) (c : coord) :
  float_xy entry = Ok c ->
  float_xy (shift_xy d entry)
  = Ok (mk_coord (cx c + delta_get d "x") (cy c + delta_get d "y")).
Proof.
  intro H. destruct (float_xy_fields entry c H) as (vx & vy & Hx & Fx & Hy & Fy).
  unfold shift_xy.
  rewrite (shift_axis_converted d entry "x" vx (cx c) Hx Fx).
  assert (Hy' : dict_get (dict_set entry "x" (JNum (cx c + delta_get d "x"))) "y"
                = Some vy) by (now rewrite dict_get_set).
  rewrite (shift_axis_converted d _ "y" vy (cy c) Hy' Fy).
  unfold float_xy, get. rewrite !dict_get_set. cbn. reflexivity.
Qed.

Lemma float_xy_set_position (entry : dict) (v : json) :
  float_xy (dict_set entry "position" v) = float_xy entry.
Proof. unfold float_xy, get. now rewrite !dict_get_set. Qed.

Lemma float_xy_apply_delta (offs : offsets) (entry : dict) (name : key)
    (d : delta) (c : coord) :
  lookup_get offs name = Some d -> no_delta (Some d) = false ->
  float_xy entry = Ok c ->
  float_xy (_apply_delta offs entry name)
  = Ok (mk_coord (cx c + delta_get d "x") (cy c + delta_get d "y")).
Proof.
  intros Hd Hno Hc. rewrite (apply_delta_with_offset offs entry name d Hd Hno).
  destruct (dict_get entry "position") as [[| | | | |[|item position]]|];
    rewrite ?float_xy_set_position; now apply float_xy_shift_xy.
Qed.



(** ** What the re-projector leaves alone *)

Lemma dict_set_keys {A : Type} (d : list (string * A)) (k : string) (v v0 : A) :
  dict_get d k = Some v0 -> map fst (dict_set d k v) = map fst d.
Proof.
  induction d as [|[k0 w] rest IH]; cbn; [discriminate|].
  destruct (String.eqb k0 k); cbn; [reflexivity|].
  intro H. now rewrite (IH H).
Qed.

Lemma shift_axis_keys (d : delta) (holder : dict) (axis : string) :
  map fst (shift_axis d holder axis) = map fst holder.
Proof.
  unfold shift_axis. destruct (dict_get holder axis) as [v|] eqn:E; [|reflexivity].
  destruct (is_None v); [reflexivity|].
  destruct (py_float v); [|reflexivity].
  now apply (dict_set_keys holder axis _ v).
Qed.

Lemma shift_xy_keys (d : delta) (holder : dict) :
  map fst (shift_xy d holder) = map fst holder.
Proof. unfold shift_xy. now rewrite !shift_axis_keys. Qed.

Lemma apply_delta_keys (offs : offsets) (entry : dict) (name : key) :
  map fst (_apply_delta offs entry name) = map fst entry.
Proof.
  unfold _apply_delta. destruct (lookup_get offs name) as [d|]; [|reflexivity].
  destruct (no_delta (Some d)); [reflexivity|]. cbv zeta. unfold get.
  destruct (dict_get (shift_xy d entry) "position") as [v|] eqn:E;
    [|apply shift_xy_keys].
  destruct v; try apply shift_xy_keys.
  destruct (is_empty kvs); [apply shift_xy_keys|].
  rewrite (dict_set_keys _ "position" _ _ E). apply shift_xy_keys.
Qed.

Lemma apply_delta_other (offs : offsets) (entry : dict) (name : key) (k : string) :
  String.eqb "x" k = false -> String.eqb "y" k = false ->
  String.eqb "position" k = false ->
  dict_get (_apply_delta offs entry name) k = dict_get entry k.
Proof.
  intros Hx Hy Hp. unfold _apply_delta.
  destruct (lookup_get offs name) as [d|]; [|reflexivity].
  destruct (no_delta (Some d)); [reflexivity|]. cbv zeta.
  destruct (get (shift_xy d entry) "position"); try (now apply shift_xy_other).
  destruct (is_empty kvs); [now apply shift_xy_other|].
  rewrite dict_get_set, Hp. now apply shift_xy_other.
Qed.

Lemma mapM_length {A B : Type} (f : A -> result B) (l : list A) (l' : list B) :
  mapM f l = Ok l' -> List.length l' = List.length l.
Proof.
  revert l'. induction l as [|a rest IH]; intros l'; cbn.
  - now intros [= <-].
  - destruct (f a); cbn; [|discriminate].
    destruct (mapM f rest) as [bs|]; cbn; [|discriminate].
    intros [= <-]. cbn. now rewrite (IH bs eq_refl).
Qed.

Lemma process_item_label (offs : offsets) (item : string * json) :
  fst (process_item offs item) = fst item.
Proof.
  destruct item as [name entry]. cbn.
  destruct entry as [| | | |xs|e]; try reflexivity.
  destruct xs as [|e0 [|e1 rest]]; try reflexivity.
  destruct (lookup_get offs (KStr name)) as [[[a|] [b|]]|]; cbn; try reflexivity.
  all: destruct (py_float e0); cbn; [|reflexivity].
  all: destruct (py_float e1); reflexivity.
Qed.

Lemma process_candidates_frame (offs : offsets) (names : list string)
    (holder holder' : dict) :
  process_candidates offs names holder = Ok holder' ->
  map fst holder' = map fst holder
  /\ (forall k, existsb (String.eqb k) names = false ->
                dict_get holder' k = dict_get holder k).
Proof.
  revert holder. induction names as [|name rest IH]; intros holder;
    cbn [process_candidates].
  - intros [= <-]. auto.
  - destruct (dict_get holder name) as [container|] eqn:Ec.
    + destruct (_process_keypoints offs container) as [container'|];
        cbn [bind]; [|discriminate].
      intro H. destruct (IH _ H) as [IH1 IH2]. split.
      * rewrite IH1. now apply (dict_set_keys holder name _ container).
      * intros k Hk. cbn in Hk. apply orb_false_iff in Hk as [Hk1 Hk2].
        rewrite IH2 by exact Hk2. rewrite dict_get_set.
        now rewrite String.eqb_sym, Hk1.
    + intro H. destruct (IH _ H) as [IH1 IH2]. split; [exact IH1|].
      intros k Hk. cbn in Hk. apply orb_false_iff in Hk as [_ Hk2]. now apply IH2.
Qed.

(** X14. The re-projector changes coordinates and nothing else.  An
    entry keeps its fields in their order, and every field but x, y and
    position keeps its value; a container keeps its length or its
    labels; the adjusted payload has the fields of the payload in their
    order, and every field but persons, people and the three keypoint
    containers keeps its value; a payload that is no dict is returned as
    it is. *)
Theorem reprojection_keeps_other_fields :
  forall offs : offsets,
    (forall (entry : dict) (name : key),
        map fst (_apply_delta offs entry name) = map fst entry
        /\ forall k, String.eqb "x" k = false -> String.eqb "y" k = false ->
                     String.eqb "position" k = false ->
                     dict_get (_apply_delta offs entry name) k = dict_get entry k)
    /\ (forall container container',
           _process_keypoints offs container = Ok container' ->
           match container, container' with
           | JList entries, JList entries' =>
               List.length entries' = List.length entries
           | JDict items, JDict items' => map fst items' = map fst items
           | _, _ => container' = container
           end)
    /\ (forall (p : dict) (adjusted : json),
           apply_keypoint_offsets_to_payload (JDict p) offs = Ok adjusted ->
           exists a,
             adjusted = JDict a
             /\ map fst a = map fst p
             /\ forall k, existsb (String.eqb k) touched_keys = false ->
                          dict_get a k = dict_get p k)
    /\ (forall payload,
           (forall p, payload <> JDict p) ->
           apply_keypoint_offsets_to_payload payload offs = Ok payload).
Proof.
  intro offs. split; [|split; [|split]].
  - intros entry name. split; [apply apply_delta_keys|apply apply_delta_other].
  - intros container container'. destruct container as [| | | |entries|items]; cbn;
      try (now intros [= <-]).
    + destruct (mapM (process_entry offs) entries) as [entries'|] eqn:E; cbn;
        [|discriminate].
      intros [= <-]. now apply (mapM_length (process_entry offs)).
    + intros [= <-]. rewrite map_map. apply map_ext. apply process_item_label.
  - intros p adjusted. unfold apply_keypoint_offsets_to_payload.
    destruct (is_empty offs).
    { intros [= <-]. exists p. auto. }
    cbv zeta.
    set (persons_key := if truthy (get p "persons") then "persons" else "people").
    match goal with
    | |- bind ?m _ = _ -> _ => destruct m as [adjusted0|] eqn:E0
    end; cbn [bind]; [|discriminate].
    destruct (process_candidates offs candidate_keys adjusted0) as [a|] eqn:E1;
      cbn [bind]; [|discriminate].
    intros [= <-]. exists a. split; [reflexivity|].
    destruct (process_candidates_frame offs candidate_keys adjusted0 a E1)
      as [Hkeys Hframe].
    assert (Hstage : map fst adjusted0 = map fst p
                     /\ forall k, String.eqb persons_key k = false ->
                                  dict_get adjusted0 k = dict_get p k).
    { destruct (py_or (get p "persons") (get p "people")) as [| | | |persons|] eqn:EP;
        try (injection E0 as <-; auto).
      destruct (mapM (process_person offs) persons) as [persons'|];
        cbn [bind] in E0; [|discriminate].
      injection E0 as <-. split.
      - assert (Hhas : dict_get p persons_key = Some (JList persons)).
        { subst persons_key. unfold py_or in EP.
          destruct (truthy (get p "persons")); unfold get in EP.
          - destruct (dict_get p "persons"); [now rewrite EP|discriminate].
          - destruct (dict_get p "people"); [now rewrite EP|discriminate]. }
        now apply (dict_set_keys p persons_key _ _ Hhas).
      - intros k Hk. now rewrite dict_get_set, Hk. }
    destruct Hstage as [Hkeys0 Hother]. split; [now rewrite Hkeys|].
    intros k Hk. cbn in Hk.
    apply orb_false_iff in Hk as [Hk1 Hk].
    apply orb_false_iff in Hk as [Hk2 Hk].
    rewrite Hframe by exact Hk. apply Hother.
    subst persons_key. rewrite String.eqb_sym.
    destruct (truthy (get p "persons")); assumption.
  - intros payload Hnot. destruct payload; try reflexivity.
    now destruct (Hnot kvs).
Qed.

(** ** The samples that the preparer writes *)

Lemma apply_without_offsets (payload : json) :
  apply_keypoint_offsets_to_payload payload [] = Ok payload.
Proof. now destruct payload. Qed.

Lemma compute_offsets_without_personal (base_map : coordinates) :
  compute_keypoint_coordinate_offsets base_map [] = [].
Proof.
  unfold compute_keypoint_coordinate_offsets. now destruct (is_empty base_map).
Qed.

Lemma scan_candidates_absent (holder : dict) (names : list string)
    (acc : keypoints) :
  (forall k, In k names -> dict_get holder k = None) ->
  scan_candidates holder names acc = Ok acc.
Proof.
  induction names as [|name rest IH]; intro H; cbn; [reflexivity|].
  rewrite (H name) by now left. apply IH. intros k Hk. apply H. now right.
Qed.

Lemma build_lookup_without_keypoints (p : dict) :
  (forall k, In k touched_keys -> dict_get p k = None) ->
  _build_keypoints_lookup (JDict p) = Ok [].
Proof.
  intro H. unfold _build_keypoints_lookup, get.
  rewrite (H "persons") by (cbn; tauto). rewrite (H "people") by (cbn; tauto).
  cbn [py_or truthy first_person_keypoints bind is_empty].
  apply scan_candidates_absent.
  intros k Hk. apply H. cbn in Hk |- *. tauto.
Qed.



Lemma scan_candidates_local (holder holder' : dict) (names : list string)
    (acc : keypoints) :
  (forall k, In k names -> dict_get holder' k = dict_get holder k) ->
  scan_candidates holder' names acc = scan_candidates holder names acc.
Proof.
  revert acc. induction names as [|name rest IH]; intros acc H; cbn; [reflexivity|].
  rewrite (H name) by now left.
  assert (Hrest : forall k, In k rest -> dict_get holder' k = dict_get holder k)
    by (intros k Hk; apply H; now right).
  destruct (dict_get holder name) as [raw|]; [|now apply IH].
  destruct (_normalise_keypoints raw) as [found|]; cbn [bind]; [|reflexivity].
  destruct (is_empty found); [now apply IH|reflexivity].
Qed.

Lemma build_lookup_local (p p' : dict) :
  (forall k, In k touched_keys -> dict_get p' k = dict_get p k) ->
  _build_keypoints_lookup (JDict p') = _build_keypoints_lookup (JDict p).
Proof.
  intro H. unfold _build_keypoints_lookup, get.
  rewrite (H "persons") by (cbn; tauto). rewrite (H "people") by (cbn; tauto).
  destruct (first_person_keypoints _) as [kl|]; cbn [bind]; [|reflexivity].
  destruct (is_empty kl); [|reflexivity].
  apply scan_candidates_local. intros k Hk. apply H. cbn in Hk |- *. tauto.
Qed.

Lemma detector_extract_angles_local (c c' : dict) :
  (forall k, In k angle_keys -> dict_get c' k = dict_get c k) ->
  Detector._extract_angles (JDict c') = Detector._extract_angles (JDict c).
Proof.
  intro H. unfold Detector._extract_angles, float_angles, angle_keys, has_key, get.
  cbn [forallb].
  rewrite (H "neck") by (cbn; tauto). rewrite (H "back") by (cbn; tauto).
  rewrite (H "legs") by (cbn; tauto). reflexivity.
Qed.

Lemma get_angles_with_local
    (extract : json -> result (option (by_region Q))) (fields : list string)
    (p p' : dict) :
  (forall c c', (forall k, In k angle_keys -> dict_get c' k = dict_get c k) ->
                extract (JDict c') = extract (JDict c)) ->
  (forall k, In k fields -> dict_get p' k = dict_get p k) ->
  (forall k, In k angle_keys -> dict_get p' k = dict_get p k) ->
  (forall k, In k touched_keys -> dict_get p' k = dict_get p k) ->
  get_angles_with extract fields (JDict p') = get_angles_with extract fields (JDict p).
Proof.
  intros Hextract Hfields Hangles Htouched. unfold get_angles_with.
  rewrite (scan_angle_fields_local extract p p' fields Hfields).
  rewrite (Hextract p p' Hangles).
  now rewrite (build_lookup_local p p' Htouched).
Qed.

Lemma set_unread_key (p : dict) (k0 : string) (v : json) (keys : list string) :
  existsb (String.eqb k0) keys = false ->
  forall k, In k keys -> dict_get (dict_set p k0 v) k = dict_get p k.
Proof.
  intros H k Hk. rewrite dict_get_set.
  destruct (String.eqb k0 k) eqn:E; [|reflexivity].
  apply String.eqb_eq in E. subst k0.
  assert (Ht : existsb (String.eqb k) keys = true)
    by (apply existsb_exists; exists k; split; [exact Hk|apply String.eqb_refl]).
  congruence.
Qed.

(** X16. The extractors read twelve fields of a payload and no other:
    setting any other field leaves the angles they return as they were.
    So the file that the preparer writes for a capture, which is the
    adjusted payload with the field [personalization_adjustment] set,
    or, for a payload that is no dict, a dict of that field and of
    [raw_payload], yields the angles of the adjusted payload, whatever
    the personalization block holds. *)
Theorem augmented_file_reads_like_adjusted_payload :
  (forall (p : dict) (k0 : string) (v : json),
      existsb (String.eqb k0) read_keys = false ->
      get_angles_from_payload (JDict (dict_set p k0 v))
      = get_angles_from_payload (JDict p)
      /\ Detector.get_angles_from_payload (JDict (dict_set p k0 v))
         = Detector.get_angles_from_payload (JDict p))
  /\ (forall adjusted_payload personalization_block : json,
         get_angles_from_payload
           (augmented_payload adjusted_payload personalization_block)
         = get_angles_from_payload adjusted_payload
         /\ Detector.get_angles_from_payload
              (augmented_payload adjusted_payload personalization_block)
            = Detector.get_angles_from_payload adjusted_payload).
Proof.
  assert (Hlocal : forall (p : dict) (k0 : string) (v : json),
      existsb (String.eqb k0) read_keys = false ->
      get_angles_from_payload (JDict (dict_set p k0 v))
      = get_angles_from_payload (JDict p)
      /\ Detector.get_angles_from_payload (JDict (dict_set p k0 v))
         = Detector.get_angles_from_payload (JDict p)).
  { intros p k0 v H.
    assert (Hread : forall k, In k read_keys ->
                              dict_get (dict_set p k0 v) k = dict_get p k)
      by now apply set_unread_key.
    split.
    - apply get_angles_with_local.
      + intros c c' Hc. now apply extract_angles_local.
      + intros k Hk. apply Hread. cbn in Hk |- *. tauto.
      + intros k Hk. apply Hread. cbn in Hk |- *. tauto.
      + intros k Hk. apply Hread. cbn in Hk |- *. tauto.
    - apply get_angles_with_local.
      + intros c c' Hc. now apply detector_extract_angles_local.
      + intros k Hk. apply Hread. cbn in Hk |- *. tauto.
      + intros k Hk. apply Hread. cbn in Hk |- *. tauto.
      + intros k Hk. apply Hread. cbn in Hk |- *. tauto. }
  split; [exact Hlocal|].
  intros adjusted block. destruct adjusted; try (split; reflexivity).
  cbn [augmented_payload]. now apply Hlocal.
Qed.

(** ** The samples that the watcher writes *)

Lemma read_written_file (fs : filesystem) (filepath : string) (payload : json) :
  load_json (write_json fs filepath payload) filepath = Some payload.
Proof. unfold load_json, write_json. now rewrite String.eqb_refl. Qed.

Lemma read_other_file (fs : filesystem) (filepath other : string) (payload : json) :
  other <> filepath -> write_json fs filepath payload other = fs other.
Proof.
  intro H. unfold write_json.
  destruct (String.eqb other filepath) eqn:E; [|reflexivity].
  apply String.eqb_eq in E. contradiction.
Qed.



(** ** The reference posture that the application saves *)

Lemma append_not_empty (s t : string) :
  t <> ""%string -> String.eqb (s ++ t)%string "" = false.
Proof.
  intro H. destruct s; cbn; [|reflexivity].
  destruct t; [contradiction|reflexivity].
Qed.

Lemma path_join_not_empty (a b : string) :
  b <> ""%string -> String.eqb (path_join a b) "" = false.
Proof.
  intro H. unfold path_join.
  destruct (starts_with_slash b).
  - destruct b; [contradiction|reflexivity].
  - destruct (String.eqb a "" || ends_with_slash a)%bool.
    + now apply append_not_empty.
    + apply append_not_empty. discriminate.
Qed.

Lemma detector_reads_saved_reference (n b l timestamp user : json) :
  Detector.get_angles_from_payload
    (JDict [("angles", JDict [("neck", n); ("back", b); ("legs", l)]);
            ("timestamp", timestamp); ("user_id", user)])
  = Ok match float_angles [("neck", n); ("back", b); ("legs", l)] with
       | Ok a => Some (map_region Q2R a)
       | Raise _ => None
       end.
Proof.
  unfold Detector.get_angles_from_payload, get_angles_with.
  cbn -[float_angles Q2R].
  now destruct (float_angles [("neck", n); ("back", b); ("legs", l)]).
Qed.

Lemma lightgbm_reads_saved_reference (n b l timestamp user : json)
    (a : by_region Q) :
  float_angles [("neck", n); ("back", b); ("legs", l)] = Ok a ->
  get_angles_from_payload
    (JDict [("angles", JDict [("neck", n); ("back", b); ("legs", l)]);
            ("timestamp", timestamp); ("user_id", user)])
  = Ok (Some (map_region Q2R a)).
Proof.
  intro H. unfold get_angles_from_payload, get_angles_with.
  cbn -[float_angles Q2R]. now rewrite H.
Qed.



(** ** The prediction of the detector *)

Lemma py_int_bounds (x : Q) :
  0 <= x -> x <= 100 ->
  (0 <= PersonalizedPostureDetector.py_int x <= 100)%Z.
Proof.
  unfold Qle, PersonalizedPostureDetector.py_int. cbn [Qnum Qden]. intros H0 H1.
  split.
  - apply Z.quot_pos; lia.
  - apply Z.quot_le_upper_bound; lia.
Qed.

Lemma no_suggestion_iff (current : by_region Q) (rules : by_region rule) :
  map row_suggestion
      (filter (fun detail => negb (String.eqb (row_status detail) "GOOD"))
              (map (analyse_region current rules) regions))
  = []
  <-> forall r, row_status (analyse_region current rules r) = "GOOD".
Proof.
  cbn [map regions filter].
  destruct (String.eqb (row_status (analyse_region current rules Neck)) "GOOD") eqn:En;
    destruct (String.eqb (row_status (analyse_region current rules Back)) "GOOD") eqn:Eb;
    destruct (String.eqb (row_status (analyse_region current rules Legs)) "GOOD") eqn:El;
    cbn [negb map]; split; intro H; try reflexivity; try discriminate.
  - apply String.eqb_eq in En, Eb, El. intros [| |]; assumption.
  - rewrite (H Legs) in El. discriminate.
  - rewrite (H Back) in Eb. discriminate.
  - rewrite (H Back) in Eb. discriminate.
  - rewrite (H Neck) in En. discriminate.
  - rewrite (H Neck) in En. discriminate.
  - rewrite (H Neck) in En. discriminate.
  - rewrite (H Neck) in En. discriminate.
Qed.

Lemma analyse_region_suggestion (current personal : by_region Q) (r : region) :
  let row := analyse_region current (build_manual_rules personal) r in
  row_status row = "GOOD"
  \/ row_suggestion row = low (at_region POSTURE_SUGGESTIONS r)
  \/ row_suggestion row = high (at_region POSTURE_SUGGESTIONS r).
Proof.
  cbv zeta. unfold analyse_region.
  destruct (Qltb _ _); [right; left; now destruct r|].
  destruct (Qltb _ _); [right; right; now destruct r|].
  now left.
Qed.

Lemma predict_inversion (self : PersonalizedPostureDetector.detector)
    (angles_dict : dict) (r : PersonalizedPostureDetector.prediction) :
  PersonalizedPostureDetector.predict self angles_dict = Some r ->
  exists (current personal : by_region Q) (prediction_label : string),
    float_angles angles_dict = Ok current
    /\ PersonalizedPostureDetector.personal_angles self
       = Some (map_region Some personal)
    /\ r = PersonalizedPostureDetector.mk_prediction
             prediction_label
             (label (run_manual_posture_check current personal))
             (PersonalizedPostureDetector.py_int
                (score (run_manual_posture_check current personal)))
             (map row_suggestion
                  (filter (fun detail => negb (String.eqb (row_status detail) "GOOD"))
                          (details (run_manual_posture_check current personal))))
             current
             (details (run_manual_posture_check current personal)).
Proof.
  unfold PersonalizedPostureDetector.predict, float_angles,
    PersonalizedPostureDetector.subscript, get.
  destruct (PersonalizedPostureDetector.model self) as [model|]; [|discriminate].
  destruct (PersonalizedPostureDetector.encoder self) as [encoder|];
    [|discriminate].
  destruct (PersonalizedPostureDetector.personal_angles self)
    as [[[pn|] [pb|] [pl|]]|];
    cbn [PersonalizedPostureDetector.personal_axis at_region neck back legs].
  all: destruct (dict_get angles_dict "neck") as [vn|]; cbn [bind try_except];
    try discriminate.
  all: destruct (py_float vn) as [n|]; cbn [bind try_except]; try discriminate.
  all: destruct (dict_get angles_dict "back") as [vb|]; cbn [bind try_except];
    try discriminate.
  all: destruct (py_float vb) as [b|]; cbn [bind try_except]; try discriminate.
  all: destruct (dict_get angles_dict "legs") as [vl|]; cbn [bind try_except];
    try discriminate.
  all: destruct (py_float vl) as [l|]; cbn [bind try_except]; try discriminate.
  destruct (model _) as [code|]; cbn [bind try_except]; [|discriminate].
  destruct (encoder code) as [prediction_label|]; cbn [bind try_except];
    [|discriminate].
  unfold run_manual_posture_check. cbn [label score details].
  intros [= <-].
  exists (mk_by_region n b l), (mk_by_region pn pb pl), prediction_label.
  repeat split.
Qed.



(** X20. The detector answers [None], and raises nothing, when it has no
    model, no encoder or no personal angles, when its personal angles
    lack an axis, and when one of the three angles it is given is
    missing or does not convert to a number. *)
Theorem predict_unavailable :
  forall (self : PersonalizedPostureDetector.detector) (angles_dict : dict),
    (PersonalizedPostureDetector.model self = None
     \/ PersonalizedPostureDetector.encoder self = None
     \/ PersonalizedPostureDetector.personal_angles self = None
     \/ (exists personal r,
            PersonalizedPostureDetector.personal_angles self = Some personal
            /\ at_region personal r = None)
     \/ (exists k, In k angle_keys
                   /\ raises (do v <- PersonalizedPostureDetector.subscript angles_dict k;
                              py_float v) = true)) ->
    PersonalizedPostureDetector.predict self angles_dict = None.
Proof.
  intros self angles_dict H. unfold PersonalizedPostureDetector.predict.
  destruct (PersonalizedPostureDetector.model self) as [model|]; [|reflexivity].
  destruct (PersonalizedPostureDetector.encoder self) as [encoder|];
    [|reflexivity].
  destruct (PersonalizedPostureDetector.personal_angles self) as [personal|];
    [|reflexivity].
  destruct H as [H|[H|[H|[H|H]]]]; try discriminate.
  - destruct H as (personal' & r & [= <-] & Hr).
    destruct (do v <- PersonalizedPostureDetector.subscript angles_dict "neck";
              py_float v); cbn [bind try_except]; [|reflexivity].
    destruct (do v <- PersonalizedPostureDetector.subscript angles_dict "back";
              py_float v); cbn [bind try_except]; [|reflexivity].
    destruct (do v <- PersonalizedPostureDetector.subscript angles_dict "legs";
              py_float v); cbn [bind try_except]; [|reflexivity].
    unfold PersonalizedPostureDetector.personal_axis. cbn [at_region].
    destruct r; cbn [at_region] in Hr; rewrite Hr.
    + reflexivity.
    + now destruct (neck personal).
    + destruct (neck personal); [|reflexivity]. now destruct (back personal).
  - destruct H as (k & Hk & Hraise). cbn in Hk.
    destruct Hk as [<-|[<-|[<-|[]]]].
    + destruct (do v <- PersonalizedPostureDetector.subscript angles_dict "neck";
                py_float v); [discriminate|reflexivity].
    + destruct (do v <- PersonalizedPostureDetector.subscript angles_dict "neck";
                py_float v); cbn [bind try_except]; [|reflexivity].
      destruct (do v <- PersonalizedPostureDetector.subscript angles_dict "back";
                py_float v); [discriminate|reflexivity].
    + destruct (do v <- PersonalizedPostureDetector.subscript angles_dict "neck";
                py_float v); cbn [bind try_except]; [|reflexivity].
      destruct (do v <- PersonalizedPostureDetector.subscript angles_dict "back";
                py_float v); cbn [bind try_except]; [|reflexivity].
      destruct (do v <- PersonalizedPostureDetector.subscript angles_dict "legs";
                py_float v); [discriminate|reflexivity].
Qed.

Lemma predict_unavailable_witness :
  PersonalizedPostureDetector.predict partial_detector sample_angles = None
  /\ PersonalizedPostureDetector.predict sample_detector [("neck", JNum 135)] = None.
Proof.
  split.
  - apply (predict_unavailable partial_detector sample_angles).
    right. right. right. left.
    exists (mk_by_region (Some 150) (Some 100) None), Legs. split; reflexivity.
  - apply (predict_unavailable sample_detector [("neck", JNum 135)]).
    right. right. right. right. exists "back". split; [cbn; tauto|reflexivity].
Defined.

(** ** The paths of a user profile *)

Lemma append_cancel_l (s a b : string) : (s ++ a = s ++ b)%string -> a = b.
Proof. induction s as [|c s IH]; cbn; [auto|]. intros [= H]. now apply IH. Qed.

Lemma string_length_append (a b : string) :
  String.length (a ++ b) = (String.length a + String.length b)%nat.
Proof. induction a as [|c a IH]; cbn; [reflexivity|]. now rewrite IH. Qed.

Lemma append_cancel_r (s a b : string) : (a ++ s = b ++ s)%string -> a = b.
Proof.
  revert b. induction a as [|c a IH]; intros [|c' b] H.
  - reflexivity.
  - apply (f_equal String.length) in H. cbn in H.
    rewrite string_length_append in H. lia.
  - apply (f_equal String.length) in H. cbn in H.
    rewrite string_length_append in H. lia.
  - cbn in H. injection H as -> H. f_equal. now apply IH.
Qed.

Lemma ends_with_slash_append (s u : string) :
  u <> ""%string -> ends_with_slash (s ++ u) = ends_with_slash u.
Proof.
  intro Hu. induction s as [|c s IH]; [reflexivity|].
  cbn [append]. rewrite <- IH.
  destruct (s ++ u)%string eqn:E; [|reflexivity].
  destruct s; cbn in E; [contradiction|discriminate].
Qed.

Lemma plain_id_parts (u : string) :
  plain_id u = true ->
  u <> ""%string /\ starts_with_slash u = false /\ ends_with_slash u = false.
Proof.
  unfold plain_id. intro H.
  apply andb_true_iff in H as [H H3]. apply andb_true_iff in H as [H1 H2].
  apply negb_true_iff in H1, H2, H3. repeat split; try assumption.
  intros ->. discriminate.
Qed.

Lemma profile_file_path (u file : string) :
  plain_id u = true -> starts_with_slash file = false ->
  path_join (path_join USER_PROFILES_ROOT u) file
  = ("user_profiles/" ++ u ++ "/" ++ file)%string.
Proof.
  intros Hu Hfile. destruct (plain_id_parts u Hu) as (Hne & Hstart & Hend).
  assert (Hroot : path_join USER_PROFILES_ROOT u = ("user_profiles/" ++ u)%string).
  { unfold path_join. now rewrite Hstart. }
  rewrite Hroot. unfold path_join at 1. rewrite Hfile.
  rewrite (append_not_empty "user_profiles/" u Hne).
  rewrite (ends_with_slash_append "user_profiles/" u Hne), Hend. reflexivity.
Qed.



(** ** The two paths of the angle extractor *)

Lemma required_point_iff (lookup : keypoints) (part : string) (c : coord) :
  required_point lookup part = Some c
  <-> CONFIDENCE_THRESHOLD <= _confidence (lookup_get lookup (KStr part))
      /\ exists point,
           lookup_get lookup (KStr part) = Some point /\ float_xy point = Ok c.
Proof.
  unfold required_point.
  destruct (Qltb (_confidence (lookup_get lookup (KStr part))) CONFIDENCE_THRESHOLD)
    eqn:E; [apply Qltb_lt in E | apply Qltb_ge in E].
  - split; [discriminate|]. intros [H _]. exfalso. qlra.
  - destruct (lookup_get lookup (KStr part)) as [point|].
    + destruct (float_xy point) as [c'|e] eqn:Ec.
      * split.
        -- intros [= <-]. split; [exact E|]. now exists point.
        -- intros (_ & point' & [= <-] & Hc). rewrite Ec in Hc. congruence.
      * split; [discriminate|].
        intros (_ & point' & [= <-] & Hc). rewrite Ec in Hc. discriminate.
    + split; [discriminate|]. intros (_ & point' & Hp & _). discriminate.
Qed.



Lemma detector_extract_agrees (candidate : json) (x : option (by_region Q)) :
  _extract_angles candidate = Ok x -> Detector._extract_angles candidate = Ok x.
Proof.
  unfold _extract_angles, Detector._extract_angles.
  destruct candidate as [| | | | |c]; try (intros [= <-]; reflexivity).
  destruct (forallb (has_key c) angle_keys); [|now intros [= <-]].
  destruct (float_angles c); cbn [bind try_except]; [|discriminate].
  now intros [= <-].
Qed.

Lemma detector_scan_agrees (data : dict) (names : list string)
    (x : option (by_region Q)) :
  scan_angle_fields _extract_angles data names = Ok x ->
  scan_angle_fields Detector._extract_angles data names = Ok x.
Proof.
  induction names as [|k rest IH]; cbn [scan_angle_fields]; [auto|].
  destruct (_extract_angles (get data k)) as [[a|]|] eqn:E; cbn [bind];
    try discriminate; rewrite (detector_extract_agrees _ _ E); cbn [bind]; auto.
Qed.

Lemma scan_angle_fields_app
    (extract : json -> result (option (by_region Q))) (data : dict)
    (names more : list string) :
  scan_angle_fields extract data (names ++ more)
  = do angles <- scan_angle_fields extract data names;
    match angles with
    | Some a => Ok (Some a)
    | None => scan_angle_fields extract data more
    end.
Proof.
  induction names as [|k rest IH]; cbn [scan_angle_fields app bind].
  - now destruct (scan_angle_fields extract data more) as [[a|]|].
  - destruct (extract (get data k)) as [[a|]|]; cbn [bind]; try reflexivity.
    exact IH.
Qed.

(** X24. The two copies of the extractor agree wherever the extractor of
    lightGBM.py returns: on a payload on which it raises nothing, and
    whose [reference_angles] field, if it has one, yields no angles, the
    detector returns the same angles or the same [None]. *)
Theorem extractors_agree :
  forall (data : json) (r : option (by_region R)),
    get_angles_from_payload data = Ok r ->
    (forall d, data = JDict d ->
               Detector._extract_angles (get d "reference_angles") = Ok None) ->
    Detector.get_angles_from_payload data = Ok r.
Proof.
  intros data r H Href.
  unfold get_angles_from_payload, Detector.get_angles_from_payload, get_angles_with
    in *.
  destruct data as [| | | | |d]; try exact H.
  change ["adjusted_angles"; "personalized_angles"; "angles"; "reference_angles"]
    with (["adjusted_angles"; "personalized_angles"; "angles"]
          ++ ["reference_angles"]).
  rewrite scan_angle_fields_app.
  destruct (scan_angle_fields _extract_angles d
              ["adjusted_angles"; "personalized_angles"; "angles"])
    as [[a|]|] eqn:Es; cbn [bind] in H; [| |discriminate].
  - rewrite (detector_scan_agrees _ _ _ Es). cbn [bind]. exact H.
  - rewrite (detector_scan_agrees _ _ _ Es). cbn [bind scan_angle_fields].
    rewrite (Href d eq_refl). cbn [bind].
    destruct (_extract_angles (JDict d)) as [x|] eqn:Ed; cbn [bind] in H;
      [|discriminate].
    rewrite (detector_extract_agrees _ _ Ed). cbn [bind]. exact H.
Qed.

Lemma extractors_agree_witness :
  Detector.get_angles_from_payload capture_payload
  = get_angles_from_payload capture_payload.
Proof.
  destruct (get_angles_from_payload capture_payload) as [r|e] eqn:E.
  - apply (extractors_agree capture_payload r E).
    intros d [= <-]. reflexivity.
  - exfalso. revert E. unfold get_angles_from_payload, get_angles_with.
    cbn -[geometric_angles]. discriminate.
Defined.

(** ** The manifest of a profile *)

Lemma string_append_assoc (a b c : string) :
  (a ++ b ++ c = (a ++ b) ++ c)%string.
Proof. induction a as [|x a IH]; cbn; [reflexivity|]. now rewrite IH. Qed.

Lemma append_suffix_eq (a b s t : string) :
  String.length s = String.length t -> (a ++ s = b ++ t)%string -> s = t.
Proof.
  intro Hlen. revert b. induction a as [|c a IH]; intros [|c' b] H; cbn in H.
  - exact H.
  - apply (f_equal String.length) in H. cbn in H.
    rewrite string_length_append in H. lia.
  - apply (f_equal String.length) in H. cbn in H.
    rewrite string_length_append in H. lia.
  - injection H as _ H. now apply (IH b).
Qed.

Lemma reference_is_not_manifest (u1 u2 : string) :
  ("user_profiles/" ++ u2 ++ "/" ++ USER_REFERENCE_FILENAME)%string
  <> ("user_profiles/" ++ u1 ++ "/" ++ PROFILE_MANIFEST)%string.
Proof.
  intro H. apply append_cancel_l in H.
  change (u2 ++ "/" ++ USER_REFERENCE_FILENAME)%string
    with (u2 ++ "/reference_" ++ "posture.json")%string in H.
  change (u1 ++ "/" ++ PROFILE_MANIFEST)%string
    with (u1 ++ "/" ++ "profile.json")%string in H.
  rewrite !string_append_assoc in H.
  apply append_suffix_eq in H; [discriminate|reflexivity].
Qed.


